(** * A disk-resident B+ tree index over a paged file

    Shallow embedding of [pager.go] (the Pager) and [btree.go] (the page
    based B+ tree) of the [btree-index-advance-version] package, together
    with the properties of the specification that concern them.

    Conventions of the embedding.
    - Go's [int], [int64] and [PageID] are 64-bit signed integers: they are
      modelled as [Z] and every conversion or overflow is written with
      [wrap64]; [uint64(x)] is [x mod 2^64], [uint16(x)] is [x mod 2^16].
    - A [Page] is the list of its 4096 bytes. [binary.LittleEndian] is
      coqutil's [le_combine] / [le_split].
    - A run-time panic (slice bounds, index out of range) is [None] for
      page-level code and [Panic] for code that threads the tree.
    - The loops [for { ... }] and the recursion of [insertIntoParent] take
      a fuel argument; running out of it is the outcome [OutOfFuel].
    - The operating-system file is its byte content plus the trace of the
      system calls made on it, newest first.  The only I/O failures of
      the model are the deterministic ones: a negative offset and a read
      that hits the end of the file.  What the file system may refuse (a
      file too large for it, a full disk) is outside the model: the
      statements about a successful write are about a page that starts
      inside the file or at its end. *)

From Stdlib Require Import ZArith List Lia Bool Sorting.Sorted.
From coqutil Require Import Byte Word.LittleEndianList.
From stdpp Require Import base list.

Local Open Scope Z_scope.

(** ** Machine integers *)

Definition wrap64 (z : Z) : Z := (z + 2 ^ 63) mod 2 ^ 64 - 2 ^ 63.
Definition uint64 (z : Z) : Z := z mod 2 ^ 64.
Definition uint16 (z : Z) : Z := z mod 2 ^ 16.
Definition is_int64 (z : Z) : Prop := - 2 ^ 63 <= z < 2 ^ 63.

(** ** pager.go *)

Definition PageSize : Z := 4096.

(** [type PageID int64] and [type Page [PageSize]byte] *)
Abbreviation PageID := Z (only parsing).
Abbreviation Page := (list byte) (only parsing).

(** [new(Page)]: a zeroed page. *)
Definition new_Page : Page := replicate (Z.to_nat PageSize) Byte.x00.

Inductive io_event : Type :=
| EvReadAt (off : Z)
| EvWriteAt (off : Z)
| EvSync.

Record File : Type := mkFile {
  content : list byte;
  trace : list io_event
}.

Inductive error : Type :=
| ErrReadPastEnd (pageID offset size : Z)
| ErrNegativeOffset
| ErrEOF
| ErrDuplicateKey (key : Z).

Record Pager : Type := mkPager {
  file : File;
  fileSize : Z;
  numPages : Z
}.

(** [os.File.ReadAt(b, off)]: fills [b] with the bytes found from [off];
    fewer than [len(b)] bytes is the error [io.EOF], and the bytes that
    were found stay in the buffer. *)
Definition File_ReadAt (f : File) (b : Page) (off : Z)
  : (Page * option error) * File :=
  if off <? 0 then ((b, Some ErrNegativeOffset), f)
  else
    let data := take (length b) (drop (Z.to_nat off) (content f)) in
    let b' := data ++ drop (length data) b in
    let f' := mkFile (content f) (EvReadAt off :: trace f) in
    if (length data <? length b)%nat then ((b', Some ErrEOF), f')
    else ((b', None), f').

(** The bytes of a file after the bytes [b] are written at offset [o]: a
    write past the end fills the gap with zero bytes. *)
Definition pwrite (c : list byte) (o : nat) (b : list byte) : list byte :=
  take o c ++ replicate (o - length c) Byte.x00 ++ b ++ drop (o + length b) c.

(** [os.File.WriteAt(b, off)], on a file system that takes the write: its
    limit on the size of a file, past which the call fails with "file too
    large", is not modelled. *)
Definition File_WriteAt (f : File) (b : Page) (off : Z)
  : option error * File :=
  if off <? 0 then (Some ErrNegativeOffset, f)
  else
    (None, mkFile (pwrite (content f) (Z.to_nat off) b)
                  (EvWriteAt off :: trace f)).

Definition File_Sync (f : File) : option error * File :=
  (None, mkFile (content f) (EvSync :: trace f)).

(** [NewPager(path)], on the file that [os.OpenFile] opens or creates. *)
Definition NewPager (f : File) : Pager :=
  let fileSize := Z.of_nat (length (content f)) in
  let numPages := Z.quot fileSize PageSize in
  mkPager f fileSize numPages.

Definition ReadPage (p : Pager) (pageID : PageID) (pageData : Page)
  : (Page * option error) * Pager :=
  let offset := wrap64 (pageID * PageSize) in
  if offset >=? fileSize p then
    ((pageData, Some (ErrReadPastEnd pageID offset (fileSize p))), p)
  else
    let '(r, f') := File_ReadAt (file p) pageData offset in
    (r, mkPager f' (fileSize p) (numPages p)).

Definition WritePage (p : Pager) (pageID : PageID) (pageData : Page)
  : option error * Pager :=
  let offset := wrap64 (pageID * PageSize) in
  match File_WriteAt (file p) pageData offset with
  | (Some err, f') => (Some err, mkPager f' (fileSize p) (numPages p))
  | (None, f') =>
      let p1 :=
        if wrap64 (offset + PageSize) >? fileSize p then
          let fileSize' := wrap64 (offset + PageSize) in
          mkPager f' fileSize' (Z.quot fileSize' PageSize)
        else mkPager f' (fileSize p) (numPages p) in
      let '(err, f'') := File_Sync (file p1) in
      (err, mkPager f'' (fileSize p1) (numPages p1))
  end.

Definition AllocatePage (p : Pager) : PageID * Pager :=
  let pageID := numPages p in
  (pageID, mkPager (file p) (wrap64 (fileSize p + PageSize))
                   (wrap64 (numPages p + 1))).

Definition Close (p : Pager) : option error * File := (None, file p).

(** ** btree.go: page header *)

Definition nodeTypeOffset : Z := 0.
Definition isRootOffset : Z := 1.
Definition parentPtrOffset : Z := 8.
Definition numKeysOffset : Z := 16.
Definition nextLeafPtrOffset : Z := 24.
Definition headerSize : Z := 32.

Definition NodeTypeLeaf : Z := 0.
Definition NodeTypeInternal : Z := 1.

Record BPlusTree : Type := mkTree {
  pager : Pager;
  rootPageID : PageID;
  degree : Z
}.

(** *** Slices of a page

    All accesses to a page are loads and stores of a run of bytes at an
    offset; multi-byte integers are little-endian. *)

Definition loadBytes (page : Page) (off n : nat) : list byte :=
  take n (drop off page).

Definition storeBytes (page : Page) (off : nat) (bs : list byte) : Page :=
  take off page ++ bs ++ drop (off + length bs) page.

Definition getLE (page : Page) (off : Z) (width : nat) : Z :=
  le_combine (loadBytes page (Z.to_nat off) width).

Definition putLE (page : Page) (off : Z) (width : nat) (v : Z) : Page :=
  storeBytes page (Z.to_nat off) (le_split width v).

(** [page[off:]] panics unless [0 <= off <= len(page)], and
    [binary.LittleEndian.Uint64] / [PutUint64] panic on a slice shorter
    than 8 bytes: together, an access at [off] needs
    [0 <= off] and [off + 8 <= len(page)]. *)
Definition inBounds (page : Page) (off width : Z) : bool :=
  (0 <=? off) && (off + width <=? Z.of_nat (length page)).

(** [binary.LittleEndian.Uint64(page[off:])] and
    [binary.LittleEndian.PutUint64(page[off:], v)] ([v] a [uint64]), first
    without the bounds check, for the constant offsets of the header. *)
Definition getUint64 (page : Page) (off : Z) : Z := getLE page off 8.

Definition putUint64 (page : Page) (off : Z) (v : Z) : Page :=
  putLE page off 8 v.

Definition readUint64 (page : Page) (off : Z) : option Z :=
  if inBounds page off 8 then Some (getUint64 page off) else None.

Definition writeUint64 (page : Page) (off : Z) (v : Z) : option Page :=
  if inBounds page off 8 then Some (putUint64 page off v) else None.

(** [page[off] = b] and [page[off]] at the constant header offsets. *)
Definition setByte (page : Page) (off : Z) (b : Z) : Page :=
  putLE page off 1 b.

Definition getByte (page : Page) (off : Z) : Z := getLE page off 1.

(** [copy(page[dst:], page[src:srcEnd])]: Go's [copy] moves
    [min(len(dst), len(src))] bytes and behaves as [memmove] when the two
    slices overlap. *)
Definition copyWithin (page : Page) (dst src srcEnd : Z) : option Page :=
  let len := Z.of_nat (length page) in
  if (0 <=? dst) && (dst <=? len) && (0 <=? src) && (src <=? srcEnd)
     && (srcEnd <=? len)
  then
    let n := Z.to_nat (Z.min (len - dst) (srcEnd - src)) in
    Some (storeBytes page (Z.to_nat dst) (loadBytes page (Z.to_nat src) n))
  else None.

(** [clear(page[off:])] *)
Definition clearFrom (page : Page) (off : Z) : Page :=
  storeBytes page (Z.to_nat off)
             (replicate (length page - Z.to_nat off) Byte.x00).

(** *** Helper functions for page metadata *)

Definition isLeaf (page : Page) : bool :=
  getByte page nodeTypeOffset =? NodeTypeLeaf.

Definition getNumKeys (page : Page) : Z := getLE page numKeysOffset 2.

Definition setNumKeys (page : Page) (numKeys : Z) : Page :=
  putLE page numKeysOffset 2 numKeys.

Definition getNextLeafPageID (page : Page) : PageID :=
  wrap64 (getUint64 page nextLeafPtrOffset).

Definition setNextLeafPageID (page : Page) (pageID : PageID) : Page :=
  putUint64 page nextLeafPtrOffset (uint64 pageID).

Definition isRoot (page : Page) : bool := getByte page isRootOffset =? 1.

Definition setIsRoot (page : Page) (isRoot : bool) : Page :=
  if isRoot then setByte page isRootOffset 1
  else setByte page isRootOffset 0.

Definition getParentPageID (page : Page) : PageID :=
  wrap64 (getUint64 page parentPtrOffset).

Definition setParentPageID (page : Page) (pageID : PageID) : Page :=
  putUint64 page parentPtrOffset (uint64 pageID).

(** ** Outcomes of the operations that thread the tree *)

Inductive outcome (A : Type) : Type :=
| Ok (a : A)
| Err (e : error)
| Panic
| OutOfFuel.
Arguments Ok {A} a.
Arguments Err {A} e.
Arguments Panic {A}.
Arguments OutOfFuel {A}.

(** Reads and writes of the tree go through its pager. *)
Definition treeRead (t : BPlusTree) (pageID : PageID)
  : (Page * option error) * BPlusTree :=
  let '(r, p') := ReadPage (pager t) pageID new_Page in
  (r, mkTree p' (rootPageID t) (degree t)).

Definition treeWrite (t : BPlusTree) (pageID : PageID) (page : Page)
  : option error * BPlusTree :=
  let '(r, p') := WritePage (pager t) pageID page in
  (r, mkTree p' (rootPageID t) (degree t)).

Definition treeAllocate (t : BPlusTree) : PageID * BPlusTree :=
  let '(id, p') := AllocatePage (pager t) in
  (id, mkTree p' (rootPageID t) (degree t)).

(** [NewBPlusTree(pager, degree)]; [None] is the panic on [degree < 3]. *)
Definition NewBPlusTree (pager : Pager) (degree : Z) : option BPlusTree :=
  if degree <? 3 then None
  else if numPages pager =? 0 then
    let rootPageData := new_Page in
    let rootPageData := setByte rootPageData nodeTypeOffset NodeTypeLeaf in
    let rootPageData := setIsRoot rootPageData true in
    let rootPageData := setParentPageID rootPageData (-1) in
    let rootPageData := setNumKeys rootPageData 0 in
    let rootPageData := setNextLeafPageID rootPageData (-1) in
    let '(_, pager') := WritePage pager 0 rootPageData in
    Some (mkTree pager' 0 degree)
  else Some (mkTree pager 0 degree).

(** ** Search and SearchRange *)

(** The loop of [Search] over the entries of the leaf,
    [i] the current index and [n] the iterations left. *)
Fixpoint searchLeaf (page : Page) (key : Z) (i : Z) (n : nat)
  : option (Z * bool) :=
  match n with
  | O => Some (0, false)
  | S n' =>
      let offset := headerSize + i * (8 + 8) in
      k ← readUint64 page offset;
      if wrap64 k =? key then
        v ← readUint64 page (offset + 8); Some (wrap64 v, true)
      else searchLeaf page key (i + 1) n'
  end.

(** The inner loop of [findLeafPage]: the index of the first separator
    that is greater than [key], or [numKeys]. *)
Fixpoint scanSeparators (page : Page) (key : Z) (i : Z) (n : nat)
  : option Z :=
  match n with
  | O => Some i
  | S n' =>
      let offset := headerSize + i * (8 + 8) + 8 in
      k ← readUint64 page offset;
      if key <? wrap64 k then Some i
      else scanSeparators page key (i + 1) n'
  end.

Fixpoint findLeafLoop (fuel : nat) (t : BPlusTree) (key : Z)
    (currentPageID : PageID) : outcome PageID * BPlusTree :=
  match fuel with
  | O => (OutOfFuel, t)
  | S fuel' =>
      let '((page, err), t1) := treeRead t currentPageID in
      match err with
      | Some e => (Err e, t1)
      | None =>
          if isLeaf page then (Ok currentPageID, t1)
          else
            let numKeys := getNumKeys page in
            match
              i ← scanSeparators page key 0 (Z.to_nat numKeys);
              readUint64 page (headerSize + i * (8 + 8))
            with
            | None => (Panic, t1)
            | Some child => findLeafLoop fuel' t1 key (wrap64 child)
            end
      end
  end.

Definition findLeafPage (fuel : nat) (t : BPlusTree) (key : Z)
  : outcome PageID * BPlusTree :=
  findLeafLoop fuel t key (rootPageID t).

Definition Search (fuel : nat) (t : BPlusTree) (key : Z)
  : outcome (Z * bool) * BPlusTree :=
  match findLeafPage fuel t key with
  | (Ok leafPageID, t1) =>
      let '((page, err), t2) := treeRead t1 leafPageID in
      match err with
      | Some e => (Err e, t2)
      | None =>
          let numKeys := getNumKeys page in
          match searchLeaf page key 0 (Z.to_nat numKeys) with
          | Some r => (Ok r, t2)
          | None => (Panic, t2)
          end
      end
  | (Err e, t1) => (Err e, t1)
  | (Panic, t1) => (Panic, t1)
  | (OutOfFuel, t1) => (OutOfFuel, t1)
  end.

(** The inner loop of [SearchRange] over one leaf: [foundEnd] and the
    results so far. *)
Fixpoint scanLeafRange (page : Page) (startKey endKey : Z) (i : Z) (n : nat)
    (results : list Z) : option (bool * list Z) :=
  match n with
  | O => Some (false, results)
  | S n' =>
      let offset := headerSize + i * (8 + 8) in
      k ← readUint64 page offset;
      let currentKey := wrap64 k in
      if currentKey >? endKey then Some (true, results)
      else if currentKey >=? startKey then
        v ← readUint64 page (offset + 8);
        scanLeafRange page startKey endKey (i + 1) n' (results ++ [wrap64 v])
      else scanLeafRange page startKey endKey (i + 1) n' results
  end.

Fixpoint walkLeaves (fuel : nat) (t : BPlusTree) (startKey endKey : Z)
    (leafPageID : PageID) (results : list Z)
  : outcome (list Z) * BPlusTree :=
  if leafPageID =? -1 then (Ok results, t)
  else
    match fuel with
    | O => (OutOfFuel, t)
    | S fuel' =>
        let '((page, err), t1) := treeRead t leafPageID in
        match err with
        | Some e => (Err e, t1)
        | None =>
            let numKeys := getNumKeys page in
            match scanLeafRange page startKey endKey 0 (Z.to_nat numKeys)
                                results with
            | None => (Panic, t1)
            | Some (true, results') => (Ok results', t1)
            | Some (false, results') =>
                walkLeaves fuel' t1 startKey endKey
                           (getNextLeafPageID page) results'
            end
        end
    end.

Definition SearchRange (fuel : nat) (t : BPlusTree) (startKey endKey : Z)
  : outcome (list Z) * BPlusTree :=
  if startKey >? endKey then (Ok [], t)
  else
    match findLeafPage fuel t startKey with
    | (Ok leafPageID, t1) => walkLeaves fuel t1 startKey endKey leafPageID []
    | (Err e, t1) => (Err e, t1)
    | (Panic, t1) => (Panic, t1)
    | (OutOfFuel, t1) => (OutOfFuel, t1)
    end.

(** ** Insert *)

(** The duplicate check of [Insert]. *)
Fixpoint hasKey (page : Page) (key : Z) (i : Z) (n : nat) : option bool :=
  match n with
  | O => Some false
  | S n' =>
      let offset := headerSize + i * 16 in
      k ← readUint64 page offset;
      if wrap64 k =? key then Some true else hasKey page key (i + 1) n'
  end.

(** The loop of [insertIntoLeaf]: skip the keys smaller than [key]. *)
Fixpoint leafInsertIndex (page : Page) (key : Z) (insertIndex : Z) (n : nat)
  : option Z :=
  match n with
  | O => Some insertIndex
  | S n' =>
      k ← readUint64 page (headerSize + insertIndex * 16);
      if key >? wrap64 k then leafInsertIndex page key (insertIndex + 1) n'
      else Some insertIndex
  end.

Definition insertIntoLeaf (page : Page) (key : Z) (value : Z)
  : option Page :=
  let numKeys := getNumKeys page in
  insertIndex ← leafInsertIndex page key 0 (Z.to_nat numKeys);
  page ← copyWithin page (headerSize + (insertIndex + 1) * 16)
                    (headerSize + insertIndex * 16)
                    (headerSize + numKeys * 16);
  let offset := headerSize + insertIndex * 16 in
  page ← writeUint64 page offset (uint64 key);
  page ← writeUint64 page (offset + 8) (uint64 value);
  Some (setNumKeys page (uint16 (numKeys + 1))).

(** The first loop of [splitAndInsertLeaf]: the entries of the page with
    the new one placed before the first greater key. *)
Fixpoint mergeLeaf (oldPage : Page) (key value : Z) (i : Z) (n : nat)
    (inserted : bool) (tempKeys tempValues : list Z)
  : option (bool * list Z * list Z) :=
  match n with
  | O => Some (inserted, tempKeys, tempValues)
  | S n' =>
      let offset := headerSize + i * 16 in
      k ← readUint64 oldPage offset;
      let currentKey := wrap64 k in
      let '(inserted, tempKeys, tempValues) :=
        if negb inserted && (key <? currentKey)
        then (true, tempKeys ++ [key], tempValues ++ [value])
        else (inserted, tempKeys, tempValues) in
      v ← readUint64 oldPage (offset + 8);
      mergeLeaf oldPage key value (i + 1) n' inserted
                (tempKeys ++ [currentKey]) (tempValues ++ [wrap64 v])
  end.

(** [for i, k := range keys] writing the entries of a leaf. *)
Fixpoint writeLeafEntries (page : Page) (i : Z) (keys values : list Z)
  : option Page :=
  match keys with
  | [] => Some page
  | k :: keys' =>
      match values with
      | [] => None
      | v :: values' =>
          let offset := headerSize + i * 16 in
          page ← writeUint64 page offset (uint64 k);
          page ← writeUint64 page (offset + 8) (uint64 v);
          writeLeafEntries page (i + 1) keys' values'
      end
  end.

(** [splitAndInsertLeaf], from the creation of the new page to the stitch
    of the sibling links: the images of the two pages and the key to
    promote. *)
Definition splitLeaf (degree : Z) (oldPage : Page) (newPageID : PageID)
    (key value : Z) : option (Page * Page * Z) :=
  let newPage := new_Page in
  let newPage := setByte newPage nodeTypeOffset NodeTypeLeaf in
  let newPage := setParentPageID newPage (getParentPageID oldPage) in
  let numKeys := getNumKeys oldPage in
  '(inserted, tempKeys, tempValues) ←
    mergeLeaf oldPage key value 0 (Z.to_nat numKeys) false [] [];
  let '(tempKeys, tempValues) :=
    if negb inserted then (tempKeys ++ [key], tempValues ++ [value])
    else (tempKeys, tempValues) in
  let splitPoint := Z.to_nat (Z.quot degree 2) in
  let leftKeys := take splitPoint tempKeys in
  let leftValues := take splitPoint tempValues in
  let rightKeys := drop splitPoint tempKeys in
  let rightValues := drop splitPoint tempValues in
  keyToPromote ← head rightKeys;
  let oldPage := clearFrom oldPage headerSize in
  let oldPage := setNumKeys oldPage (uint16 (Z.of_nat (length leftKeys))) in
  oldPage ← writeLeafEntries oldPage 0 leftKeys leftValues;
  let newPage := setNumKeys newPage (uint16 (Z.of_nat (length rightKeys))) in
  newPage ← writeLeafEntries newPage 0 rightKeys rightValues;
  let newPage := setNextLeafPageID newPage (getNextLeafPageID oldPage) in
  let oldPage := setNextLeafPageID oldPage newPageID in
  Some (oldPage, newPage, keyToPromote).

(** [splitAndInsertLeaf] up to its final call: allocation, the split and
    the two writes.  The result is the argument list of the call of
    [insertIntoParent] that follows. *)
Definition splitLeafStep (t : BPlusTree) (oldPageID : PageID)
    (oldPage : Page) (key value : Z)
  : outcome (PageID * PageID * Z * PageID) * BPlusTree :=
  let '(newPageID, t) := treeAllocate t in
  match splitLeaf (degree t) oldPage newPageID key value with
  | None => (Panic, t)
  | Some (oldPage, newPage, keyToPromote) =>
      match treeWrite t oldPageID oldPage with
      | (Some err, t) => (Err err, t)
      | (None, t) =>
          match treeWrite t newPageID newPage with
          | (Some err, t) => (Err err, t)
          | (None, t) =>
              (Ok (getParentPageID oldPage, oldPageID, keyToPromote,
                   newPageID), t)
          end
      end
  end.

(** ** insertIntoParent *)

(** The position loop of the branch for a parent with room: the index of
    the first separator greater than [key]. *)
Fixpoint parentInsertIndex (parentPage : Page) (key : Z) (insertIndex : Z)
    (n : nat) : option Z :=
  match n with
  | O => Some insertIndex
  | S n' =>
      let offset := headerSize + insertIndex * 16 + 8 in
      k ← readUint64 parentPage offset;
      if key <? wrap64 k then Some insertIndex
      else parentInsertIndex parentPage key (insertIndex + 1) n'
  end.

(** The branch [numKeys < t.degree-1] of [insertIntoParent], on the page
    image: position, shift, the two stores and the new key count. *)
Definition spliceIntoParent (parentPage : Page) (key : Z)
    (rightChildID : PageID) : option Page :=
  let numKeys := getNumKeys parentPage in
  insertIndex ← parentInsertIndex parentPage key 0 (Z.to_nat numKeys);
  let keyStart := headerSize + insertIndex * 16 + 8 in
  let ptrStart := keyStart - 8 in
  parentPage ← copyWithin parentPage (ptrStart + 32) (ptrStart + 16)
                          (Z.of_nat (length parentPage));
  parentPage ← writeUint64 parentPage keyStart (uint64 key);
  parentPage ← writeUint64 parentPage (keyStart + 8) (uint64 rightChildID);
  Some (setNumKeys parentPage (uint16 (numKeys + 1))).

(** Copy of the keys and pointers of a full parent to temporary slices. *)
Fixpoint materialize (parentPage : Page) (i : Z) (n : nat)
    (tempKeys : list Z) (tempPointers : list PageID)
  : option (list Z * list PageID) :=
  match n with
  | O => Some (tempKeys, tempPointers)
  | S n' =>
      let keyOffset := headerSize + i * 16 + 8 in
      let ptrOffset := keyOffset + 8 in
      k ← readUint64 parentPage keyOffset;
      p ← readUint64 parentPage ptrOffset;
      materialize parentPage (i + 1) n' (tempKeys ++ [wrap64 k])
                  (tempPointers ++ [wrap64 p])
  end.

(** [for insertIndex < len(tempKeys) && key > tempKeys[insertIndex]],
    on the keys from [insertIndex] on. *)
Fixpoint tempInsertIndex (tempKeys : list Z) (key : Z) (insertIndex : nat)
  : nat :=
  match tempKeys with
  | [] => insertIndex
  | k :: rest =>
      if key >? k then tempInsertIndex rest key (S insertIndex)
      else insertIndex
  end.

(** [for i, k := range keys] writing the separators of an internal page,
    [pointers] being the pointers from index 1 on. *)
Fixpoint writeInternalEntries (page : Page) (i : Z) (keys : list Z)
    (pointers : list PageID) : option Page :=
  match keys with
  | [] => Some page
  | k :: keys' =>
      match pointers with
      | [] => None
      | p :: pointers' =>
          let offset := headerSize + i * 16 + 8 in
          page ← writeUint64 page offset (uint64 k);
          page ← writeUint64 page (offset + 8) (uint64 p);
          writeInternalEntries page (i + 1) keys' pointers'
      end
  end.

(** The temporary slices of the split of a full parent, with the new key
    and child in place. *)
Definition splitTemps (parentPage : Page) (key : Z) (rightChildID : PageID)
  : option (list Z * list PageID) :=
  let numKeys := getNumKeys parentPage in
  p0 ← readUint64 parentPage headerSize;
  '(tempKeys, tempPointers) ←
    materialize parentPage 0 (Z.to_nat numKeys) [] [wrap64 p0];
  let insertIndex := tempInsertIndex tempKeys key 0 in
  let tempKeys :=
    take insertIndex tempKeys ++ ([key] ++ drop insertIndex tempKeys) in
  let tempPointers :=
    take (insertIndex + 1) tempPointers
      ++ ([rightChildID] ++ drop (insertIndex + 1) tempPointers) in
  Some (tempKeys, tempPointers).

(** The split of a full parent on the page images: the rewritten page,
    the new page, the key to promote and the pointers moved to the new
    page. *)
Definition splitInternal (degree : Z) (parentPage : Page) (key : Z)
    (rightChildID : PageID) : option (Page * Page * Z * list PageID) :=
  let newPage := new_Page in
  let newPage := setByte newPage nodeTypeOffset NodeTypeInternal in
  let newPage := setParentPageID newPage (getParentPageID parentPage) in
  '(tempKeys, tempPointers) ← splitTemps parentPage key rightChildID;
  let splitPoint := Z.to_nat (Z.quot degree 2) in
  keyToPromoteAgain ← tempKeys !! splitPoint;
  let leftKeys := take splitPoint tempKeys in
  let rightKeys := drop (splitPoint + 1) tempKeys in
  let leftPointers := take (splitPoint + 1) tempPointers in
  let rightPointers := drop (splitPoint + 1) tempPointers in
  let parentPage := clearFrom parentPage headerSize in
  let parentPage :=
    setNumKeys parentPage (uint16 (Z.of_nat (length leftKeys))) in
  l0 ← head leftPointers;
  parentPage ← writeUint64 parentPage headerSize (uint64 l0);
  parentPage ← writeInternalEntries parentPage 0 leftKeys (tail leftPointers);
  let newPage := setNumKeys newPage (uint16 (Z.of_nat (length rightKeys))) in
  r0 ← head rightPointers;
  newPage ← writeUint64 newPage headerSize (uint64 r0);
  newPage ← writeInternalEntries newPage 0 rightKeys (tail rightPointers);
  Some (parentPage, newPage, keyToPromoteAgain, rightPointers).

(** [for _, childPageID := range rightPointers]: the errors of the read
    and of the write are dropped. *)
Fixpoint reparentChildren (t : BPlusTree) (children : list PageID)
    (newPageID : PageID) : BPlusTree :=
  match children with
  | [] => t
  | childPageID :: rest =>
      let '((childPage, _), t) := treeRead t childPageID in
      let childPage := setParentPageID childPage newPageID in
      let '(_, t) := treeWrite t childPageID childPage in
      reparentChildren t rest newPageID
  end.

(** The split branch of [insertIntoParent] up to the recursive call, whose
    arguments are the result. *)
Definition splitInternalStep (t : BPlusTree) (parentPageID : PageID)
    (parentPage : Page) (key : Z) (rightChildID : PageID)
  : outcome (PageID * PageID * Z * PageID) * BPlusTree :=
  let '(newPageID, t) := treeAllocate t in
  match splitInternal (degree t) parentPage key rightChildID with
  | None => (Panic, t)
  | Some (parentPage, newPage, keyToPromoteAgain, rightPointers) =>
      let t := reparentChildren t rightPointers newPageID in
      match treeWrite t parentPageID parentPage with
      | (Some err, t) => (Err err, t)
      | (None, t) =>
          match treeWrite t newPageID newPage with
          | (Some err, t) => (Err err, t)
          | (None, t) =>
              (Ok (getParentPageID parentPage, parentPageID,
                   keyToPromoteAgain, newPageID), t)
          end
      end
  end.

(** The branch [parentPageID == -1]: a new root above the two halves. *)
Definition createRoot (t : BPlusTree) (leftChildID : PageID) (key : Z)
    (rightChildID : PageID) : outcome unit * BPlusTree :=
  let '(newRootPageID, t) := treeAllocate t in
  let newRootPage := new_Page in
  let newRootPage := setByte newRootPage nodeTypeOffset NodeTypeInternal in
  let newRootPage := setIsRoot newRootPage true in
  let newRootPage := setParentPageID newRootPage (-1) in
  let newRootPage := setNumKeys newRootPage 1 in
  match
    page ← writeUint64 newRootPage headerSize (uint64 leftChildID);
    page ← writeUint64 page (headerSize + 8) (uint64 key);
    writeUint64 page (headerSize + 16) (uint64 rightChildID)
  with
  | None => (Panic, t)
  | Some newRootPage =>
      let '((leftChildPage, _), t) := treeRead t leftChildID in
      let leftChildPage := setIsRoot leftChildPage false in
      let leftChildPage := setParentPageID leftChildPage newRootPageID in
      let '(_, t) := treeWrite t leftChildID leftChildPage in
      let '((rightChildPage, _), t) := treeRead t rightChildID in
      let rightChildPage := setIsRoot rightChildPage false in
      let rightChildPage := setParentPageID rightChildPage newRootPageID in
      let '(_, t) := treeWrite t rightChildID rightChildPage in
      match treeWrite t newRootPageID newRootPage with
      | (Some err, t) => (Err err, t)
      | (None, t) => (Ok tt, mkTree (pager t) newRootPageID (degree t))
      end
  end.

Fixpoint insertIntoParent (fuel : nat) (t : BPlusTree)
    (parentPageID leftChildID : PageID) (key : Z) (rightChildID : PageID)
  : outcome unit * BPlusTree :=
  match fuel with
  | O => (OutOfFuel, t)
  | S fuel' =>
      if parentPageID =? -1 then createRoot t leftChildID key rightChildID
      else
        let '((parentPage, err), t) := treeRead t parentPageID in
        match err with
        | Some e => (Err e, t)
        | None =>
            let numKeys := getNumKeys parentPage in
            if numKeys <? degree t - 1 then
              match spliceIntoParent parentPage key rightChildID with
              | None => (Panic, t)
              | Some parentPage =>
                  match treeWrite t parentPageID parentPage with
                  | (Some e, t) => (Err e, t)
                  | (None, t) => (Ok tt, t)
                  end
              end
            else
              match splitInternalStep t parentPageID parentPage key
                                      rightChildID with
              | (Ok (grandParentID, leftID, keyToPromoteAgain, newPageID),
                 t) =>
                  insertIntoParent fuel' t grandParentID leftID
                                   keyToPromoteAgain newPageID
              | (Err e, t) => (Err e, t)
              | (Panic, t) => (Panic, t)
              | (OutOfFuel, t) => (OutOfFuel, t)
              end
        end
  end.

Definition splitAndInsertLeaf (fuel : nat) (t : BPlusTree)
    (oldPageID : PageID) (oldPage : Page) (key value : Z)
  : outcome unit * BPlusTree :=
  match splitLeafStep t oldPageID oldPage key value with
  | (Ok (parentPageID, leftID, keyToPromote, newPageID), t) =>
      insertIntoParent fuel t parentPageID leftID keyToPromote newPageID
  | (Err e, t) => (Err e, t)
  | (Panic, t) => (Panic, t)
  | (OutOfFuel, t) => (OutOfFuel, t)
  end.

Definition Insert (fuel : nat) (t : BPlusTree) (key : Z) (value : Z)
  : outcome unit * BPlusTree :=
  match findLeafPage fuel t key with
  | (Ok leafPageID, t) =>
      let '((leafPage, err), t) := treeRead t leafPageID in
      match err with
      | Some e => (Err e, t)
      | None =>
          let numKeys := getNumKeys leafPage in
          match hasKey leafPage key 0 (Z.to_nat numKeys) with
          | None => (Panic, t)
          | Some true => (Err (ErrDuplicateKey key), t)
          | Some false =>
              if numKeys <? degree t - 1 then
                match insertIntoLeaf leafPage key value with
                | None => (Panic, t)
                | Some leafPage =>
                    match treeWrite t leafPageID leafPage with
                    | (Some e, t) => (Err e, t)
                    | (None, t) => (Ok tt, t)
                    end
                end
              else splitAndInsertLeaf fuel t leafPageID leafPage key value
          end
      end
  | (Err e, t) => (Err e, t)
  | (Panic, t) => (Panic, t)
  | (OutOfFuel, t) => (OutOfFuel, t)
  end.

(** * Specification predicates *)

(** The tracked size and the page count agree. *)
Definition sizes_agree (p : Pager) : Prop :=
  fileSize p = numPages p * PageSize.

(** The same equation as the program would evaluate it, in [int64]. *)
Definition sizes_agree64 (p : Pager) : Prop :=
  fileSize p = wrap64 (numPages p * PageSize).

(** [ReadPage] failed with the error "read past end of file". *)
Definition readPastEnd (r : (Page * option error) * Pager) : Prop :=
  exists pageID offset size,
    snd (fst r) = Some (ErrReadPastEnd pageID offset size).

Definition is_read (e : io_event) : Prop :=
  match e with EvReadAt _ => True | _ => False end.

(** [t'] is [t] after some reads: same bytes, same tracked state. *)
Definition only_reads (t t' : BPlusTree) : Prop :=
  content (file (pager t')) = content (file (pager t))
  /\ fileSize (pager t') = fileSize (pager t)
  /\ numPages (pager t') = numPages (pager t)
  /\ rootPageID t' = rootPageID t
  /\ degree t' = degree t
  /\ exists evs, trace (file (pager t')) = evs ++ trace (file (pager t))
                 /\ Forall is_read evs.

(** ** Decoding of a page *)

Definition page_ok (page : Page) : Prop := length page = Z.to_nat PageSize.

(** The [n] pairs of 8-byte integers found at [off], [off + 16], ... *)
Fixpoint pairsAt (page : Page) (off : Z) (n : nat) : list (Z * Z) :=
  match n with
  | O => []
  | S n' =>
      (wrap64 (getUint64 page off), wrap64 (getUint64 page (off + 8)))
        :: pairsAt page (off + 16) n'
  end.

(** The entries (key, record offset) of a leaf: they start at
    [headerSize]. *)
Definition leafEntries (page : Page) : list (Z * Z) :=
  pairsAt page headerSize (Z.to_nat (getNumKeys page)).

(** The payload [P0 (K1 P1) ... (Kn Pn)] of an internal page: [P0] is at
    [headerSize] and the pairs follow it. *)
Definition internalPairs (page : Page) : list (Z * PageID) :=
  pairsAt page (headerSize + 8) (Z.to_nat (getNumKeys page)).

Definition internalKeys (page : Page) : list Z := (internalPairs page).*1.

Definition internalPointers (page : Page) : list PageID :=
  wrap64 (getUint64 page headerSize) :: (internalPairs page).*2.

(** [key] is the key of one of the entries of the leaf. *)
Definition leafHolds (page : Page) (key : Z) : Prop :=
  exists i u,
    0 <= i < getNumKeys page
    /\ readUint64 page (headerSize + i * 16) = Some u
    /\ wrap64 u = key.

(** Separator [i] and pointer [i] of an internal page, counted from 0, as
    [findLeafPage] reads them; also for an index past the key count. *)
Definition internalKey (page : Page) (i : Z) : Z :=
  wrap64 (getUint64 page (headerSize + i * 16 + 8)).

Definition internalPointer (page : Page) (i : Z) : PageID :=
  wrap64 (getUint64 page (headerSize + i * 16)).

(** The key count of the page does not reach past its end. *)
Definition fitsLeaf (page : Page) : Prop :=
  headerSize + getNumKeys page * 16 <= Z.of_nat (length page).

Definition fitsInternal (page : Page) : Prop :=
  headerSize + 8 + getNumKeys page * 16 <= Z.of_nat (length page).

(** The page stored under [pageID], as the pager reads it back. *)
Definition onDisk (t : BPlusTree) (pageID : PageID) (page : Page) : Prop :=
  exists t', treeRead t pageID = ((page, None), t').

(** Between two operations the tracked size is the length of the file and
    a multiple of the page size, and there is room for one more page. *)
Definition pager_wf (p : Pager) : Prop :=
  sizes_agree p
  /\ Z.of_nat (length (content (file p))) = fileSize p
  /\ 0 <= numPages p < 2 ^ 51 - 1.

(** Page [pageID] lies within the tracked size and within the file. *)
Definition readable (t : BPlusTree) (pageID : PageID) : Prop :=
  0 <= pageID < 2 ^ 51 - 1
  /\ pageID * PageSize < fileSize (pager t)
  /\ pageID * PageSize + PageSize
     <= Z.of_nat (length (content (file (pager t)))).

Definition pageAt (t : BPlusTree) (pageID : PageID) : Page :=
  loadBytes (content (file (pager t))) (Z.to_nat (pageID * PageSize))
            (Z.to_nat PageSize).

Definition pair_int64 (kv : Z * Z) : Prop := is_int64 kv.1 /\ is_int64 kv.2.

(** The tree is its first root: one leaf, page 0, of at most [n] keys,
    in a file of one page whose length the pager tracks. *)
Definition singleLeaf (t : BPlusTree) (n : Z) : Prop :=
  rootPageID t = 0
  /\ numPages (pager t) = 1
  /\ fileSize (pager t) = PageSize
  /\ length (content (file (pager t))) = Z.to_nat PageSize
  /\ isLeaf (pageAt t 0) = true
  /\ getNumKeys (pageAt t 0) <= n.

(** ** Sequences *)

(** [(key, value)] placed before the first entry with a greater key. *)
Fixpoint insertBefore (key value : Z) (es : list (Z * Z)) : list (Z * Z) :=
  match es with
  | [] => [(key, value)]
  | (k, v) :: rest =>
      if key <? k then (key, value) :: (k, v) :: rest
      else (k, v) :: insertBefore key value rest
  end.

Definition insertAt {A : Type} (i : nat) (x : A) (l : list A) : list A :=
  take i l ++ x :: drop i l.

(** The bytes of a run of (key, pointer) or (key, value) pairs. *)
Definition encodePairs (l : list (Z * Z)) : list byte :=
  flat_map (fun kv => le_split 8 (uint64 (fst kv))
                        ++ le_split 8 (uint64 (snd kv))) l.

(** The first loop of [splitAndInsertLeaf] on the decoded entries. *)
Fixpoint mergeList (key value : Z) (es : list (Z * Z)) (inserted : bool)
    (tempKeys tempValues : list Z) : bool * list Z * list Z :=
  match es with
  | [] => (inserted, tempKeys, tempValues)
  | (k, v) :: rest =>
      let '(inserted, tempKeys, tempValues) :=
        if negb inserted && (key <? k)
        then (true, tempKeys ++ [key], tempValues ++ [value])
        else (inserted, tempKeys, tempValues) in
      mergeList key value rest inserted (tempKeys ++ [k]) (tempValues ++ [v])
  end.

(** The result of the scan of [Search] over the entries of a leaf: the
    offset of the first entry with the key. *)
Fixpoint lookupEntry (key : Z) (es : list (Z * Z)) : Z * bool :=
  match es with
  | [] => (0, false)
  | (k, v) :: rest => if k =? key then (v, true) else lookupEntry key rest
  end.

(** The position loop of [insertIntoLeaf] on the decoded entries: the
    number of leading entries with a key smaller than [key]; and the
    entries with the new one at that position. *)
Fixpoint placeIndex (key : Z) (es : list (Z * Z)) : nat :=
  match es with
  | [] => O
  | (k, _) :: rest => if key >? k then S (placeIndex key rest) else O
  end.

Definition placeEntry (key value : Z) (es : list (Z * Z)) : list (Z * Z) :=
  insertAt (placeIndex key es) (key, value) es.

(** The tracked size covers the file. *)
Definition covers (p : Pager) : Prop :=
  Z.of_nat (length (content (file p))) <= fileSize p.

(** [t'] reads as [t] does, but for the page at offset [o], which reads
    as [old] in [t] and as [new] in [t']. *)
Definition sameBut (o : Z) (old new : Page) (t t' : BPlusTree) : Prop :=
  forall id,
    (wrap64 (id * PageSize) = o ->
     fst (treeRead t id) = (old, None) /\ fst (treeRead t' id) = (new, None))
    /\ (wrap64 (id * PageSize) <> o ->
        fst (treeRead t' id) = fst (treeRead t id)).

(** ** Well-formed trees

    The checks below are about the bytes [c] of the file and the tracked
    size [fs] only, so that they hold or fail together for two states
    that differ in the I/O trace. *)

Definition pageOf (c : list byte) (id : PageID) : Page :=
  loadBytes c (Z.to_nat (id * PageSize)) (Z.to_nat PageSize).

Definition readableb (c : list byte) (fs : Z) (id : PageID) : bool :=
  (0 <=? id) && (id <? 2 ^ 51 - 1) && (id * PageSize <? fs)
  && (id * PageSize + PageSize <=? Z.of_nat (length c)).

(** [lo <= k < hi], a missing bound being no bound. *)
Definition inRange (lo hi : option Z) (k : Z) : bool :=
  match lo with Some l => l <=? k | None => true end
  && match hi with Some h => k <? h | None => true end.

(** [lo < k < hi] *)
Definition inOpen (lo hi : option Z) (k : Z) : bool :=
  match lo with Some l => l <? k | None => true end
  && match hi with Some h => k <? h | None => true end.

Fixpoint increasing (ks : list Z) : bool :=
  match ks with
  | [] => true
  | k :: rest =>
      match rest with
      | [] => true
      | k' :: _ => (k <? k') && increasing rest
      end
  end.

(** The children [ps] of an internal page with the separators [ks], each
    checked against the interval the separators leave it: the child
    before a separator holds smaller keys, the child after it holds
    keys that are not smaller. *)
Fixpoint checkChildren (check : PageID -> option Z -> option Z -> bool)
    (lo : option Z) (ks : list Z) (ps : list PageID) (hi : option Z)
    {struct ps} : bool :=
  match ps with
  | [] => false
  | p :: ps' =>
      match ks with
      | [] => match ps' with [] => check p lo hi | _ :: _ => false end
      | k :: ks' =>
          inOpen lo hi k && check p lo (Some k)
          && checkChildren check (Some k) ks' ps' hi
      end
  end.

(** The subtree of height [h] under page [id] holds keys of [[lo, hi)]
    only: its pages can be read, the pages of the last level are leaves
    with strictly increasing keys and the others are internal pages with
    strictly increasing separators, and no key count reaches past the end
    of its page. *)
Fixpoint checkSub (h : nat) (c : list byte) (fs : Z) (id : PageID)
    (lo hi : option Z) : bool :=
  readableb c fs id
  && match h with
     | O =>
         isLeaf (pageOf c id)
         && (headerSize + getNumKeys (pageOf c id) * 16 <=? PageSize)
         && increasing (leafEntries (pageOf c id)).*1
         && forallb (inRange lo hi) (leafEntries (pageOf c id)).*1
     | S h' =>
         negb (isLeaf (pageOf c id))
         && (headerSize + 8 + getNumKeys (pageOf c id) * 16 <=? PageSize)
         && checkChildren (checkSub h' c fs) lo (internalKeys (pageOf c id))
                          (internalPointers (pageOf c id)) hi
     end.

(** The leaves of the subtree, from left to right, and their entries. *)
Fixpoint leavesSub (h : nat) (c : list byte) (id : PageID) : list PageID :=
  match h with
  | O => [id]
  | S h' => flat_map (leavesSub h' c) (internalPointers (pageOf c id))
  end.

Definition entriesOf (c : list byte) (ls : list PageID) : list (Z * Z) :=
  flat_map (fun l => leafEntries (pageOf c l)) ls.

(** Each leaf of the list names the next one as its next leaf, and the
    last one names none. *)
Fixpoint chained (c : list byte) (ls : list PageID) : bool :=
  match ls with
  | [] => true
  | l :: rest =>
      (getNextLeafPageID (pageOf c l)
       =? match rest with [] => -1 | l' :: _ => l' end)
      && chained c rest
  end.

(** The tree of height [h] under the root of [t] is well formed, also in
    its chain of leaves; the entries it holds. *)
Definition checkTree (h : nat) (t : BPlusTree) : bool :=
  checkSub h (content (file (pager t))) (fileSize (pager t)) (rootPageID t)
           None None
  && chained (content (file (pager t)))
             (leavesSub h (content (file (pager t))) (rootPageID t)).

Definition treeEntries (h : nat) (t : BPlusTree) : list (Z * Z) :=
  entriesOf (content (file (pager t)))
            (leavesSub h (content (file (pager t))) (rootPageID t)).

(** The choice of [findLeafPage] among the children: the number of
    leading separators that are not greater than [key]. *)
Fixpoint childIndex (key : Z) (ks : list Z) : nat :=
  match ks with
  | [] => O
  | k :: rest => if key <? k then O else S (childIndex key rest)
  end.

(** The scan of [SearchRange] over a run of entries: whether a key above
    [endKey] was met, and the results so far. *)
Fixpoint scanList (startKey endKey : Z) (es : list (Z * Z))
    (results : list Z) : bool * list Z :=
  match es with
  | [] => (false, results)
  | (k, v) :: rest =>
      if k >? endKey then (true, results)
      else if k >=? startKey then scanList startKey endKey rest (results ++ [v])
      else scanList startKey endKey rest results
  end.

(** The keys under a subtree are strictly increasing from left to right
    and lie in its interval. *)
Definition keysOk (lo hi : option Z) (es : list (Z * Z)) : Prop :=
  StronglySorted Z.lt es.*1 /\ Forall (fun k => inRange lo hi k = true) es.*1.

Definition leafOk (c : list byte) (fs : Z) (l : PageID) : Prop :=
  exists lo hi, checkSub 0 c fs l lo hi = true.

(** The bytes [c'] are the bytes [c] with the page [leaf] replaced by the
    image [page']. *)
Definition replaces (c c' : list byte) (fs : Z) (leaf : PageID)
    (page' : Page) : Prop :=
  length c' = length c
  /\ pageOf c' leaf = page'
  /\ (forall q, readableb c fs q = true -> q <> leaf ->
                pageOf c' q = pageOf c q).

(** The tree is its first root with the entries [es]: one leaf, page 0,
    without parent and without next leaf, in a file of one page, and the
    keys of the entries are strictly increasing. *)
Definition rootLeaf (t : BPlusTree) (es : list (Z * Z)) : Prop :=
  pager_wf (pager t)
  /\ rootPageID t = 0
  /\ numPages (pager t) = 1
  /\ isLeaf (pageAt t 0) = true
  /\ getParentPageID (pageAt t 0) = -1
  /\ getNextLeafPageID (pageAt t 0) = -1
  /\ leafEntries (pageAt t 0) = es
  /\ StronglySorted Z.lt es.*1.

(** ** Runs *)

Definition emptyFile : File := mkFile [] [].

(** Inserts in sequence, up to the first one that does not succeed. *)
Fixpoint insertAll (fuel : nat) (t : BPlusTree) (kvs : list (Z * Z))
  : outcome unit * BPlusTree :=
  match kvs with
  | [] => (Ok tt, t)
  | (k, v) :: rest =>
      match Insert fuel t k v with
      | (Ok _, t') => insertAll fuel t' rest
      | r => r
      end
  end.

(** A tree of the given degree on a new file, after the given inserts. *)
Definition build (fuel : nat) (degree : Z) (kvs : list (Z * Z))
  : option (outcome unit * BPlusTree) :=
  t ← NewBPlusTree (NewPager emptyFile) degree;
  Some (insertAll fuel t kvs).

Definition treeOf (r : option (outcome unit * BPlusTree)) : BPlusTree :=
  match r with
  | Some (_, t) => t
  | None => mkTree (NewPager emptyFile) 0 0
  end.

Definition succeeded (r : option (outcome unit * BPlusTree)) : bool :=
  match r with
  | Some (Ok _, _) => true
  | _ => false
  end.

(** The entries of the leaves from [leafPageID] on, following the
    sibling links. *)
Fixpoint leafChain (fuel : nat) (t : BPlusTree) (leafPageID : PageID)
  : option (list (Z * Z)) :=
  if leafPageID =? -1 then Some []
  else
    match fuel with
    | O => None
    | S fuel' =>
        match treeRead t leafPageID with
        | ((page, None), t') =>
            rest ← leafChain fuel' t' (getNextLeafPageID page);
            Some (leafEntries page ++ rest)
        | _ => None
        end
    end.

(** The offsets of the entries with a key in [[a, b]]. *)
Definition rangeOf (a b : Z) (es : list (Z * Z)) : list Z :=
  (List.filter (fun kv => (a <=? kv.1) && (kv.1 <=? b)) es).*2.

(** The keys stored in a page. *)
Definition pageKeys (page : Page) : list Z :=
  if isLeaf page then (leafEntries page).*1 else internalKeys page.

(** Degree 4: the keys 10, 20, 30, 40 split the first leaf and create the
    root; 5 then goes to the left leaf and fills it. *)
Definition tree5 : BPlusTree :=
  treeOf (build 8 4 [(10, 100); (20, 200); (30, 300); (40, 400); (5, 50)]).

(** The tree after the insert of 15, which splits the left leaf. *)
Definition tree6 : BPlusTree := snd (Insert 8 tree5 15 150).

(** Degree 4 after 10, 20, 30, 40: the root has moved to page 2. *)
Definition tree4 : BPlusTree :=
  treeOf (build 8 4 [(10, 100); (20, 200); (30, 300); (40, 400)]).

(** The same file, closed and opened again. *)
Definition reopened : BPlusTree :=
  default tree4 (NewBPlusTree (NewPager (snd (Close (pager tree4)))) 4).

(** The keys [1 .. n] in ascending order, each with ten times its value
    as offset. *)
Definition ascending (n : nat) : list (Z * Z) :=
  (fun i => (Z.of_nat i, Z.of_nat i * 10)) <$> seq 1 n.

(** Degree 4 after the keys 1 .. 7, and after the keys 1 .. 10. *)
Definition tree7 : BPlusTree := treeOf (build 8 4 (ascending 7)).
Definition tree10 : BPlusTree := treeOf (build 8 4 (ascending 10)).

(** Degree 4 after 10, 20, 30, 40, 50, 60, 5, 15, 70: the root, page 2,
    is full; and the tree after the insert of 80, which splits the last
    leaf and then the root. *)
Definition tree9 : BPlusTree :=
  treeOf (build 8 4 [(10, 100); (20, 200); (30, 300); (40, 400); (50, 500);
                     (60, 600); (5, 50); (15, 150); (70, 700)]).

Definition tree9split : BPlusTree := snd (Insert 8 tree9 80 800).

(** Degree 4 with one entry, and with a full first leaf. *)
Definition treeDup : BPlusTree := treeOf (build 8 4 [(5, 500)]).

Definition treeFull : BPlusTree :=
  treeOf (build 8 4 [(10, 100); (20, 200); (30, 300)]).

(** Degree 3 after 1, 2, 3, 4: three leaves (pages 0, 1, 3) under a full
    root (page 2); and the same tree within the insert of 5, after the
    split of the last leaf and before the call of [insertIntoParent]. *)
Definition tree3 : BPlusTree :=
  treeOf (build 8 3 [(1, 10); (2, 20); (3, 30); (4, 40)]).

Definition tree3split : BPlusTree :=
  snd (splitLeafStep tree3 3 (pageAt tree3 3) 5 50).

(** A file of 5000 bytes, and one of a single page. *)
Definition oddFile : File := mkFile (replicate 5000 Byte.x00) [].

Definition onePageFile : File :=
  mkFile (replicate (Z.to_nat PageSize) Byte.x00) [].

(** * Proofs *)

(** [lia] with the layout constants unfolded. *)
Ltac hlia :=
  unfold headerSize, PageSize, numKeysOffset, nextLeafPtrOffset,
    parentPtrOffset, nodeTypeOffset, isRootOffset in *; lia.

(** Evaluation of a closed statement. *)
Ltac conjs := repeat match goal with |- _ /\ _ => split end.
Ltac eval_prop :=
  vm_compute; conjs; first [reflexivity | intro; discriminate].

(** ** Machine integers *)

Lemma wrap64_id z : is_int64 z -> wrap64 z = z.
Proof. unfold is_int64, wrap64. intros H. rewrite Z.mod_small; lia. Qed.

Lemma wrap64_range z : is_int64 (wrap64 z).
Proof.
  unfold is_int64, wrap64.
  pose proof (Z.mod_pos_bound (z + 2 ^ 63) (2 ^ 64) ltac:(lia)). lia.
Qed.

Lemma wrap64_uint64 z : wrap64 (uint64 z) = wrap64 z.
Proof. unfold wrap64, uint64. rewrite Zplus_mod_idemp_l. reflexivity. Qed.

Lemma wrap64_congr a b : (a - b) mod 2 ^ 64 = 0 -> wrap64 a = wrap64 b.
Proof.
  intros H. unfold wrap64. f_equal.
  apply Z.mod_divide in H; [|lia]. destruct H as [q Hq].
  replace (a + 2 ^ 63) with (b + 2 ^ 63 + q * 2 ^ 64) by lia.
  apply Z_mod_plus_full.
Qed.

Lemma wrap64_page_multiple z :
  exists q, wrap64 (z * PageSize) = q * PageSize.
Proof.
  unfold wrap64, PageSize.
  exists ((z * 4096 + 2 ^ 63) mod 2 ^ 64 / 4096 - 2 ^ 51).
  assert (H : ((z * 4096 + 2 ^ 63) mod 2 ^ 64) mod 4096 = 0).
  { rewrite Z.mod_mod_divide by (exists (2 ^ 52); reflexivity).
    replace (z * 4096 + 2 ^ 63) with ((z + 2 ^ 51) * 4096) by lia.
    apply Z_mod_mult. }
  pose proof (Z_div_mod_eq_full ((z * 4096 + 2 ^ 63) mod 2 ^ 64) 4096). lia.
Qed.

Lemma quot_page_multiple q : Z.quot (q * PageSize) PageSize = q.
Proof. apply Z.quot_mul. unfold PageSize. lia. Qed.

(** ** The pager *)

Lemma NewPager_sizes_agree f :
  sizes_agree (NewPager f)
  <-> (Z.of_nat (length (content f))) mod PageSize = 0.
Proof.
  unfold sizes_agree, NewPager; cbn [fileSize numPages].
  set (n := Z.of_nat (length (content f))).
  assert (Hn : 0 <= n) by (subst n; lia).
  rewrite Z.quot_div_nonneg by (unfold PageSize; lia).
  pose proof (Z_div_mod_eq_full n PageSize) as E.
  unfold PageSize in *. lia.
Qed.

Lemma WritePage_sizes_agree p pageID pageData :
  sizes_agree p -> sizes_agree (snd (WritePage p pageID pageData)).
Proof.
  unfold sizes_agree, WritePage. intros H.
  unfold File_WriteAt.
  destruct (wrap64 (pageID * PageSize) <? 0); cbn; [exact H|].
  destruct (wrap64 (wrap64 (pageID * PageSize) + PageSize) >? fileSize p);
    cbn; [|exact H].
  destruct (wrap64_page_multiple pageID) as [q ->].
  replace (q * PageSize + PageSize) with ((q + 1) * PageSize) by lia.
  destruct (wrap64_page_multiple (q + 1)) as [q' ->].
  now rewrite quot_page_multiple.
Qed.

Lemma AllocatePage_sizes_agree64 p :
  sizes_agree64 p -> sizes_agree64 (snd (AllocatePage p)).
Proof.
  unfold sizes_agree64, AllocatePage; cbn. intros ->.
  apply wrap64_congr.
  unfold wrap64, PageSize.
  match goal with |- (?a mod _ - _ + _ - (?b mod _ - _) * _) mod _ = 0 =>
    pose proof (Z_div_mod_eq_full a (2 ^ 64));
    pose proof (Z_div_mod_eq_full b (2 ^ 64));
    replace (a mod 2 ^ 64) with (a - 2 ^ 64 * (a / 2 ^ 64)) by lia;
    replace (b mod 2 ^ 64) with (b - 2 ^ 64 * (b / 2 ^ 64)) by lia;
    set (qa := a / 2 ^ 64); set (qb := b / 2 ^ 64)
  end.
  match goal with |- ?e mod _ = 0 =>
    replace e with ((4096 * qb - qa) * 2 ^ 64) by lia end.
  apply Z_mod_mult.
Qed.

Lemma AllocatePage_sizes_agree p :
  sizes_agree p -> 0 <= numPages p < 2 ^ 51 - 1 ->
  sizes_agree (snd (AllocatePage p)).
Proof.
  unfold sizes_agree, AllocatePage; cbn. intros -> Hn.
  rewrite !wrap64_id; unfold is_int64, PageSize; lia.
Qed.

(** The pager of a new, empty file after [n] calls of [AllocatePage]. *)
Lemma allocations (n : nat) :
  Z.of_nat n < 2 ^ 51 ->
  Nat.iter n (fun p => snd (AllocatePage p)) (NewPager emptyFile)
  = mkPager emptyFile (Z.of_nat n * PageSize) (Z.of_nat n).
Proof.
  induction n as [|n IH]; intros H; [reflexivity|].
  rewrite Nat.iter_succ, IH by lia.
  unfold AllocatePage. cbn [snd file fileSize numPages].
  rewrite !wrap64_id by (unfold is_int64, PageSize; lia).
  f_equal; unfold PageSize; lia.
Qed.

(** C10, as amended.  The pager keeps [fileSize = numPages * PageSize]:
    it holds after [NewPager] exactly when the length of the opened file
    is a multiple of [PageSize]; every [WritePage], extending or not,
    keeps it; and [AllocatePage] keeps it when the page count is below
    [2 ^ 51 - 1], so that [fileSize + PageSize] stays within [int64]. *)
Theorem pager_sizes_invariant :
  (forall f, sizes_agree (NewPager f)
             <-> Z.of_nat (length (content f)) mod PageSize = 0)
  /\ (forall p pageID pageData,
        sizes_agree p -> sizes_agree (snd (WritePage p pageID pageData)))
  /\ (forall p, sizes_agree p -> 0 <= numPages p < 2 ^ 51 - 1 ->
                sizes_agree (snd (AllocatePage p))).
Proof.
  split; [exact NewPager_sizes_agree|].
  split; [exact WritePage_sizes_agree|exact AllocatePage_sizes_agree].
Qed.

Lemma ReadPage_error_kind p pageID pageData :
  readPastEnd (ReadPage p pageID pageData)
  <-> wrap64 (pageID * PageSize) >= fileSize p.
Proof.
  unfold readPastEnd, ReadPage.
  destruct (wrap64 (pageID * PageSize) >=? fileSize p) eqn:E.
  - cbn. split; [lia|eauto].
  - unfold File_ReadAt.
    split; [|lia]. intros (a & b & c & H). exfalso. revert H.
    repeat match goal with |- context [if ?c then _ else _] => destruct c end;
      cbn; discriminate.
Qed.

(** C9, as amended.  For a page id whose byte offset fits [int64],
    [ReadPage] fails with "read past end" exactly when
    [pageID * PageSize >= fileSize]; the call then returns the buffer as
    it was given and leaves the pager, and the trace of the file with it,
    untouched; and when [fileSize = numPages * PageSize] the condition is
    [pageID >= numPages]. *)
Theorem ReadPage_past_end p pageID pageData :
  0 <= pageID < 2 ^ 51 ->
  (readPastEnd (ReadPage p pageID pageData)
   <-> pageID * PageSize >= fileSize p)
  /\ (readPastEnd (ReadPage p pageID pageData) ->
      ReadPage p pageID pageData
      = ((pageData,
          Some (ErrReadPastEnd pageID (pageID * PageSize) (fileSize p))), p))
  /\ (sizes_agree p ->
      (readPastEnd (ReadPage p pageID pageData) <-> pageID >= numPages p)).
Proof.
  intros Hid.
  assert (Hw : wrap64 (pageID * PageSize) = pageID * PageSize)
    by (apply wrap64_id; unfold is_int64, PageSize; lia).
  pose proof (ReadPage_error_kind p pageID pageData) as K.
  rewrite Hw in K.
  split; [exact K|]. split.
  - intros H. apply K in H. unfold ReadPage. rewrite Hw.
    destruct (pageID * PageSize >=? fileSize p) eqn:E; [reflexivity|lia].
  - intros Ha. rewrite K, Ha. unfold PageSize. lia.
Qed.

(** ** Reads leave the disk alone *)

Lemma only_reads_refl t : only_reads t t.
Proof.
  unfold only_reads. repeat split; try reflexivity.
  exists []. split; [reflexivity|constructor].
Qed.

Lemma only_reads_trans t1 t2 t3 :
  only_reads t1 t2 -> only_reads t2 t3 -> only_reads t1 t3.
Proof.
  unfold only_reads.
  intros (A1 & A2 & A3 & A4 & A5 & e1 & A6 & A7)
         (B1 & B2 & B3 & B4 & B5 & e2 & B6 & B7).
  repeat split; try congruence.
  exists (e2 ++ e1). split.
  - rewrite B6, A6. now rewrite app_assoc.
  - now apply Forall_app.
Qed.

Lemma treeRead_only_reads t pageID r t' :
  treeRead t pageID = (r, t') -> only_reads t t'.
Proof.
  unfold treeRead, ReadPage, File_ReadAt.
  repeat match goal with
         | |- context [if ?c then _ else _] => destruct c
         end; cbn; intros [= <- <-];
    unfold only_reads; cbn; repeat split; try reflexivity;
    first [ exists []; split; [reflexivity|constructor]
          | eexists [_]; split; [reflexivity|repeat constructor] ].
Qed.

Lemma findLeafLoop_only_reads fuel :
  forall t key pageID r t',
    findLeafLoop fuel t key pageID = (r, t') -> only_reads t t'.
Proof.
  induction fuel as [|fuel IH]; intros t key pageID r t'; cbn.
  - intros [= <- <-]. apply only_reads_refl.
  - destruct (treeRead t pageID) as [[page err] t1] eqn:R.
    apply treeRead_only_reads in R.
    destruct err as [e|].
    + intros [= <- <-]. exact R.
    + destruct (isLeaf page).
      * intros [= <- <-]. exact R.
      * match goal with |- context [match ?m with Some _ => _ | None => _ end]
          => destruct m end.
        -- intros H. apply IH in H. eapply only_reads_trans; eauto.
        -- intros [= <- <-]. exact R.
Qed.

Lemma inBounds_below page off off' :
  inBounds page off 8 = true -> 0 <= off' <= off ->
  inBounds page off' 8 = true.
Proof. unfold inBounds. intros H Ho. lia. Qed.

Lemma readUint64_below page off off' u :
  readUint64 page off = Some u -> 0 <= off' <= off ->
  exists u', readUint64 page off' = Some u'.
Proof.
  unfold readUint64. destruct (inBounds page off 8) eqn:E; [|discriminate].
  intros _ Ho. rewrite (inBounds_below _ _ _ E Ho). eauto.
Qed.

Lemma hasKey_found page key u :
  forall n i0 i,
    0 <= i0 <= i -> i < i0 + Z.of_nat n ->
    readUint64 page (headerSize + i * 16) = Some u -> wrap64 u = key ->
    hasKey page key i0 n = Some true.
Proof.
  induction n as [|n IH]; intros i0 i Hi Hn Hr Hk; [lia|].
  cbn [hasKey].
  destruct (readUint64_below page _ (headerSize + i0 * 16) _ Hr) as [u' Hu'];
    [unfold headerSize; lia|].
  rewrite Hu'. cbn.
  destruct (wrap64 u' =? key) eqn:E; [reflexivity|].
  assert (i0 <> i) by (intros ->; rewrite Hr in Hu'; injection Hu' as <-; lia).
  apply (IH (i0 + 1) i); try lia; assumption.
Qed.

Lemma treeRead_after_reads t t' pageID :
  only_reads t t' -> fst (treeRead t' pageID) = fst (treeRead t pageID).
Proof.
  intros (C & F & _). unfold treeRead, ReadPage, File_ReadAt.
  rewrite C, F.
  repeat match goal with |- context [if ?c then _ else _] => destruct c end;
    reflexivity.
Qed.

Lemma findLeafLoop_reaches_leaf fuel :
  forall t key pageID leafPageID t1,
    findLeafLoop fuel t key pageID = (Ok leafPageID, t1) ->
    exists leafPage,
      fst (treeRead t1 leafPageID) = (leafPage, None)
      /\ isLeaf leafPage = true.
Proof.
  induction fuel as [|fuel IH]; intros t key pageID leafPageID t1; cbn;
    [discriminate|].
  destruct (treeRead t pageID) as [[page err] t2] eqn:R.
  destruct err as [e|]; [discriminate|].
  destruct (isLeaf page) eqn:L.
  - intros [= <- <-]. exists page. split; [|exact L].
    rewrite (treeRead_after_reads t t2 pageID), R; [reflexivity|].
    eapply treeRead_only_reads. exact R.
  - match goal with |- context [match ?m with Some _ => _ | None => _ end]
      => destruct m end; [|discriminate].
    apply IH.
Qed.

(** C6.  When the descent for [key] reaches a leaf that already holds
    [key], [Insert] returns the duplicate-key error for [key], and the
    tree it leaves differs from the one it was given by read calls only:
    file content, tracked size and page count, root and degree are the
    same, and the trace of the file grew by [ReadAt] events alone. *)
Theorem Insert_duplicate_rejected fuel t key value leafPageID t1 :
  findLeafPage fuel t key = (Ok leafPageID, t1) ->
  leafHolds (fst (fst (treeRead t1 leafPageID))) key ->
  Insert fuel t key value
  = (Err (ErrDuplicateKey key), snd (treeRead t1 leafPageID))
  /\ only_reads t (snd (treeRead t1 leafPageID)).
Proof.
  intros Hf (i & u & Hi & Hu & Hk).
  destruct (findLeafLoop_reaches_leaf _ _ _ _ _ _ Hf) as (leafPage & Hr & _).
  destruct (treeRead t1 leafPageID) as [[pg e] t2] eqn:R.
  cbn [fst snd] in *. injection Hr as -> ->. split.
  - unfold Insert. rewrite Hf, R.
    rewrite (hasKey_found leafPage key u (Z.to_nat (getNumKeys leafPage)) 0 i);
      auto; lia.
  - eapply only_reads_trans.
    + eapply findLeafLoop_only_reads. exact Hf.
    + eapply treeRead_only_reads. exact R.
Qed.

(** ** Loads and stores of bytes *)

Lemma length_loadBytes (p : Page) off n :
  (off + n <= length p)%nat -> length (loadBytes p off n) = n.
Proof. unfold loadBytes. intros H. rewrite length_take, length_drop. lia. Qed.

Lemma length_storeBytes (p : Page) off (bs : list byte) :
  (off + length bs <= length p)%nat ->
  length (storeBytes p off bs) = length p.
Proof.
  unfold storeBytes. intros H.
  rewrite !length_app, length_take, length_drop. lia.
Qed.

Lemma lookup_loadBytes (p : Page) off n i :
  loadBytes p off n !! i
  = if decide (i < n)%nat then p !! (off + i)%nat else None.
Proof.
  unfold loadBytes. case_decide.
  - rewrite lookup_take_lt by lia. apply lookup_drop.
  - apply lookup_take_ge. lia.
Qed.

Lemma lookup_storeBytes (p : Page) off (bs : list byte) i :
  (off + length bs <= length p)%nat ->
  storeBytes p off bs !! i
  = if decide (off <= i < off + length bs)%nat then bs !! (i - off)%nat
    else p !! i.
Proof.
  unfold storeBytes. intros H.
  assert (Hl : length (take off p) = off) by (rewrite length_take; lia).
  destruct (decide (i < off)%nat).
  - rewrite lookup_app_l by lia. rewrite lookup_take_lt by lia.
    case_decide; [lia|reflexivity].
  - rewrite lookup_app_r by lia. rewrite Hl.
    destruct (decide (i - off < length bs)%nat).
    + rewrite lookup_app_l by lia. case_decide; [reflexivity|lia].
    + rewrite lookup_app_r by lia. rewrite lookup_drop.
      case_decide; [lia|]. f_equal. lia.
Qed.

Lemma load_store_inside (p : Page) off (bs : list byte) o n :
  (off + length bs <= length p)%nat ->
  (off <= o)%nat -> (o + n <= off + length bs)%nat ->
  loadBytes (storeBytes p off bs) o n = loadBytes bs (o - off) n.
Proof.
  intros H Ho Hn. apply list_eq. intros i.
  rewrite !lookup_loadBytes. case_decide; [|reflexivity].
  rewrite lookup_storeBytes by assumption.
  case_decide; [|lia]. f_equal. lia.
Qed.

Lemma load_store_same (p : Page) off (bs : list byte) :
  (off + length bs <= length p)%nat ->
  loadBytes (storeBytes p off bs) off (length bs) = bs.
Proof.
  intros H. rewrite load_store_inside by lia.
  unfold loadBytes. rewrite Nat.sub_diag. cbn. apply take_ge. lia.
Qed.

Lemma load_store_disjoint (p : Page) off (bs : list byte) o n :
  (off + length bs <= length p)%nat ->
  (o + n <= off \/ off + length bs <= o)%nat ->
  loadBytes (storeBytes p off bs) o n = loadBytes p o n.
Proof.
  intros H Hd. apply list_eq. intros i.
  rewrite !lookup_loadBytes. case_decide; [|reflexivity].
  rewrite lookup_storeBytes by assumption.
  case_decide; [lia|reflexivity].
Qed.

Lemma store_store_adjacent (p : Page) off (a b : list byte) :
  (off + length a + length b <= length p)%nat ->
  storeBytes (storeBytes p off a) (off + length a) b
  = storeBytes p off (a ++ b).
Proof.
  intros H. apply list_eq. intros i.
  rewrite lookup_storeBytes by (rewrite length_storeBytes; lia).
  rewrite !lookup_storeBytes by (rewrite ?length_app; lia).
  rewrite length_app.
  repeat case_decide; try lia; try reflexivity.
  - rewrite lookup_app_r by lia. f_equal. lia.
  - rewrite lookup_app_l by lia. reflexivity.
Qed.

Lemma loadBytes_split (p : Page) off a b :
  loadBytes p off (a + b) = loadBytes p off a ++ loadBytes p (off + a) b.
Proof.
  unfold loadBytes. rewrite <- (drop_drop p b off a) || idtac.
  rewrite <- take_take_drop. f_equal. f_equal. rewrite drop_drop. reflexivity.
Qed.

(** ** Little-endian fields *)

Lemma length_putLE (p : list byte) off w v :
  (Z.to_nat off + w <= length p)%nat -> length (putLE p off w v) = length p.
Proof.
  intros H. unfold putLE. apply length_storeBytes.
  rewrite length_le_split. exact H.
Qed.

Lemma getLE_putLE_same (p : list byte) off w v :
  (Z.to_nat off + w <= length p)%nat ->
  getLE (putLE p off w v) off w = v mod 2 ^ (Z.of_nat w * 8).
Proof.
  intros H. unfold getLE, putLE.
  pose proof (load_store_same p (Z.to_nat off) (le_split w v)) as E.
  rewrite length_le_split in E. rewrite E by exact H.
  apply le_combine_split.
Qed.

Lemma getLE_storeBytes_disjoint (p : list byte) o (bs : list byte) off w :
  (o + length bs <= length p)%nat ->
  (Z.to_nat off + w <= o \/ o + length bs <= Z.to_nat off)%nat ->
  getLE (storeBytes p o bs) off w = getLE p off w.
Proof.
  intros H Hd. unfold getLE. now rewrite load_store_disjoint.
Qed.

Lemma getLE_putLE_disjoint (p : list byte) off w v off' w' :
  (Z.to_nat off + w <= length p)%nat ->
  (Z.to_nat off' + w' <= Z.to_nat off
   \/ Z.to_nat off + w <= Z.to_nat off')%nat ->
  getLE (putLE p off w v) off' w' = getLE p off' w'.
Proof.
  intros H Hd. unfold putLE. apply getLE_storeBytes_disjoint;
    rewrite length_le_split; assumption.
Qed.

Lemma wrap64_getUint64_put (p : list byte) off v :
  is_int64 v -> (Z.to_nat off + 8 <= length p)%nat ->
  wrap64 (getUint64 (putUint64 p off (uint64 v)) off) = v.
Proof.
  intros Hv H. unfold getUint64, putUint64.
  rewrite getLE_putLE_same by exact H.
  change (2 ^ (Z.of_nat 8 * 8)) with (2 ^ 64).
  unfold uint64. rewrite Z.mod_mod by lia.
  change (wrap64 (uint64 v) = v). rewrite wrap64_uint64.
  now apply wrap64_id.
Qed.

(** ** Loops over the payload *)

Lemma storeBytes_nil (p : list byte) off : storeBytes p off [] = p.
Proof.
  unfold storeBytes. cbn. rewrite Nat.add_0_r. apply take_drop.
Qed.

Lemma readUint64_in (page : list byte) off :
  0 <= off -> off + 8 <= Z.of_nat (length page) ->
  readUint64 page off = Some (getUint64 page off).
Proof.
  intros H1 H2. unfold readUint64, inBounds.
  destruct (0 <=? off) eqn:E1; [|lia].
  destruct (off + 8 <=? Z.of_nat (length page)) eqn:E2; [|lia]. reflexivity.
Qed.

Lemma writeUint64_in (page : list byte) off v :
  0 <= off -> off + 8 <= Z.of_nat (length page) ->
  writeUint64 page off v = Some (putUint64 page off v).
Proof.
  intros H1 H2. unfold writeUint64, inBounds.
  destruct (0 <=? off) eqn:E1; [|lia].
  destruct (off + 8 <=? Z.of_nat (length page)) eqn:E2; [|lia]. reflexivity.
Qed.

Lemma length_putUint64 (page : list byte) off v :
  0 <= off -> off + 8 <= Z.of_nat (length page) ->
  length (putUint64 page off v) = length page.
Proof. intros. apply length_putLE. lia. Qed.

Lemma length_encodePairs l : length (encodePairs l) = (16 * length l)%nat.
Proof.
  induction l as [|kv l IH]; [reflexivity|].
  cbn [encodePairs flat_map]. rewrite !length_app, !length_le_split.
  fold (encodePairs l). rewrite IH. cbn [length]. lia.
Qed.

Lemma mergeLeaf_mergeList (page : list byte) key value :
  forall n i ins tk tv,
    0 <= i ->
    headerSize + (i + Z.of_nat n) * 16 <= Z.of_nat (length page) ->
    mergeLeaf page key value i n ins tk tv
    = Some (mergeList key value (pairsAt page (headerSize + i * 16) n)
                      ins tk tv).
Proof.
  induction n as [|n IH]; intros i ins tk tv Hi Hb; [reflexivity|].
  cbn [mergeLeaf pairsAt mergeList].
  rewrite !readUint64_in by (unfold headerSize in *; lia). cbn.
  destruct (negb ins && (key <? wrap64 (getUint64 page (headerSize + i * 16))));
    rewrite IH by lia;
    (replace (headerSize + (i + 1) * 16) with (headerSize + i * 16 + 16)
      by lia); reflexivity.
Qed.

Lemma mergeList_inserted key value es :
  forall tk tv,
    mergeList key value es true tk tv = (true, tk ++ es.*1, tv ++ es.*2).
Proof.
  induction es as [|[k v] es IH]; intros tk tv; cbn.
  - now rewrite !app_nil_r.
  - rewrite IH. now rewrite <- !app_assoc.
Qed.

Lemma mergeList_fresh key value es :
  forall tk tv,
    (let '(inserted, ks, vs) := mergeList key value es false tk tv in
     if negb inserted then (ks ++ [key], vs ++ [value]) else (ks, vs))
    = (tk ++ (insertBefore key value es).*1,
       tv ++ (insertBefore key value es).*2).
Proof.
  induction es as [|[k v] es IH]; intros tk tv; cbn.
  - reflexivity.
  - destruct (key <? k); cbn.
    + rewrite mergeList_inserted. cbn. now rewrite <- !app_assoc.
    + specialize (IH (tk ++ [k]) (tv ++ [v])).
      destruct (mergeList key value es false (tk ++ [k]) (tv ++ [v]))
        as [[ins ks] vs].
      rewrite IH. now rewrite <- !app_assoc.
Qed.

Lemma writeLeafEntries_store l :
  forall (page : list byte) i,
    0 <= i ->
    headerSize + (i + Z.of_nat (length l)) * 16 <= Z.of_nat (length page) ->
    writeLeafEntries page i l.*1 l.*2
    = Some (storeBytes page (Z.to_nat (headerSize + i * 16)) (encodePairs l)).
Proof.
  induction l as [|[k v] l IH]; intros page i Hi Hb.
  - cbn. now rewrite storeBytes_nil.
  - cbn [fmap list_fmap fst snd writeLeafEntries length] in *.
    assert (L1 : length (putUint64 page (headerSize + i * 16) (uint64 k))
                 = length page) by (apply length_putUint64; hlia).
    assert (L2 : length (putUint64
                           (putUint64 page (headerSize + i * 16) (uint64 k))
                           (headerSize + i * 16 + 8) (uint64 v))
                 = length page)
      by (rewrite length_putUint64; [exact L1|hlia|rewrite L1; hlia]).
    rewrite writeUint64_in by hlia. cbn.
    rewrite writeUint64_in by (rewrite ?L1; hlia). cbn.
    rewrite IH by (rewrite ?L2; lia).
    f_equal. unfold putUint64, putLE in *.
    cbn [encodePairs flat_map fst snd]. fold (encodePairs l).
    replace (Z.to_nat (headerSize + (i + 1) * 16))
      with (Z.to_nat (headerSize + i * 16 + 8)
            + length (le_split 8 (uint64 v)))%nat
      by (rewrite length_le_split; hlia).
    rewrite store_store_adjacent
      by (rewrite L1, length_le_split, length_encodePairs; hlia).
    replace (Z.to_nat (headerSize + i * 16 + 8))
      with (Z.to_nat (headerSize + i * 16)
            + length (le_split 8 (uint64 k)))%nat
      by (rewrite length_le_split; hlia).
    rewrite store_store_adjacent
      by (rewrite length_app, !length_le_split, length_encodePairs; hlia).
    now rewrite <- app_assoc.
Qed.

Lemma writeInternalEntries_store l :
  forall (page : list byte) i,
    0 <= i ->
    headerSize + 8 + (i + Z.of_nat (length l)) * 16
      <= Z.of_nat (length page) ->
    writeInternalEntries page i l.*1 l.*2
    = Some (storeBytes page (Z.to_nat (headerSize + i * 16 + 8))
                       (encodePairs l)).
Proof.
  induction l as [|[k v] l IH]; intros page i Hi Hb.
  - cbn. now rewrite storeBytes_nil.
  - cbn [fmap list_fmap fst snd writeInternalEntries length] in *.
    assert (L1 : length (putUint64 page (headerSize + i * 16 + 8) (uint64 k))
                 = length page) by (apply length_putUint64; hlia).
    assert (L2 : length (putUint64
                           (putUint64 page (headerSize + i * 16 + 8)
                                      (uint64 k))
                           (headerSize + i * 16 + 8 + 8) (uint64 v))
                 = length page)
      by (rewrite length_putUint64; [exact L1|hlia|rewrite L1; hlia]).
    rewrite writeUint64_in by hlia. cbn.
    rewrite writeUint64_in by (rewrite ?L1; hlia). cbn.
    rewrite IH by (rewrite ?L2; lia).
    f_equal. unfold putUint64, putLE in *.
    cbn [encodePairs flat_map fst snd]. fold (encodePairs l).
    replace (Z.to_nat (headerSize + (i + 1) * 16 + 8))
      with (Z.to_nat (headerSize + i * 16 + 8 + 8)
            + length (le_split 8 (uint64 v)))%nat
      by (rewrite length_le_split; hlia).
    rewrite store_store_adjacent
      by (rewrite L1, length_le_split, length_encodePairs; hlia).
    replace (Z.to_nat (headerSize + i * 16 + 8 + 8))
      with (Z.to_nat (headerSize + i * 16 + 8)
            + length (le_split 8 (uint64 k)))%nat
      by (rewrite length_le_split; hlia).
    rewrite store_store_adjacent
      by (rewrite length_app, !length_le_split, length_encodePairs; hlia).
    now rewrite <- app_assoc.
Qed.

Lemma materialize_pairs (page : list byte) :
  forall n i tk tp,
    0 <= i ->
    headerSize + 8 + (i + Z.of_nat n) * 16 <= Z.of_nat (length page) ->
    materialize page i n tk tp
    = Some (tk ++ (pairsAt page (headerSize + i * 16 + 8) n).*1,
            tp ++ (pairsAt page (headerSize + i * 16 + 8) n).*2).
Proof.
  induction n as [|n IH]; intros i tk tp Hi Hb.
  - cbn. now rewrite !app_nil_r.
  - cbn [materialize pairsAt].
    rewrite !readUint64_in by hlia. cbn.
    rewrite IH by lia.
    replace (headerSize + (i + 1) * 16 + 8) with (headerSize + i * 16 + 8 + 16)
      by lia.
    now rewrite <- !app_assoc.
Qed.

Lemma wrap64_le_roundtrip k :
  is_int64 k -> wrap64 (le_combine (le_split 8 (uint64 k))) = k.
Proof.
  intros H. rewrite le_combine_split.
  change (2 ^ (Z.of_nat 8 * 8)) with (2 ^ 64).
  unfold uint64. rewrite Z.mod_mod by lia.
  change (wrap64 (uint64 k) = k). rewrite wrap64_uint64. now apply wrap64_id.
Qed.

Lemma loadBytes_full_length (p : list byte) off n :
  length (loadBytes p off n) = n -> (0 < n)%nat -> (off + n <= length p)%nat.
Proof.
  unfold loadBytes. rewrite length_take, length_drop. lia.
Qed.

Lemma pairsAt_encoded l :
  forall (page : list byte) off,
    0 <= off ->
    loadBytes page (Z.to_nat off) (16 * length l) = encodePairs l ->
    Forall (fun kv => is_int64 kv.1 /\ is_int64 kv.2) l ->
    pairsAt page off (length l) = l.
Proof.
  induction l as [|[k v] l IH]; intros page off Ho E F; [reflexivity|].
  cbn [length pairsAt].
  inversion F as [|? ? [Hk Hv] F']; subst. cbn [fst snd] in *.
  assert (Hlen : (Z.to_nat off + 16 * length ((k, v) :: l)
                  <= length page)%nat).
  { apply loadBytes_full_length; [|cbn [length]; lia].
    rewrite E, length_encodePairs. reflexivity. }
  cbn [length] in *.
  replace (16 * S (length l))%nat with (8 + (8 + 16 * length l))%nat in E
    by lia.
  rewrite !loadBytes_split in E. cbn [encodePairs flat_map fst snd] in E.
  fold (encodePairs l) in E. rewrite <- app_assoc in E.
  apply app_inj_1 in E as [E1 E];
    [|rewrite length_loadBytes, length_le_split; lia].
  apply app_inj_1 in E as [E2 E];
    [|rewrite length_loadBytes, length_le_split; lia].
  f_equal.
  - unfold getUint64, getLE. rewrite E1.
    replace (Z.to_nat (off + 8)) with (Z.to_nat off + 8)%nat by lia.
    rewrite E2. now rewrite !wrap64_le_roundtrip.
  - apply IH; [lia| |assumption].
    rewrite <- E. f_equal. lia.
Qed.

(** ** Pages on disk *)

Lemma length_pwrite (c : list byte) o (b : list byte) :
  length (pwrite c o b) = Nat.max (length c) (o + length b).
Proof.
  unfold pwrite. rewrite !length_app, length_take, length_replicate, length_drop.
  lia.
Qed.

Lemma lookup_pwrite (c : list byte) o (b : list byte) i :
  pwrite c o b !! i
  = if decide (i < o)%nat then
      (if decide (i < length c)%nat then c !! i else Some Byte.x00)
    else if decide (i < o + length b)%nat then b !! (i - o)%nat
         else c !! i.
Proof.
  unfold pwrite.
  destruct (decide (i < o)%nat) as [Hi|Hi].
  - destruct (decide (i < length c)%nat) as [Hc|Hc].
    + rewrite lookup_app_l by (rewrite length_take; lia).
      now rewrite lookup_take_lt.
    + rewrite lookup_app_r by (rewrite length_take; lia).
      rewrite lookup_app_l by (rewrite length_take, length_replicate; lia).
      apply lookup_replicate_2. rewrite length_take. lia.
  - rewrite app_assoc.
    assert (L : length (take o c ++ replicate (o - length c) Byte.x00) = o)
      by (rewrite length_app, length_take, length_replicate; lia).
    rewrite lookup_app_r by lia. rewrite L.
    destruct (decide (i < o + length b)%nat).
    + rewrite lookup_app_l by lia. reflexivity.
    + rewrite lookup_app_r by lia. rewrite lookup_drop. f_equal. lia.
Qed.

Lemma load_pwrite_same (c : list byte) o (b : list byte) :
  loadBytes (pwrite c o b) o (length b) = b.
Proof.
  apply list_eq. intros i. rewrite lookup_loadBytes.
  case_decide.
  - rewrite lookup_pwrite. repeat case_decide; try lia. f_equal. lia.
  - symmetry. apply lookup_ge_None. lia.
Qed.

Lemma load_pwrite_other (c : list byte) o (b : list byte) o' n :
  (o' + n <= o \/ o + length b <= o')%nat -> (o' + n <= length c)%nat ->
  loadBytes (pwrite c o b) o' n = loadBytes c o' n.
Proof.
  intros Hd Hc. apply list_eq. intros i. rewrite !lookup_loadBytes.
  case_decide; [|reflexivity].
  rewrite lookup_pwrite. repeat case_decide; try lia; reflexivity.
Qed.

Lemma length_new_Page : length new_Page = Z.to_nat PageSize.
Proof. unfold new_Page. apply length_replicate. Qed.

Lemma length_pageAt t pageID :
  readable t pageID -> length (pageAt t pageID) = Z.to_nat PageSize.
Proof.
  intros (H1 & H2 & H3). unfold pageAt. apply length_loadBytes. hlia.
Qed.

Lemma page_offset pageID :
  0 <= pageID < 2 ^ 51 - 1 -> wrap64 (pageID * PageSize) = pageID * PageSize.
Proof. intros H. apply wrap64_id. unfold is_int64, PageSize. lia. Qed.

Lemma treeRead_readable t pageID :
  readable t pageID ->
  treeRead t pageID
  = ((pageAt t pageID, None),
     mkTree (mkPager (mkFile (content (file (pager t)))
                             (EvReadAt (pageID * PageSize)
                                :: trace (file (pager t))))
                     (fileSize (pager t)) (numPages (pager t)))
            (rootPageID t) (degree t)).
Proof.
  intros H. pose proof H as (H1 & H2 & H3). unfold treeRead, ReadPage.
  rewrite page_offset by assumption.
  destruct (pageID * PageSize >=? fileSize (pager t)) eqn:E; [lia|].
  unfold File_ReadAt.
  destruct (pageID * PageSize <? 0) eqn:E0; [hlia|].
  rewrite length_new_Page.
  fold (loadBytes (content (file (pager t))) (Z.to_nat (pageID * PageSize))
                  (Z.to_nat PageSize)).
  fold (pageAt t pageID).
  rewrite (length_pageAt t pageID) by exact H.
  rewrite Nat.ltb_irrefl.
  rewrite drop_ge by (rewrite length_new_Page; lia).
  now rewrite app_nil_r.
Qed.

Lemma readable_onDisk t pageID :
  readable t pageID -> onDisk t pageID (pageAt t pageID).
Proof. intros H. eexists. apply treeRead_readable. exact H. Qed.

Lemma treeWrite_ok t pageID (page : list byte) :
  0 <= pageID < 2 ^ 51 - 1 ->
  exists t',
    treeWrite t pageID page = (None, t')
    /\ content (file (pager t'))
       = pwrite (content (file (pager t))) (Z.to_nat (pageID * PageSize)) page
    /\ fileSize (pager t')
       = Z.max (fileSize (pager t)) (pageID * PageSize + PageSize)
    /\ numPages (pager t')
       = (if pageID * PageSize + PageSize >? fileSize (pager t)
          then pageID + 1 else numPages (pager t))
    /\ rootPageID t' = rootPageID t
    /\ degree t' = degree t.
Proof.
  intros H. unfold treeWrite, WritePage, File_WriteAt.
  rewrite page_offset by assumption.
  destruct (pageID * PageSize <? 0) eqn:E0; [hlia|].
  rewrite wrap64_id by (unfold is_int64; hlia).
  destruct (pageID * PageSize + PageSize >? fileSize (pager t)) eqn:E;
    cbn; eexists; (split; [reflexivity|]); cbn; repeat split; try lia.
  replace (pageID * PageSize + PageSize) with ((pageID + 1) * PageSize) by lia.
  apply quot_page_multiple.
Qed.

Lemma treeWrite_same t pageID (page : list byte) t' :
  0 <= pageID < 2 ^ 51 - 1 -> length page = Z.to_nat PageSize ->
  treeWrite t pageID page = (None, t') ->
  readable t' pageID /\ pageAt t' pageID = page.
Proof.
  intros H L W. destruct (treeWrite_ok t pageID page H)
    as (t'' & W' & C & F & _). rewrite W in W'. injection W' as <-.
  split.
  - repeat split; try lia.
    + rewrite F. hlia.
    + rewrite C, length_pwrite, L. hlia.
  - unfold pageAt. rewrite C, <- L. apply load_pwrite_same.
Qed.

Lemma treeWrite_other t pageID (page : list byte) t' q :
  0 <= pageID < 2 ^ 51 - 1 -> length page = Z.to_nat PageSize ->
  treeWrite t pageID page = (None, t') ->
  readable t q -> q <> pageID ->
  readable t' q /\ pageAt t' q = pageAt t q.
Proof.
  intros H L W (Q1 & Q2 & Q3) Hne. destruct (treeWrite_ok t pageID page H)
    as (t'' & W' & C & F & _). rewrite W in W'. injection W' as <-.
  split.
  - repeat split; try lia.
    rewrite C, length_pwrite. lia.
  - unfold pageAt. rewrite C. apply load_pwrite_other; rewrite ?L; hlia.
Qed.

Lemma only_reads_readable t t' q :
  only_reads t t' -> readable t q -> readable t' q /\ pageAt t' q = pageAt t q.
Proof.
  intros (C & F & _) (Q1 & Q2 & Q3). unfold readable, pageAt.
  rewrite C, F. auto.
Qed.

Lemma treeAllocate_spec t :
  pager_wf (pager t) ->
  exists t',
    treeAllocate t = (numPages (pager t), t')
    /\ content (file (pager t')) = content (file (pager t))
    /\ fileSize (pager t') = fileSize (pager t) + PageSize
    /\ numPages (pager t') = numPages (pager t) + 1
    /\ rootPageID t' = rootPageID t
    /\ degree t' = degree t.
Proof.
  intros (A & L & B). unfold sizes_agree in A.
  unfold treeAllocate, AllocatePage. cbn. eexists. split; [reflexivity|].
  cbn. repeat split; apply wrap64_id; unfold is_int64; hlia.
Qed.

Lemma pager_wf_readable t q :
  pager_wf (pager t) -> 0 <= q < numPages (pager t) -> readable t q.
Proof.
  intros (A & L & B) Hq. unfold sizes_agree in A. unfold readable.
  rewrite L, A. hlia.
Qed.

(** ** Page images *)

Lemma length_pairsAt (page : list byte) : forall n off,
  length (pairsAt page off n) = n.
Proof. induction n; intros off; cbn; [reflexivity|now rewrite IHn]. Qed.

Lemma pairsAt_int64 (page : list byte) : forall n off,
  Forall pair_int64 (pairsAt page off n).
Proof.
  induction n; intros off; cbn; constructor; [|apply IHn].
  split; apply wrap64_range.
Qed.

Lemma length_insertBefore key value es :
  length (insertBefore key value es) = S (length es).
Proof.
  induction es as [|[k v] es IH]; cbn; [reflexivity|].
  destruct (key <? k); cbn; [reflexivity|now rewrite IH].
Qed.

Lemma insertBefore_int64 key value es :
  is_int64 key -> is_int64 value -> Forall pair_int64 es ->
  Forall pair_int64 (insertBefore key value es).
Proof.
  intros Hk Hv. induction 1 as [|[k v] es H F IH]; cbn.
  - constructor; [split; assumption|constructor].
  - destruct (key <? k).
    + constructor; [split; assumption|]. constructor; assumption.
    + constructor; assumption.
Qed.

(** The image of a leaf built by a split: the key count, then the
    entries, then the sibling link. *)
Lemma leaf_image (Q : list byte) l nx :
  length Q = Z.to_nat PageSize ->
  headerSize + Z.of_nat (length l) * 16 <= PageSize ->
  Forall pair_int64 l -> is_int64 nx ->
  let P := setNextLeafPageID
             (storeBytes (setNumKeys Q (uint16 (Z.of_nat (length l))))
                         (Z.to_nat headerSize) (encodePairs l)) nx in
  length P = Z.to_nat PageSize
  /\ getNumKeys P = Z.of_nat (length l)
  /\ leafEntries P = l
  /\ getNextLeafPageID P = nx
  /\ getParentPageID P = getParentPageID Q
  /\ isLeaf P = isLeaf Q.
Proof.
  intros LQ Hfit Hl Hnx.
  set (n := Z.of_nat (length l)) in *.
  set (Q1 := setNumKeys Q (uint16 n)).
  set (Q2 := storeBytes Q1 (Z.to_nat headerSize) (encodePairs l)).
  intros P.
  assert (L1 : length Q1 = Z.to_nat PageSize)
    by (unfold Q1, setNumKeys; rewrite length_putLE; [exact LQ|hlia]).
  assert (L2 : length Q2 = Z.to_nat PageSize)
    by (unfold Q2; rewrite length_storeBytes;
        [exact L1|rewrite length_encodePairs; hlia]).
  assert (LP : length P = Z.to_nat PageSize)
    by (unfold P, setNextLeafPageID; rewrite length_putUint64;
        [exact L2|hlia|hlia]).
  assert (HN : getNumKeys P = n).
  { unfold P, setNextLeafPageID, getNumKeys, putUint64.
    rewrite getLE_putLE_disjoint by hlia.
    unfold Q2. rewrite getLE_storeBytes_disjoint
      by (rewrite ?length_encodePairs; hlia).
    unfold Q1, setNumKeys. rewrite getLE_putLE_same by hlia.
    change (2 ^ (Z.of_nat 2 * 8)) with (2 ^ 16).
    unfold uint16. rewrite Z.mod_mod by lia.
    apply Z.mod_small. subst n. hlia. }
  split; [exact LP|]. split; [exact HN|]. split; [|split; [|split]].
  - unfold leafEntries. rewrite HN. subst n. rewrite Nat2Z.id.
    apply pairsAt_encoded; [hlia| |exact Hl].
    unfold P, setNextLeafPageID, putUint64, putLE.
    rewrite load_store_disjoint by (rewrite ?length_le_split; hlia).
    unfold Q2. rewrite <- length_encodePairs.
    apply load_store_same. rewrite length_encodePairs. hlia.
  - unfold P, setNextLeafPageID, getNextLeafPageID.
    apply wrap64_getUint64_put; [exact Hnx|hlia].
  - unfold P, setNextLeafPageID, getParentPageID, getUint64, putUint64.
    rewrite getLE_putLE_disjoint by hlia.
    unfold Q2. rewrite getLE_storeBytes_disjoint
      by (rewrite ?length_encodePairs; hlia).
    unfold Q1, setNumKeys. now rewrite getLE_putLE_disjoint by hlia.
  - unfold isLeaf, getByte. f_equal.
    unfold P, setNextLeafPageID, putUint64.
    rewrite getLE_putLE_disjoint by hlia.
    unfold Q2. rewrite getLE_storeBytes_disjoint
      by (rewrite ?length_encodePairs; hlia).
    unfold Q1, setNumKeys. now rewrite getLE_putLE_disjoint by hlia.
Qed.

Lemma length_clearFrom (p : list byte) off :
  0 <= off <= Z.of_nat (length p) -> length (clearFrom p off) = length p.
Proof.
  intros H. unfold clearFrom. apply length_storeBytes.
  rewrite length_replicate. lia.
Qed.

Lemma getLE_clearFrom (p : list byte) off o w :
  0 <= off <= Z.of_nat (length p) -> (Z.to_nat o + w <= Z.to_nat off)%nat ->
  getLE (clearFrom p off) o w = getLE p o w.
Proof.
  intros H Ho. unfold clearFrom. apply getLE_storeBytes_disjoint;
    rewrite ?length_replicate; lia.
Qed.

Lemma splitLeaf_spec D (oldPage : list byte) newPageID key value :
  length oldPage = Z.to_nat PageSize -> 3 <= D ->
  getNumKeys oldPage = D - 1 -> fitsLeaf oldPage ->
  is_int64 key -> is_int64 value -> is_int64 newPageID ->
  let temp := insertBefore key value (leafEntries oldPage) in
  let sp := Z.to_nat (Z.quot D 2) in
  exists oldPage' newPage' k,
    splitLeaf D oldPage newPageID key value = Some (oldPage', newPage', k)
    /\ length oldPage' = Z.to_nat PageSize
    /\ length newPage' = Z.to_nat PageSize
    /\ leafEntries oldPage' = take sp temp
    /\ leafEntries newPage' = drop sp temp
    /\ head (drop sp temp).*1 = Some k
    /\ getNextLeafPageID newPage' = getNextLeafPageID oldPage
    /\ getNextLeafPageID oldPage' = newPageID
    /\ getParentPageID oldPage' = getParentPageID oldPage
    /\ getParentPageID newPage' = getParentPageID oldPage
    /\ isLeaf oldPage' = isLeaf oldPage
    /\ isLeaf newPage' = true.
Proof.
  intros L HD HN Hfit Hk Hv Hid temp sp.
  unfold fitsLeaf in Hfit. rewrite L in Hfit.
  assert (Ltemp : length temp = Z.to_nat D).
  { unfold temp. rewrite length_insertBefore. unfold leafEntries.
    rewrite length_pairsAt, HN. lia. }
  assert (Hq : 1 <= Z.quot D 2 < D)
    by (rewrite Z.quot_div_nonneg by lia; Z.div_mod_to_equations; lia).
  assert (Hsp : (0 < sp < length temp)%nat) by (rewrite Ltemp; lia).
  assert (Ftemp : Forall pair_int64 temp)
    by (apply insertBefore_int64; auto; apply pairsAt_int64).
  unfold splitLeaf.
  rewrite mergeLeaf_mergeList by (rewrite ?L; hlia).
  replace (headerSize + 0 * 16) with headerSize by lia.
  fold (leafEntries oldPage).
  pose proof (mergeList_fresh key value (leafEntries oldPage) [] []) as M.
  destruct (mergeList key value (leafEntries oldPage) false [] [])
    as [[ins ks] vs].
  cbn [mbind option_bind]. rewrite M. cbn [app].
  fold temp. fold sp. clear M ins ks vs.
  rewrite <- !fmap_take, <- !fmap_drop, !length_fmap.
  set (left := take sp temp). set (right := drop sp temp).
  assert (Lleft : length left = sp) by (unfold left; rewrite length_take; lia).
  assert (Lright : (length left + length right = length temp)%nat)
    by (unfold left, right; rewrite length_take, length_drop; lia).
  assert (Fl : Forall pair_int64 left) by (apply Forall_take; exact Ftemp).
  assert (Fr : Forall pair_int64 right) by (apply Forall_drop; exact Ftemp).
  destruct right as [|[k v] rest] eqn:Er; [cbn in Lright; lia|].
  rewrite <- Er in *. replace (head right.*1) with (Some k) by now rewrite Er.
  cbn [mbind option_bind].
  set (Q := clearFrom oldPage headerSize).
  assert (LQ : length Q = Z.to_nat PageSize)
    by (unfold Q; rewrite length_clearFrom; [exact L|rewrite L; hlia]).
  set (N := setParentPageID (setByte new_Page nodeTypeOffset NodeTypeLeaf)
                            (getParentPageID oldPage)).
  assert (LN0 : length (setByte new_Page nodeTypeOffset NodeTypeLeaf)
                = Z.to_nat PageSize)
    by (unfold setByte; rewrite length_putLE;
        [apply length_new_Page|rewrite length_new_Page; hlia]).
  assert (LN : length N = Z.to_nat PageSize)
    by (unfold N, setParentPageID; rewrite length_putUint64;
        [exact LN0|hlia|rewrite LN0; hlia]).
  assert (LQ1 : forall n, length (setNumKeys Q n) = Z.to_nat PageSize)
    by (intros n; unfold setNumKeys; rewrite length_putLE;
        [exact LQ|rewrite LQ; hlia]).
  assert (LN1 : forall n, length (setNumKeys N n) = Z.to_nat PageSize)
    by (intros n; unfold setNumKeys; rewrite length_putLE;
        [exact LN|rewrite LN; hlia]).
  rewrite !writeLeafEntries_store by (rewrite ?LQ1, ?LN1; hlia).
  cbn [mbind option_bind].
  replace (headerSize + 0 * 16) with headerSize by lia.
  destruct (leaf_image Q left newPageID) as (A1 & A2 & A3 & A4 & A5 & A6);
    [exact LQ|hlia|exact Fl|exact Hid|].
  set (O' := storeBytes (setNumKeys Q (uint16 (Z.of_nat (length left))))
                        (Z.to_nat headerSize) (encodePairs left)) in *.
  destruct (leaf_image N right (getNextLeafPageID O'))
    as (B1 & B2 & B3 & B4 & B5 & B6);
    [exact LN|hlia|exact Fr|apply wrap64_range|].
  assert (NX : getNextLeafPageID O' = getNextLeafPageID oldPage).
  { unfold O', getNextLeafPageID, getUint64. f_equal.
    rewrite getLE_storeBytes_disjoint
      by (rewrite ?LQ1, ?length_encodePairs; hlia).
    unfold setNumKeys. rewrite getLE_putLE_disjoint by (rewrite ?LQ; hlia).
    unfold Q. apply getLE_clearFrom; rewrite ?L; hlia. }
  assert (PQ : getParentPageID Q = getParentPageID oldPage).
  { unfold Q, getParentPageID, getUint64. f_equal.
    apply getLE_clearFrom; rewrite ?L; hlia. }
  assert (IQ : isLeaf Q = isLeaf oldPage).
  { unfold Q, isLeaf, getByte. f_equal.
    apply getLE_clearFrom; rewrite ?L; hlia. }
  assert (PN : getParentPageID N = getParentPageID oldPage).
  { unfold N, setParentPageID, getParentPageID.
    apply wrap64_getUint64_put; [apply wrap64_range|rewrite LN0; hlia]. }
  assert (IN : isLeaf N = true).
  { unfold N, isLeaf, getByte, setParentPageID, putUint64.
    rewrite getLE_putLE_disjoint by (rewrite ?LN0; hlia).
    unfold setByte. rewrite getLE_putLE_same
      by (rewrite length_new_Page; hlia).
    reflexivity. }
  do 3 eexists. split; [reflexivity|].
  rewrite A3, A4, A5, A6, B3, B4, B5, B6, NX, PQ, IQ, PN, IN.
  repeat split; auto.
Qed.

Lemma insertBefore_perm key value es :
  insertBefore key value es ≡ₚ (key, value) :: es.
Proof.
  induction es as [|[k v] es IH]; cbn; [reflexivity|].
  destruct (key <? k); [reflexivity|].
  rewrite IH. apply Permutation_swap.
Qed.

Lemma insertBefore_sorted key value es :
  StronglySorted Z.lt es.*1 -> key ∉ es.*1 ->
  StronglySorted Z.lt (insertBefore key value es).*1.
Proof.
  induction es as [|[k v] es IH]; cbn; intros S Hn.
  - repeat constructor.
  - inversion S as [|? ? S' F]; subst.
    destruct (key <? k) eqn:E; cbn.
    + constructor; [exact S|]. constructor; [lia|].
      eapply Forall_impl; [exact F|]. cbn. intros; lia.
    + assert (key <> k) by (intros ->; apply Hn; left).
      constructor.
      * apply IH; [exact S'|]. intros Hin. apply Hn. now right.
      * rewrite (insertBefore_perm key value es). cbn.
        constructor; [lia|exact F].
Qed.

(** C5.  The split of a leaf that holds [D - 1] entries, [D] the degree,
    on the insert of [(key, value)].  The [D] entries, the new one placed
    before the first greater key, are a permutation of the old entries and
    the new one, and are increasing when the old keys are and [key] is not
    among them.  The page written back under [oldPageID] keeps the first
    [D / 2] of them, the page written under the newly allocated id
    [numPages] holds the other [D - D / 2]; the key passed on to
    [insertIntoParent] is the first key of the new page, which keeps it;
    the new page links to the former successor of the old page, and the old
    page links to the new one. *)
Theorem leaf_split t oldPageID (oldPage : list byte) key value :
  pager_wf (pager t) ->
  0 <= oldPageID < numPages (pager t) ->
  page_ok oldPage ->
  3 <= degree t ->
  getNumKeys oldPage = degree t - 1 ->
  fitsLeaf oldPage ->
  is_int64 key -> is_int64 value ->
  let D := degree t in
  let temp := insertBefore key value (leafEntries oldPage) in
  let newPageID := numPages (pager t) in
  exists keyToPromote t' oldPage' newPage',
    splitLeafStep t oldPageID oldPage key value
    = (Ok (getParentPageID oldPage, oldPageID, keyToPromote, newPageID), t')
    /\ onDisk t' oldPageID oldPage'
    /\ onDisk t' newPageID newPage'
    /\ temp ≡ₚ (key, value) :: leafEntries oldPage
    /\ (StronglySorted Z.lt (leafEntries oldPage).*1 ->
        key ∉ (leafEntries oldPage).*1 -> StronglySorted Z.lt temp.*1)
    /\ length temp = Z.to_nat D
    /\ leafEntries oldPage' = take (Z.to_nat (D / 2)) temp
    /\ leafEntries newPage' = drop (Z.to_nat (D / 2)) temp
    /\ length (leafEntries oldPage') = Z.to_nat (D / 2)
    /\ length (leafEntries newPage') = Z.to_nat (D - D / 2)
    /\ head (leafEntries newPage').*1 = Some keyToPromote
    /\ getNextLeafPageID newPage' = getNextLeafPageID oldPage
    /\ getNextLeafPageID oldPage' = newPageID.
Proof.
  intros W Hold L HD HN Hfit Hk Hv D temp newPageID.
  destruct (treeAllocate_spec t W) as (t1 & A & C1 & F1 & N1 & R1 & D1).
  pose proof W as (Wa & Wl & Wb).
  assert (Hid : is_int64 newPageID) by (unfold is_int64, newPageID; lia).
  destruct (splitLeaf_spec D oldPage newPageID key value L HD HN Hfit Hk Hv Hid)
    as (oldPage' & newPage' & k & S & Lo & Ln & Eo & En & Hh & Nn & No
        & Po & Pn & _).
  assert (Hq : 1 <= Z.quot D 2 < D /\ Z.quot D 2 = D / 2).
  { rewrite Z.quot_div_nonneg by lia. split; [|reflexivity].
    Z.div_mod_to_equations; lia. }
  destruct Hq as [Hq Hqd]. rewrite Hqd in *.
  destruct (treeWrite_ok t1 oldPageID oldPage' ltac:(lia))
    as (t2 & W2 & _).
  destruct (treeWrite_ok t2 newPageID newPage' ltac:(unfold newPageID; lia))
    as (t3 & W3 & _).
  assert (B1 : 0 <= oldPageID < 2 ^ 51 - 1) by lia.
  assert (B2 : 0 <= newPageID < 2 ^ 51 - 1) by (unfold newPageID; lia).
  assert (B3 : oldPageID <> newPageID) by (unfold newPageID; lia).
  destruct (treeWrite_same t1 oldPageID oldPage' t2 B1 Lo W2) as [Ro2 Po2].
  destruct (treeWrite_other t2 newPageID newPage' t3 oldPageID B2 Ln W3 Ro2 B3)
    as [Ro3 Po3].
  destruct (treeWrite_same t2 newPageID newPage' t3 B2 Ln W3) as [Rn3 Pn3].
  assert (Ltemp : length temp = Z.to_nat D).
  { unfold temp. rewrite length_insertBefore. unfold leafEntries.
    rewrite length_pairsAt, HN. unfold D. lia. }
  exists k, t3, oldPage', newPage'.
  split.
  { unfold splitLeafStep. rewrite A. rewrite D1. fold D. fold newPageID.
    rewrite S, W2, W3. rewrite Po. reflexivity. }
  split; [rewrite <- Po2, <- Po3; apply readable_onDisk; exact Ro3|].
  split; [rewrite <- Pn3; apply readable_onDisk; exact Rn3|].
  split; [apply insertBefore_perm|].
  split; [apply insertBefore_sorted|].
  split; [exact Ltemp|].
  rewrite Eo, En. fold temp.
  rewrite length_take, length_drop, Ltemp.
  repeat split; auto; lia.
Qed.

(** The image of an internal page built by a split: the key count, the
    first pointer, then the (key, pointer) pairs. *)
Lemma internal_image (Q : list byte) p0 l :
  length Q = Z.to_nat PageSize ->
  headerSize + 8 + Z.of_nat (length l) * 16 <= PageSize ->
  Forall pair_int64 l -> is_int64 p0 ->
  let P := storeBytes
             (putUint64 (setNumKeys Q (uint16 (Z.of_nat (length l))))
                        headerSize (uint64 p0))
             (Z.to_nat (headerSize + 8)) (encodePairs l) in
  length P = Z.to_nat PageSize
  /\ getNumKeys P = Z.of_nat (length l)
  /\ internalKeys P = l.*1
  /\ internalPointers P = p0 :: l.*2
  /\ getParentPageID P = getParentPageID Q
  /\ isLeaf P = isLeaf Q.
Proof.
  intros LQ Hfit Hl Hp0.
  set (n := Z.of_nat (length l)) in *.
  set (Q1 := setNumKeys Q (uint16 n)).
  set (Q2 := putUint64 Q1 headerSize (uint64 p0)).
  intros P.
  assert (L1 : length Q1 = Z.to_nat PageSize)
    by (unfold Q1, setNumKeys; rewrite length_putLE; [exact LQ|hlia]).
  assert (L2 : length Q2 = Z.to_nat PageSize)
    by (unfold Q2; rewrite length_putUint64; [exact L1|hlia|hlia]).
  assert (LP : length P = Z.to_nat PageSize)
    by (unfold P; rewrite length_storeBytes;
        [exact L2|rewrite length_encodePairs; hlia]).
  assert (HN : getNumKeys P = n).
  { unfold P, getNumKeys.
    rewrite getLE_storeBytes_disjoint by (rewrite ?length_encodePairs; hlia).
    unfold Q2, putUint64. rewrite getLE_putLE_disjoint by hlia.
    unfold Q1, setNumKeys. rewrite getLE_putLE_same by hlia.
    change (2 ^ (Z.of_nat 2 * 8)) with (2 ^ 16).
    unfold uint16. rewrite Z.mod_mod by lia.
    apply Z.mod_small. subst n. hlia. }
  assert (HP : internalPairs P = l).
  { unfold internalPairs. rewrite HN. subst n. rewrite Nat2Z.id.
    apply pairsAt_encoded; [hlia| |exact Hl].
    unfold P. rewrite <- length_encodePairs.
    apply load_store_same. rewrite length_encodePairs. hlia. }
  split; [exact LP|]. split; [exact HN|].
  split; [unfold internalKeys; now rewrite HP|].
  split; [|split].
  - unfold internalPointers. rewrite HP. f_equal.
    unfold P, getUint64.
    rewrite getLE_storeBytes_disjoint by (rewrite ?length_encodePairs; hlia).
    unfold Q2. apply wrap64_getUint64_put; [exact Hp0|hlia].
  - unfold P, getParentPageID, getUint64.
    rewrite getLE_storeBytes_disjoint by (rewrite ?length_encodePairs; hlia).
    unfold Q2, putUint64. rewrite getLE_putLE_disjoint by hlia.
    unfold Q1, setNumKeys. now rewrite getLE_putLE_disjoint by hlia.
  - unfold isLeaf, getByte. f_equal. unfold P.
    rewrite getLE_storeBytes_disjoint by (rewrite ?length_encodePairs; hlia).
    unfold Q2, putUint64. rewrite getLE_putLE_disjoint by hlia.
    unfold Q1, setNumKeys. now rewrite getLE_putLE_disjoint by hlia.
Qed.

Lemma zip_pair_int64 ks ps :
  Forall is_int64 ks -> Forall is_int64 ps -> Forall pair_int64 (zip ks ps).
Proof.
  intros Hk. revert ps. induction Hk as [|k ks H F IH]; intros ps Hp.
  - constructor.
  - destruct Hp as [|p ps Hp Fp]; [constructor|].
    cbn. constructor; [split; assumption|]. now apply IH.
Qed.

Lemma pairsAt_fst_int64 (page : list byte) n off :
  Forall is_int64 (pairsAt page off n).*1.
Proof.
  revert off. induction n; intros off; cbn; constructor;
    [apply wrap64_range|apply IHn].
Qed.

Lemma pairsAt_snd_int64 (page : list byte) n off :
  Forall is_int64 (pairsAt page off n).*2.
Proof.
  revert off. induction n; intros off; cbn; constructor;
    [apply wrap64_range|apply IHn].
Qed.

Lemma insertAt_Forall {A} (P : A -> Prop) i x l :
  P x -> Forall P l -> Forall P (insertAt i x l).
Proof.
  intros Hx Hl. unfold insertAt. apply Forall_app. split.
  - now apply Forall_take.
  - constructor; [exact Hx|now apply Forall_drop].
Qed.

Lemma length_insertAt {A} i (x : A) l :
  length (insertAt i x l) = S (length l).
Proof.
  unfold insertAt. rewrite length_app, length_take. cbn.
  rewrite length_drop. lia.
Qed.

Lemma tempInsertIndex_le ks key : forall i,
  (i <= tempInsertIndex ks key i <= i + length ks)%nat.
Proof.
  induction ks as [|k ks IH]; intros i; cbn; [lia|].
  destruct (key >? k); [|lia]. specialize (IH (S i)). lia.
Qed.

Lemma splitTemps_spec (parentPage : list byte) key rightChildID :
  length parentPage = Z.to_nat PageSize ->
  0 <= getNumKeys parentPage ->
  fitsInternal parentPage ->
  let ks := internalKeys parentPage in
  let ps := internalPointers parentPage in
  let idx := tempInsertIndex ks key 0 in
  splitTemps parentPage key rightChildID
  = Some (insertAt idx key ks, insertAt (idx + 1) rightChildID ps).
Proof.
  intros L H0 Hfit ks ps idx.
  unfold fitsInternal in Hfit. rewrite L in Hfit.
  unfold splitTemps.
  rewrite readUint64_in by (rewrite ?L; hlia). cbn [mbind option_bind].
  rewrite materialize_pairs by (rewrite ?L; hlia).
  cbn [mbind option_bind app].
  replace (headerSize + 0 * 16 + 8) with (headerSize + 8) by lia.
  reflexivity.
Qed.

Lemma splitInternal_spec D (parentPage : list byte) key rightChildID :
  length parentPage = Z.to_nat PageSize -> 3 <= D ->
  getNumKeys parentPage = D - 1 -> fitsInternal parentPage ->
  is_int64 key -> is_int64 rightChildID ->
  let ks := internalKeys parentPage in
  let ps := internalPointers parentPage in
  let idx := tempInsertIndex ks key 0 in
  let tk := insertAt idx key ks in
  let tp := insertAt (idx + 1) rightChildID ps in
  let s := Z.to_nat (Z.quot D 2) in
  exists parentPage' newPage' k,
    splitInternal D parentPage key rightChildID
    = Some (parentPage', newPage', k, drop (s + 1) tp)
    /\ length parentPage' = Z.to_nat PageSize
    /\ length newPage' = Z.to_nat PageSize
    /\ tk !! s = Some k
    /\ internalKeys parentPage' = take s tk
    /\ internalPointers parentPage' = take (s + 1) tp
    /\ internalKeys newPage' = drop (s + 1) tk
    /\ internalPointers newPage' = drop (s + 1) tp
    /\ getParentPageID parentPage' = getParentPageID parentPage
    /\ getParentPageID newPage' = getParentPageID parentPage
    /\ isLeaf parentPage' = isLeaf parentPage
    /\ isLeaf newPage' = false.
Proof.
  intros L HD HN Hfit Hk Hr ks ps idx tk tp s.
  pose proof Hfit as Hfit'. unfold fitsInternal in Hfit'. rewrite L in Hfit'.
  assert (Lks : length ks = Z.to_nat (D - 1))
    by (unfold ks, internalKeys, internalPairs;
        rewrite length_fmap, length_pairsAt, HN; reflexivity).
  assert (Lps : length ps = S (Z.to_nat (D - 1)))
    by (unfold ps, internalPointers, internalPairs; cbn [length];
        rewrite length_fmap, length_pairsAt, HN; reflexivity).
  assert (Ltk : length tk = Z.to_nat D)
    by (unfold tk; rewrite length_insertAt, Lks; lia).
  assert (Ltp : length tp = S (Z.to_nat D))
    by (unfold tp; rewrite length_insertAt, Lps; lia).
  assert (Hq : 1 <= Z.quot D 2 < D)
    by (rewrite Z.quot_div_nonneg by lia; Z.div_mod_to_equations; lia).
  assert (Hs : (0 < s < length tk)%nat) by (rewrite Ltk; lia).
  assert (Fk : Forall is_int64 tk)
    by (apply insertAt_Forall; [exact Hk|apply pairsAt_fst_int64]).
  assert (Fp : Forall is_int64 tp).
  { apply insertAt_Forall; [exact Hr|]. unfold ps, internalPointers.
    constructor; [apply wrap64_range|apply pairsAt_snd_int64]. }
  unfold splitInternal.
  rewrite splitTemps_spec by (auto; lia).
  fold ks. fold ps. fold idx. fold tk. fold tp. cbn [mbind option_bind].
  fold s.
  destruct (lookup_lt_is_Some_2 tk s ltac:(lia)) as [k Ek].
  rewrite Ek. cbn [mbind option_bind].
  set (lk := take s tk). set (rk := drop (s + 1) tk).
  set (lp := take (s + 1) tp). set (rp := drop (s + 1) tp).
  destruct lp as [|l0 lp'] eqn:Elp;
    [apply (f_equal length) in Elp; unfold lp in Elp;
     rewrite length_take in Elp; cbn in Elp; lia|].
  destruct rp as [|r0 rp'] eqn:Erp;
    [apply (f_equal length) in Erp; unfold rp in Erp;
     rewrite length_drop in Erp; cbn in Erp; lia|].
  cbn [head tail mbind option_bind].
  assert (Llk : length lk = s) by (unfold lk; rewrite length_take; lia).
  assert (Lrk : length rk = (Z.to_nat D - (s + 1))%nat)
    by (unfold rk; rewrite length_drop; lia).
  assert (Llp : length lp' = s)
    by (apply (f_equal length) in Elp; unfold lp in Elp;
        rewrite length_take in Elp; cbn in Elp; lia).
  assert (Lrp : length rp' = (Z.to_nat D - (s + 1))%nat)
    by (apply (f_equal length) in Erp; unfold rp in Erp;
        rewrite length_drop in Erp; cbn in Erp; lia).
  assert (Flp : Forall is_int64 (l0 :: lp'))
    by (rewrite <- Elp; apply Forall_take; exact Fp).
  assert (Frp : Forall is_int64 (r0 :: rp'))
    by (rewrite <- Erp; apply Forall_drop; exact Fp).
  apply Forall_cons in Flp as [Hl0 Flp]. apply Forall_cons in Frp as [Hr0 Frp].
  set (zl := zip lk lp'). set (zr := zip rk rp').
  assert (Zl1 : zl.*1 = lk) by (apply fst_zip; lia).
  assert (Zl2 : zl.*2 = lp') by (apply snd_zip; lia).
  assert (Zr1 : zr.*1 = rk) by (apply fst_zip; lia).
  assert (Zr2 : zr.*2 = rp') by (apply snd_zip; lia).
  assert (Lzl : length zl = s) by (rewrite <- Llk, <- Zl1, length_fmap; auto).
  assert (Lzr : length zr = (Z.to_nat D - (s + 1))%nat)
    by (rewrite <- Lrk, <- Zr1, length_fmap; auto).
  assert (Fzl : Forall pair_int64 zl)
    by (apply zip_pair_int64; [apply Forall_take; exact Fk|exact Flp]).
  assert (Fzr : Forall pair_int64 zr)
    by (apply zip_pair_int64; [apply Forall_drop; exact Fk|exact Frp]).
  replace (length lk) with (length zl) by lia.
  replace (length rk) with (length zr) by lia.
  rewrite <- Zl1, <- Zl2, <- Zr1, <- Zr2.
  set (Q := clearFrom parentPage headerSize).
  assert (LQ : length Q = Z.to_nat PageSize)
    by (unfold Q; rewrite length_clearFrom; [exact L|rewrite L; hlia]).
  set (N := setParentPageID (setByte new_Page nodeTypeOffset NodeTypeInternal)
                            (getParentPageID parentPage)).
  assert (LN0 : length (setByte new_Page nodeTypeOffset NodeTypeInternal)
                = Z.to_nat PageSize)
    by (unfold setByte; rewrite length_putLE;
        [apply length_new_Page|rewrite length_new_Page; hlia]).
  assert (LN : length N = Z.to_nat PageSize)
    by (unfold N, setParentPageID; rewrite length_putUint64;
        [exact LN0|hlia|rewrite LN0; hlia]).
  assert (LQ1 : forall n, length (setNumKeys Q n) = Z.to_nat PageSize)
    by (intros n; unfold setNumKeys; rewrite length_putLE;
        [exact LQ|rewrite LQ; hlia]).
  assert (LN1 : forall n, length (setNumKeys N n) = Z.to_nat PageSize)
    by (intros n; unfold setNumKeys; rewrite length_putLE;
        [exact LN|rewrite LN; hlia]).
  assert (LQ2 : forall n v, length (putUint64 (setNumKeys Q n) headerSize v)
                            = Z.to_nat PageSize)
    by (intros n v; rewrite length_putUint64; rewrite ?LQ1; hlia).
  assert (LN2 : forall n v, length (putUint64 (setNumKeys N n) headerSize v)
                            = Z.to_nat PageSize)
    by (intros n v; rewrite length_putUint64; rewrite ?LN1; hlia).
  rewrite !writeUint64_in by (rewrite ?LQ1, ?LN1; hlia).
  cbn [mbind option_bind].
  rewrite !writeInternalEntries_store by (rewrite ?LQ2, ?LN2; hlia).
  cbn [mbind option_bind].
  replace (headerSize + 0 * 16 + 8) with (headerSize + 8) by lia.
  destruct (internal_image Q l0 zl) as (A1 & A2 & A3 & A4 & A5 & A6);
    [exact LQ|hlia|exact Fzl|exact Hl0|].
  destruct (internal_image N r0 zr) as (B1 & B2 & B3 & B4 & B5 & B6);
    [exact LN|hlia|exact Fzr|exact Hr0|].
  assert (PQ : getParentPageID Q = getParentPageID parentPage).
  { unfold Q, getParentPageID, getUint64. f_equal.
    apply getLE_clearFrom; rewrite ?L; hlia. }
  assert (IQ : isLeaf Q = isLeaf parentPage).
  { unfold Q, isLeaf, getByte. f_equal.
    apply getLE_clearFrom; rewrite ?L; hlia. }
  assert (PN : getParentPageID N = getParentPageID parentPage).
  { unfold N, setParentPageID, getParentPageID.
    apply wrap64_getUint64_put; [apply wrap64_range|rewrite LN0; hlia]. }
  assert (IN : isLeaf N = false).
  { unfold N, isLeaf, getByte, setParentPageID, putUint64.
    rewrite getLE_putLE_disjoint by (rewrite ?LN0; hlia).
    unfold setByte. rewrite getLE_putLE_same
      by (rewrite length_new_Page; hlia).
    reflexivity. }
  do 3 eexists. split; [reflexivity|].
  rewrite A3, A4, A5, A6, B3, B4, B5, B6, PQ, IQ, PN, IN, Zl1, Zl2, Zr1, Zr2.
  repeat split; auto.
Qed.

(** ** The children moved by a split *)

Lemma reparent_one t c newPageID :
  readable t c -> is_int64 newPageID ->
  exists t',
    reparentChildren t [c] newPageID = t'
    /\ (forall q, readable t q -> readable t' q)
    /\ (forall q, q <> c -> readable t q -> pageAt t' q = pageAt t q)
    /\ getParentPageID (pageAt t' c) = newPageID.
Proof.
  intros R Hn. pose proof R as (Rb & _).
  cbn [reparentChildren]. rewrite (treeRead_readable t c R).
  set (t1 := mkTree _ _ _).
  assert (O1 : only_reads t t1).
  { unfold only_reads, t1; cbn. repeat split; try reflexivity.
    eexists [_]. split; [reflexivity|repeat constructor]. }
  set (pg := setParentPageID (pageAt t c) newPageID).
  assert (Lpg : length pg = Z.to_nat PageSize).
  { unfold pg, setParentPageID. rewrite length_putUint64;
      rewrite ?length_pageAt by exact R; hlia. }
  destruct (treeWrite_ok t1 c pg Rb) as (t2 & W & _).
  rewrite W. exists t2. split; [reflexivity|].
  destruct (treeWrite_same t1 c pg t2 Rb Lpg W) as [Rc Pc].
  split; [|split].
  - intros q Rq. destruct (decide (q = c)) as [->|Hne]; [exact Rc|].
    apply (only_reads_readable t t1 q O1) in Rq as [Rq _].
    now apply (treeWrite_other t1 c pg t2 q Rb Lpg W).
  - intros q Hne Rq.
    destruct (only_reads_readable t t1 q O1 Rq) as [Rq1 Pq1].
    destruct (treeWrite_other t1 c pg t2 q Rb Lpg W Rq1 Hne) as [_ Pq2].
    congruence.
  - rewrite Pc. unfold pg, setParentPageID, getParentPageID.
    apply wrap64_getUint64_put; [exact Hn|].
    rewrite length_pageAt by exact R. hlia.
Qed.

Lemma reparentChildren_cons t c cs newPageID :
  reparentChildren t (c :: cs) newPageID
  = reparentChildren (reparentChildren t [c] newPageID) cs newPageID.
Proof.
  cbn [reparentChildren].
  destruct (treeRead t c) as [[pg e] t1].
  destruct (treeWrite t1 c (setParentPageID pg newPageID)) as [e' t2].
  reflexivity.
Qed.

Lemma reparentChildren_spec newPageID : forall cs t,
  Forall (readable t) cs -> is_int64 newPageID ->
  (forall q, readable t q -> readable (reparentChildren t cs newPageID) q)
  /\ (forall q, q ∉ cs -> readable t q ->
                pageAt (reparentChildren t cs newPageID) q = pageAt t q)
  /\ (forall c, c ∈ cs ->
                getParentPageID (pageAt (reparentChildren t cs newPageID) c)
                = newPageID).
Proof.
  induction cs as [|c cs IH]; intros t F Hn.
  - cbn. split; [|split];
      [intros q Rq; exact Rq|reflexivity|intros c Hc; inversion Hc].
  - apply Forall_cons in F as [Rc F].
    rewrite reparentChildren_cons.
    destruct (reparent_one t c newPageID Rc Hn) as (t2 & E & M & P & G).
    rewrite E.
    destruct (IH t2) as (M' & P' & G'); [|exact Hn|].
    { eapply Forall_impl; [exact F|]. exact M. }
    split; [|split].
    + intros q Rq. apply M', M, Rq.
    + intros q Hq Rq. rewrite P'; [apply P; [|exact Rq]| |apply M, Rq].
      * intros ->. apply Hq. left.
      * intros Hin. apply Hq. now right.
    + intros x Hx. destruct (decide (x ∈ cs)) as [Hin|Hnin].
      * now apply G'.
      * assert (x = c) by (inversion Hx; subst; [reflexivity|contradiction]).
        subst x. rewrite P'; [exact G|exact Hnin|apply M, Rc].
Qed.

Lemma lookup_middle {A} (l : list A) i x :
  l !! i = Some x -> l = take i l ++ x :: drop (i + 1) l.
Proof.
  intros H. rewrite Nat.add_1_r. symmetry. now apply take_drop_middle.
Qed.

(** X17.  The split of an internal page that holds [D - 1] keys, [D] the
    degree, when [key] with [rightChildID] arrives.  With [tk] the [D] keys
    and [tp] the [D + 1] pointers of the temporary slices and [s = D / 2]:
    the key at index [s] is the one passed on to [insertIntoParent], and
    [tk] is the keys kept, that key, the keys moved; the page written back
    under [parentPageID] has the keys [[0, s)] and the pointers
    [[0, s + 1)]; the page written under the newly allocated id [numPages]
    has the keys [[s + 1, D)] and the pointers [[s + 1, D + 1)]; every
    pointer moved to the new page, being the id of a page of the file other
    than the parent, names a page that is stored afterwards with the new
    page's id as its parent; and when the [D] keys are pairwise distinct,
    the key passed on is a key of neither page. *)
Theorem internal_split t parentPageID (parentPage : list byte) key
    rightChildID :
  let D := degree t in
  let newPageID := numPages (pager t) in
  let ks := internalKeys parentPage in
  let ps := internalPointers parentPage in
  let idx := tempInsertIndex ks key 0 in
  let tk := insertAt idx key ks in
  let tp := insertAt (idx + 1) rightChildID ps in
  let s := Z.to_nat (D / 2) in
  pager_wf (pager t) ->
  0 <= parentPageID < numPages (pager t) ->
  page_ok parentPage ->
  3 <= D ->
  getNumKeys parentPage = D - 1 ->
  fitsInternal parentPage ->
  is_int64 key -> is_int64 rightChildID ->
  Forall (fun c => 0 <= c < numPages (pager t) /\ c <> parentPageID)
         (drop (s + 1) tp) ->
  exists k t' parentPage' newPage',
    splitInternalStep t parentPageID parentPage key rightChildID
    = (Ok (getParentPageID parentPage, parentPageID, k, newPageID), t')
    /\ length tk = Z.to_nat D
    /\ length tp = Z.to_nat (D + 1)
    /\ tk = take s tk ++ k :: drop (s + 1) tk
    /\ onDisk t' parentPageID parentPage'
    /\ onDisk t' newPageID newPage'
    /\ internalKeys parentPage' = take s tk
    /\ internalPointers parentPage' = take (s + 1) tp
    /\ internalKeys newPage' = drop (s + 1) tk
    /\ internalPointers newPage' = drop (s + 1) tp
    /\ Forall (fun c => exists childPage,
                   onDisk t' c childPage
                   /\ getParentPageID childPage = newPageID)
              (drop (s + 1) tp)
    /\ (NoDup tk ->
        (k ∉ internalKeys parentPage') /\ (k ∉ internalKeys newPage')).
Proof.
  intros D newPageID ks ps idx tk tp s W Hpar L HD HN Hfit Hk Hr Hch.
  subst newPageID. set (newPageID := numPages (pager t)) in *.
  destruct (treeAllocate_spec t W) as (t1 & A & C1 & F1 & N1 & R1 & D1).
  pose proof W as (Wa & Wl & Wb).
  assert (Hqd : Z.quot D 2 = D / 2) by (apply Z.quot_div_nonneg; lia).
  destruct (splitInternal_spec D parentPage key rightChildID L HD HN Hfit
                               Hk Hr)
    as (parentPage' & newPage' & k & S & Lp & Ln & Ek & Kp & Pp & Kn & Pn
        & Gp & _).
  rewrite Hqd in *. fold ks ps idx tk tp s in S, Ek, Kp, Pp, Kn, Pn.
  assert (Hid : is_int64 newPageID) by (unfold is_int64, newPageID; lia).
  assert (R01 : forall q, readable t q -> readable t1 q).
  { intros q (Q1 & Q2 & Q3). unfold readable. rewrite C1, F1.
    repeat split; try lia. hlia. }
  assert (P01 : forall q, pageAt t1 q = pageAt t q)
    by (intros q; unfold pageAt; now rewrite C1).
  assert (Fch : Forall (readable t1) (drop (s + 1) tp)).
  { eapply Forall_impl; [exact Hch|]. cbn. intros c [Hc _].
    apply R01, pager_wf_readable; assumption. }
  destruct (reparentChildren_spec newPageID _ t1 Fch Hid) as (M2 & P2 & G2).
  set (t2 := reparentChildren t1 (drop (s + 1) tp) newPageID) in *.
  assert (B1 : 0 <= parentPageID < 2 ^ 51 - 1) by lia.
  assert (B2 : 0 <= newPageID < 2 ^ 51 - 1) by (unfold newPageID; lia).
  assert (B3 : parentPageID <> newPageID) by (unfold newPageID; lia).
  destruct (treeWrite_ok t2 parentPageID parentPage' B1) as (t3 & W3 & _).
  destruct (treeWrite_ok t3 newPageID newPage' B2) as (t4 & W4 & _).
  destruct (treeWrite_same t2 parentPageID parentPage' t3 B1 Lp W3)
    as [Rp3 Pp3].
  destruct (treeWrite_other t3 newPageID newPage' t4 parentPageID B2 Ln W4
                            Rp3 B3) as [Rp4 Pp4].
  destruct (treeWrite_same t3 newPageID newPage' t4 B2 Ln W4) as [Rn4 Pn4].
  assert (Ltk : length tk = Z.to_nat D).
  { unfold tk. rewrite length_insertAt. unfold ks, internalKeys, internalPairs.
    rewrite length_fmap, length_pairsAt, HN. lia. }
  assert (Ltp : length tp = Z.to_nat (D + 1)).
  { unfold tp. rewrite length_insertAt. unfold ps, internalPointers.
    cbn [length]. unfold internalPairs.
    rewrite length_fmap, length_pairsAt, HN. lia. }
  exists k, t4, parentPage', newPage'.
  split.
  { unfold splitInternalStep. rewrite A, D1. fold D.
    rewrite S. fold newPageID. fold t2. rewrite W3, W4, Gp. reflexivity. }
  split; [exact Ltk|]. split; [exact Ltp|].
  split; [apply lookup_middle; exact Ek|].
  split; [rewrite <- Pp3, <- Pp4; apply readable_onDisk; exact Rp4|].
  split; [rewrite <- Pn4; apply readable_onDisk; exact Rn4|].
  repeat (split; [assumption|]).
  split.
  - apply Forall_forall. intros c Hc.
    pose proof (proj1 (Forall_forall _ _) Hch c Hc) as [Hc1 Hc2].
    pose proof (proj1 (Forall_forall _ _) Fch c Hc) as Rc1.
    pose proof (M2 c Rc1) as Rc2.
    destruct (treeWrite_other t2 parentPageID parentPage' t3 c B1 Lp W3 Rc2
                              Hc2) as [Rc3 Pc3].
    destruct (treeWrite_other t3 newPageID newPage' t4 c B2 Ln W4 Rc3
                ltac:(unfold newPageID; lia)) as [Rc4 Pc4].
    exists (pageAt t4 c). split; [apply readable_onDisk; exact Rc4|].
    rewrite Pc4, Pc3. now apply G2.
  - intros Hnd. rewrite Kp, Kn.
    rewrite (lookup_middle tk s k Ek) in Hnd.
    apply NoDup_app in Hnd. destruct Hnd as (_ & Hl & Hr').
    apply NoDup_cons in Hr'. destruct Hr' as (Hr' & _).
    split; [|exact Hr']. intros Hin. apply (Hl k Hin). left.
Qed.

(** ** The splice of [insertIntoParent] *)

Lemma loadBytes_loadBytes (p : list byte) s m a b :
  (a + b <= m)%nat -> loadBytes (loadBytes p s m) a b = loadBytes p (s + a) b.
Proof.
  intros H. apply list_eq. intros i. rewrite !lookup_loadBytes.
  case_decide; [|reflexivity]. case_decide; [|lia]. f_equal. lia.
Qed.

Lemma copyWithin_up (page : list byte) dst src :
  0 <= src <= dst -> dst <= Z.of_nat (length page) ->
  copyWithin page dst src (Z.of_nat (length page))
  = Some (storeBytes page (Z.to_nat dst)
                     (loadBytes page (Z.to_nat src)
                                (length page - Z.to_nat dst))).
Proof.
  intros H1 H2. unfold copyWithin.
  replace ((0 <=? dst) && (dst <=? Z.of_nat (length page)) && (0 <=? src)
           && (src <=? Z.of_nat (length page))
           && (Z.of_nat (length page) <=? Z.of_nat (length page)))
    with true by (symmetry; repeat (apply andb_true_intro; split); lia).
  do 3 f_equal. lia.
Qed.

Lemma parentInsertIndex_spec (page : list byte) key :
  forall n i,
    0 <= i ->
    headerSize + 8 + (i + Z.of_nat n) * 16 <= Z.of_nat (length page) ->
    exists idx,
      parentInsertIndex page key i n = Some idx
      /\ i <= idx <= i + Z.of_nat n
      /\ (forall j, i <= j < idx -> internalKey page j <= key)
      /\ (idx < i + Z.of_nat n -> key < internalKey page idx).
Proof.
  induction n as [|n IH]; intros i Hi Hb.
  - exists i. cbn. repeat split; try lia.
  - cbn [parentInsertIndex].
    rewrite readUint64_in by hlia. cbn [mbind option_bind].
    fold (internalKey page i).
    destruct (key <? internalKey page i) eqn:E.
    + exists i. repeat split; try lia.
    + destruct (IH (i + 1)) as (idx & E1 & E2 & E3 & E4); [lia|lia|].
      exists idx. split; [exact E1|]. split; [lia|]. split; [|intros; apply E4; lia].
      intros j Hj. destruct (decide (j = i)) as [->|Hne]; [lia|].
      apply E3. lia.
Qed.

Lemma getUint64_storeBytes_before (p : list byte) d (bs : list byte) o :
  (d + length bs <= length p)%nat -> 0 <= o -> o + 8 <= Z.of_nat d ->
  getUint64 (storeBytes p d bs) o = getUint64 p o.
Proof.
  intros H Ho Hd. unfold getUint64. apply getLE_storeBytes_disjoint; lia.
Qed.

Lemma getUint64_copy_shifted (p : list byte) d s o :
  (s <= d <= length p)%nat -> Z.of_nat d <= o ->
  o + 8 <= Z.of_nat (length p) ->
  getUint64 (storeBytes p d (loadBytes p s (length p - d))) o
  = getUint64 p (o - (Z.of_nat d - Z.of_nat s)).
Proof.
  intros H Ho Hl. unfold getUint64, getLE.
  assert (Lb : length (loadBytes p s (length p - d)) = (length p - d)%nat)
    by (apply length_loadBytes; lia).
  rewrite load_store_inside by (rewrite ?Lb; lia).
  rewrite loadBytes_loadBytes by lia.
  do 2 f_equal. lia.
Qed.

Lemma getUint64_putUint64_same (p : list byte) o v :
  0 <= o -> o + 8 <= Z.of_nat (length p) ->
  getUint64 (putUint64 p o v) o = uint64 v.
Proof.
  intros Ho Hl. unfold getUint64, putUint64.
  rewrite getLE_putLE_same by lia. reflexivity.
Qed.

Lemma getUint64_putUint64_other (p : list byte) o v o' :
  0 <= o -> o + 8 <= Z.of_nat (length p) -> 0 <= o' ->
  o' + 8 <= o \/ o + 8 <= o' ->
  getUint64 (putUint64 p o v) o' = getUint64 p o'.
Proof.
  intros Ho Hl Ho' Hd. unfold getUint64, putUint64.
  apply getLE_putLE_disjoint; lia.
Qed.

Lemma getUint64_setNumKeys (p : list byte) n o :
  (18 <= length p)%nat -> 18 <= o ->
  getUint64 (setNumKeys p n) o = getUint64 p o.
Proof.
  intros Hl Ho. unfold getUint64, setNumKeys.
  apply getLE_putLE_disjoint; hlia.
Qed.

Lemma getNumKeys_setNumKeys (p : list byte) n :
  (18 <= length p)%nat -> 0 <= n < 2 ^ 16 ->
  getNumKeys (setNumKeys p (uint16 n)) = n.
Proof.
  intros Hl Hn. unfold getNumKeys, setNumKeys.
  rewrite getLE_putLE_same by hlia.
  change (2 ^ (Z.of_nat 2 * 8)) with (2 ^ 16).
  unfold uint16. rewrite Z.mod_mod by lia. now apply Z.mod_small.
Qed.

Lemma wrap64_of_uint64 v : is_int64 v -> wrap64 (uint64 v) = v.
Proof. intros H. rewrite wrap64_uint64. now apply wrap64_id. Qed.

(** X1.  What the non-full branch of [insertIntoParent] writes, for any
    parent page with room for one more key: the insert position [idx] is
    the first separator greater than the key, the pointers are spliced as
    intended (the new right child lands at position [idx + 1] and the
    later pointers move up by one), and the keys before [idx] are kept;
    but the key after the new one is the old key at [idx + 1], not the old
    key at [idx], which is overwritten: the copy starts 8 bytes too late
    to carry it. *)
Theorem spliceIntoParent_spec (page : list byte) key rightChildID :
  let n := getNumKeys page in
  page_ok page ->
  headerSize + 8 + (n + 1) * 16 <= PageSize ->
  is_int64 key -> is_int64 rightChildID ->
  exists idx page',
    spliceIntoParent page key rightChildID = Some page'
    /\ 0 <= idx <= n
    /\ (forall j, 0 <= j < idx -> internalKey page j <= key)
    /\ (idx < n -> key < internalKey page idx)
    /\ getNumKeys page' = n + 1
    /\ (forall j, 0 <= j <= n ->
          internalKey page' j
          = if j <? idx then internalKey page j
            else if j =? idx then key
            else if j =? idx + 1 then internalKey page (idx + 1)
            else internalKey page (j - 1))
    /\ (forall j, 0 <= j <= n + 1 ->
          internalPointer page' j
          = if j <=? idx then internalPointer page j
            else if j =? idx + 1 then rightChildID
            else internalPointer page (j - 1)).
Proof.
  intros n L Hfit Hk Hr. unfold page_ok in L.
  assert (Hn : 0 <= n).
  { unfold n, getNumKeys, getLE.
    pose proof (le_combine_bound (loadBytes page (Z.to_nat numKeysOffset) 2)).
    lia. }
  destruct (parentInsertIndex_spec page key (Z.to_nat n) 0)
    as (idx & E & Hidx & Hlo & Hhi); [lia|rewrite L; hlia|].
  rewrite Z2Nat.id in Hidx, Hhi by lia.
  exists idx. unfold spliceIntoParent. fold n. rewrite E.
  cbn [mbind option_bind].
  replace (headerSize + idx * 16 + 8 - 8) with (headerSize + idx * 16) by lia.
  rewrite copyWithin_up by (rewrite ?L; hlia).
  cbn [mbind option_bind].
  set (d := Z.to_nat (headerSize + idx * 16 + 32)).
  set (s := Z.to_nat (headerSize + idx * 16 + 16)).
  set (C := storeBytes page d (loadBytes page s (length page - d))).
  assert (LC : length C = Z.to_nat PageSize).
  { unfold C. rewrite length_storeBytes; [exact L|].
    rewrite length_loadBytes; subst d s; rewrite ?L; hlia. }
  set (ks := headerSize + idx * 16 + 8).
  set (C1 := putUint64 C ks (uint64 key)).
  assert (L1 : length C1 = Z.to_nat PageSize)
    by (unfold C1; rewrite length_putUint64; rewrite ?LC; subst ks; hlia).
  set (C2 := putUint64 C1 (ks + 8) (uint64 rightChildID)).
  assert (L2 : length C2 = Z.to_nat PageSize)
    by (unfold C2; rewrite length_putUint64; rewrite ?L1; subst ks; hlia).
  rewrite writeUint64_in by (rewrite ?LC; subst ks; hlia).
  cbn [mbind option_bind]. fold C1.
  rewrite writeUint64_in by (rewrite ?L1; subst ks; hlia).
  cbn [mbind option_bind]. fold C2.
  eexists. split; [reflexivity|].
  split; [lia|]. split; [intros j Hj; apply Hlo; lia|].
  split; [intros H; apply Hhi; lia|].
  split; [apply getNumKeys_setNumKeys; [rewrite L2; hlia|hlia]|].
  set (P := setNumKeys C2 (uint16 (n + 1))).
  assert (Hd : Z.of_nat d = ks + 24) by (subst d ks; hlia).
  assert (Hs : Z.of_nat s = ks + 8) by (subst s ks; hlia).
  assert (Hks : headerSize + 8 <= ks /\ ks + 24 <= PageSize)
    by (subst ks; hlia).
  assert (G : forall o, headerSize <= o -> o + 8 <= PageSize ->
            o + 8 <= ks \/ ks + 16 <= o ->
            getUint64 P o = getUint64 C o).
  { intros o H1 H2 H3. unfold P.
    rewrite getUint64_setNumKeys by (rewrite ?L2; hlia).
    unfold C2. rewrite getUint64_putUint64_other by (rewrite ?L1; hlia).
    unfold C1. rewrite getUint64_putUint64_other by (rewrite ?LC; hlia).
    reflexivity. }
  assert (S1 : forall o, headerSize <= o -> o + 8 <= ks ->
            getUint64 P o = getUint64 page o).
  { intros o H1 H2. rewrite G by hlia. unfold C.
    apply getUint64_storeBytes_before; [|hlia|lia].
    rewrite length_loadBytes; rewrite ?L; hlia. }
  assert (S2 : getUint64 P ks = uint64 key).
  { unfold P. rewrite getUint64_setNumKeys by (rewrite ?L2; hlia).
    unfold C2. rewrite getUint64_putUint64_other by (rewrite ?L1; hlia).
    unfold C1. rewrite getUint64_putUint64_same by (rewrite ?LC; hlia).
    unfold uint64. apply Z.mod_mod. lia. }
  assert (S3 : getUint64 P (ks + 8) = uint64 rightChildID).
  { unfold P. rewrite getUint64_setNumKeys by (rewrite ?L2; hlia).
    unfold C2. rewrite getUint64_putUint64_same by (rewrite ?L1; hlia).
    unfold uint64. apply Z.mod_mod. lia. }
  assert (S4 : getUint64 P (ks + 16) = getUint64 page (ks + 16)).
  { rewrite G by hlia. unfold C.
    apply getUint64_storeBytes_before; [|hlia|lia].
    rewrite length_loadBytes; rewrite ?L; hlia. }
  assert (S5 : forall o, ks + 24 <= o -> o + 8 <= PageSize ->
            getUint64 P o = getUint64 page (o - 16)).
  { intros o H1 H2. rewrite G by hlia. unfold C.
    rewrite getUint64_copy_shifted by (rewrite ?L; hlia).
    f_equal. lia. }
  split.
  - intros j Hj. unfold internalKey. fold P.
    destruct (j <? idx) eqn:E1.
    + rewrite S1 by (subst ks; hlia). reflexivity.
    + destruct (j =? idx) eqn:E2.
      * replace (headerSize + j * 16 + 8) with ks by (subst ks; lia).
        rewrite S2. now apply wrap64_of_uint64.
      * destruct (j =? idx + 1) eqn:E3.
        -- replace (headerSize + j * 16 + 8) with (ks + 16) by (subst ks; lia).
           rewrite S4. f_equal. f_equal. subst ks. lia.
        -- rewrite S5 by (subst ks; hlia). f_equal. f_equal. lia.
  - intros j Hj. unfold internalPointer. fold P.
    destruct (j <=? idx) eqn:E1.
    + rewrite S1 by (subst ks; hlia). reflexivity.
    + destruct (j =? idx + 1) eqn:E2.
      * replace (headerSize + j * 16) with (ks + 8) by (subst ks; lia).
        rewrite S3. now apply wrap64_of_uint64.
      * rewrite S5 by (subst ks; hlia). f_equal. f_equal. lia.
Qed.

(** ** Before the first split *)

Lemma leafInsertIndex_ge (page : list byte) key : forall n i idx,
  leafInsertIndex page key i n = Some idx -> i <= idx.
Proof.
  induction n as [|n IH]; intros i idx; cbn [leafInsertIndex].
  - intros [= <-]. lia.
  - destruct (readUint64 page (headerSize + i * 16)) as [k|];
      cbn [mbind option_bind]; [|discriminate].
    destruct (key >? wrap64 k).
    + intros H. apply IH in H. lia.
    + intros [= <-]. lia.
Qed.

Lemma insertIntoLeaf_header (page page' : list byte) key value :
  length page = Z.to_nat PageSize ->
  insertIntoLeaf page key value = Some page' ->
  length page' = length page
  /\ isLeaf page' = isLeaf page
  /\ getNumKeys page' = uint16 (getNumKeys page + 1).
Proof.
  intros L. unfold insertIntoLeaf.
  destruct (leafInsertIndex page key 0 (Z.to_nat (getNumKeys page)))
    as [idx|] eqn:E; cbn [mbind option_bind]; [|discriminate].
  apply leafInsertIndex_ge in E.
  unfold copyWithin.
  match goal with |- context [if ?c then _ else _] => destruct c eqn:B end;
    cbn [mbind option_bind]; [|discriminate].
  rewrite !andb_true_iff, !Z.leb_le in B.
  destruct B as ((((B1 & B2) & B3) & B4) & B5).
  match goal with |- context [storeBytes page ?d ?bs] =>
    set (C := storeBytes page d bs) end.
  assert (LC : length C = length page).
  { unfold C. rewrite length_storeBytes; [reflexivity|].
    rewrite length_loadBytes; lia. }
  assert (IC : getLE C 0 1 = getLE page 0 1).
  { unfold C. apply getLE_storeBytes_disjoint.
    - rewrite length_loadBytes; lia.
    - left. hlia. }
  unfold writeUint64.
  destruct (inBounds C (headerSize + idx * 16) 8) eqn:I1;
    cbn [mbind option_bind]; [|discriminate].
  unfold inBounds in I1. rewrite andb_true_iff, Z.leb_le, Z.leb_le in I1.
  set (C1 := putUint64 C (headerSize + idx * 16) (uint64 key)).
  assert (L1 : length C1 = length page)
    by (unfold C1; rewrite length_putUint64; lia).
  destruct (inBounds C1 (headerSize + idx * 16 + 8) 8) eqn:I2;
    cbn [mbind option_bind]; [|discriminate].
  unfold inBounds in I2. rewrite andb_true_iff, Z.leb_le, Z.leb_le in I2.
  set (C2 := putUint64 C1 (headerSize + idx * 16 + 8) (uint64 value)).
  assert (L2 : length C2 = length page)
    by (unfold C2; rewrite length_putUint64; lia).
  intros [= <-]. split; [|split].
  - unfold setNumKeys. rewrite length_putLE; [exact L2|]. rewrite L2, L. hlia.
  - unfold isLeaf, getByte, setNumKeys.
    rewrite getLE_putLE_disjoint by (rewrite ?L2, ?L; hlia).
    unfold C2, putUint64.
    rewrite getLE_putLE_disjoint by (rewrite ?L1, ?L; hlia).
    unfold C1, putUint64.
    rewrite getLE_putLE_disjoint by (rewrite ?LC, ?L; hlia).
    unfold nodeTypeOffset. rewrite IC. reflexivity.
  - unfold getNumKeys, setNumKeys.
    rewrite getLE_putLE_same by (rewrite ?L2, ?L; hlia).
    change (2 ^ (Z.of_nat 2 * 8)) with (2 ^ 16).
    unfold uint16. apply Z.mod_mod. lia.
Qed.

Lemma getNumKeys_nonneg (page : list byte) : 0 <= getNumKeys page.
Proof.
  unfold getNumKeys, getLE.
  pose proof (le_combine_bound (loadBytes page (Z.to_nat numKeysOffset) 2)).
  lia.
Qed.

Lemma singleLeaf_readable t n : singleLeaf t n -> readable t 0.
Proof.
  intros (_ & _ & F & L & _). unfold readable. rewrite F, L. hlia.
Qed.

Lemma singleLeaf_only_reads t t' n :
  only_reads t t' -> singleLeaf t n -> singleLeaf t' n.
Proof.
  intros (C & F & N & R & _) (H1 & H2 & H3 & H4 & H5 & H6).
  unfold singleLeaf, pageAt in *. rewrite C, F, N, R. auto 10.
Qed.

Lemma Insert_singleLeaf fuel t key value t' n :
  singleLeaf t n -> n < degree t - 1 ->
  Insert fuel t key value = (Ok tt, t') ->
  singleLeaf t' (n + 1) /\ degree t' = degree t.
Proof.
  intros J Hn. unfold Insert, findLeafPage.
  destruct fuel as [|fuel]; [cbn; discriminate|].
  cbn [findLeafLoop].
  pose proof J as (R0 & N0 & F0 & L0 & Lf & K0).
  rewrite R0.
  rewrite (treeRead_readable t 0 (singleLeaf_readable t n J)).
  rewrite Lf.
  set (t1 := mkTree _ _ _).
  assert (O1 : only_reads t t1).
  { unfold only_reads, t1. cbn. repeat split.
    eexists [_]. split; [reflexivity|]. repeat constructor. }
  assert (J1 : singleLeaf t1 n) by (eapply singleLeaf_only_reads; eauto).
  rewrite (treeRead_readable t1 0 (singleLeaf_readable t1 n J1)).
  set (t2 := mkTree _ _ _).
  assert (O2 : only_reads t1 t2).
  { unfold only_reads, t2. cbn. repeat split.
    eexists [_]. split; [reflexivity|]. repeat constructor. }
  assert (J2 : singleLeaf t2 n) by (eapply singleLeaf_only_reads; eauto).
  assert (P1 : pageAt t1 0 = pageAt t 0) by reflexivity.
  rewrite P1.
  destruct (hasKey (pageAt t 0) key 0 (Z.to_nat (getNumKeys (pageAt t 0))))
    as [[|]|]; try discriminate.
  assert (D2 : degree t2 = degree t) by reflexivity.
  rewrite D2.
  destruct (getNumKeys (pageAt t 0) <? degree t - 1) eqn:E; [|lia].
  destruct (insertIntoLeaf (pageAt t 0) key value) as [leafPage|] eqn:I;
    [|discriminate].
  assert (LP : length (pageAt t 0) = Z.to_nat PageSize)
    by (apply length_pageAt; eapply singleLeaf_readable; eauto).
  destruct (insertIntoLeaf_header _ _ _ _ LP I) as (LL & IL & NK).
  destruct (treeWrite_ok t2 0 leafPage ltac:(lia))
    as (t3 & W & C3 & F3 & N3 & R3 & D3).
  rewrite W. intros [= <-].
  destruct J2 as (R2 & N2 & F2 & L2 & _).
  split; [|rewrite D3; reflexivity].
  unfold singleLeaf. rewrite R3, N3, F3, F2, N2, R2.
  split; [reflexivity|].
  split; [destruct (0 * PageSize + PageSize >? PageSize) eqn:G;
          [hlia|reflexivity]|].
  split; [hlia|].
  assert (PA : pageAt t3 0 = leafPage).
  { unfold pageAt. rewrite C3. change (Z.to_nat (0 * PageSize)) with 0%nat.
    rewrite <- LP, <- LL. apply load_pwrite_same. }
  split; [rewrite C3, length_pwrite, L2, LL, LP; hlia|].
  rewrite PA, IL, NK. split; [exact Lf|].
  pose proof (getNumKeys_nonneg (pageAt t 0)).
  unfold uint16.
  pose proof (Z.mod_le (getNumKeys (pageAt t 0) + 1) (2 ^ 16)).
  lia.
Qed.

Lemma insertAll_singleLeaf fuel : forall kvs t n t',
  singleLeaf t n -> n + Z.of_nat (length kvs) < degree t ->
  insertAll fuel t kvs = (Ok tt, t') ->
  singleLeaf t' (n + Z.of_nat (length kvs)) /\ degree t' = degree t.
Proof.
  induction kvs as [|[k v] kvs IH]; intros t n t' J Hn; cbn [insertAll].
  - intros [= <-]. cbn [length]. rewrite Z.add_0_r. auto.
  - cbn [length] in *.
    destruct (Insert fuel t k v) as [[[]|e| |] t1] eqn:I; try discriminate.
    intros H.
    destruct (Insert_singleLeaf fuel t k v t1 n J ltac:(lia) I) as (J1 & D1).
    destruct (IH t1 (n + 1) t' J1 ltac:(lia) H) as (J' & D').
    split; [|congruence].
    replace (n + Z.of_nat (S (length kvs)))
      with (n + 1 + Z.of_nat (length kvs)) by lia.
    exact J'.
Qed.

Lemma NewBPlusTree_empty deg :
  3 <= deg ->
  exists t,
    NewBPlusTree (NewPager emptyFile) deg = Some t
    /\ singleLeaf t 0 /\ degree t = deg.
Proof.
  intros H. unfold NewBPlusTree.
  destruct (deg <? 3) eqn:E; [lia|].
  change (numPages (NewPager emptyFile) =? 0) with true. cbv zeta.
  match goal with |- context [WritePage ?p ?i ?pg] =>
    set (w := WritePage p i pg) end.
  assert (W : w = (fst w, snd w)) by (destruct w; reflexivity).
  rewrite W. eexists. split; [reflexivity|]. split; [|reflexivity].
  unfold singleLeaf, pageAt. cbn [pager rootPageID].
  conjs; vm_compute; first [reflexivity | intro; discriminate].
Qed.

Lemma reopen_singleLeaf t n :
  singleLeaf t n -> 3 <= degree t ->
  NewBPlusTree (NewPager (snd (Close (pager t)))) (degree t) = Some t.
Proof.
  intros (R & N & F & L & _) D.
  destruct t as [[f fs np] r d]. cbn in *. subst r np fs.
  unfold NewBPlusTree, NewPager. rewrite L.
  destruct (d <? 3) eqn:E; [lia|]. reflexivity.
Qed.

(** C7, amended.  After fewer than [degree] successful inserts into a
    new file the root is still the first leaf, page 0, and the tree
    constructed with the same degree on the file after [Close] is the tree
    before it: every [Search] and [SearchRange] gives the same result. *)
Theorem reopen_before_root_split fuel deg kvs t :
  build fuel deg kvs = Some (Ok tt, t) ->
  Z.of_nat (length kvs) < deg ->
  exists t',
    NewBPlusTree (NewPager (snd (Close (pager t)))) deg = Some t'
    /\ rootPageID t' = rootPageID t
    /\ (forall fuel' key,
          fst (Search fuel' t' key) = fst (Search fuel' t key))
    /\ (forall fuel' startKey endKey,
          fst (SearchRange fuel' t' startKey endKey)
          = fst (SearchRange fuel' t startKey endKey)).
Proof.
  unfold build. intros B Hn.
  destruct (NewBPlusTree (NewPager emptyFile) deg) as [t0|] eqn:N;
    cbn [mbind option_bind] in B; [|discriminate].
  injection B as B.
  assert (D : 3 <= deg).
  { unfold NewBPlusTree in N. destruct (deg <? 3) eqn:E; [discriminate|lia]. }
  destruct (NewBPlusTree_empty deg D) as (t0' & N' & J0 & D0).
  rewrite N in N'. injection N' as <-.
  destruct (insertAll_singleLeaf fuel kvs t0 0 t J0 ltac:(lia) B) as (J & Dt).
  exists t. rewrite <- D0, <- Dt.
  split; [apply (reopen_singleLeaf t _ J); lia|]. auto.
Qed.

(** ** Searches only read *)

Lemma walkLeaves_only_reads fuel : forall t startKey endKey leafPageID results,
  only_reads t (snd (walkLeaves fuel t startKey endKey leafPageID results)).
Proof.
  induction fuel as [|fuel IH]; intros t a b id rs; cbn [walkLeaves];
    destruct (id =? -1); cbn [snd]; try apply only_reads_refl.
  destruct (treeRead t id) as [[page err] t1] eqn:R.
  apply treeRead_only_reads in R.
  destruct err as [e|]; [exact R|].
  destruct (scanLeafRange page a b 0 (Z.to_nat (getNumKeys page)) rs)
    as [[[|] rs']|]; cbn [snd]; try exact R.
  eapply only_reads_trans; [exact R|apply IH].
Qed.

(** X2.  [Search] and [SearchRange] issue no write, whatever they return:
    the state they leave has the bytes, tracked size, page count, root and
    degree of the state they started from, and every I/O event they add is
    a read. *)
Theorem searches_only_read fuel t :
  (forall key, only_reads t (snd (Search fuel t key)))
  /\ (forall startKey endKey,
        only_reads t (snd (SearchRange fuel t startKey endKey))).
Proof.
  split.
  - intros key. unfold Search.
    destruct (findLeafPage fuel t key) as [r t1] eqn:F.
    unfold findLeafPage in F. apply findLeafLoop_only_reads in F.
    destruct r as [id|e| |]; cbn [snd]; try exact F.
    destruct (treeRead t1 id) as [[page err] t2] eqn:R.
    apply treeRead_only_reads in R.
    assert (O : only_reads t t2) by (eapply only_reads_trans; eauto).
    destruct err as [e|]; [exact O|].
    destruct (searchLeaf page key 0 (Z.to_nat (getNumKeys page)));
      exact O.
  - intros a b. unfold SearchRange.
    destruct (a >? b); [apply only_reads_refl|].
    destruct (findLeafPage fuel t a) as [r t1] eqn:F.
    unfold findLeafPage in F. apply findLeafLoop_only_reads in F.
    destruct r as [id|e| |]; cbn [snd]; try exact F.
    eapply only_reads_trans; [exact F|apply walkLeaves_only_reads].
Qed.

(** * The scenarios of the specification, degree 4 *)

(** Scenario 1.  After 10, 20, 30: one page, the leaf 0, with the three entries;
    20 is found and 25 is not. *)
Theorem scenario_one_leaf :
  succeeded (build 8 4 [(10, 100); (20, 200); (30, 300)]) = true
  /\ numPages (pager treeFull) = 1
  /\ rootPageID treeFull = 0
  /\ isLeaf (pageAt treeFull 0) = true
  /\ getNumKeys (pageAt treeFull 0) = 3
  /\ leafEntries (pageAt treeFull 0) = [(10, 100); (20, 200); (30, 300)]
  /\ fst (Search 8 treeFull 20) = Ok (200, true)
  /\ fst (Search 8 treeFull 25) = Ok (0, false).
Proof. conjs; vm_compute; reflexivity. Qed.

(** Scenario 2.  The insert of 40 splits page 0: the leaves are page 0 with 10, 20
    and the new page 1 with 30, 40, linked 0 -> 1 -> -1; the new page 2 is
    the root, internal, with the separator 30 over the children 0 and 1;
    it alone is marked as root and both leaves name it as parent. *)
Theorem scenario_first_split :
  succeeded (build 8 4 [(10, 100); (20, 200); (30, 300); (40, 400)]) = true
  /\ numPages (pager tree4) = 3
  /\ rootPageID tree4 = 2
  /\ leafEntries (pageAt tree4 0) = [(10, 100); (20, 200)]
  /\ leafEntries (pageAt tree4 1) = [(30, 300); (40, 400)]
  /\ getNextLeafPageID (pageAt tree4 0) = 1
  /\ getNextLeafPageID (pageAt tree4 1) = -1
  /\ isLeaf (pageAt tree4 2) = false
  /\ internalKeys (pageAt tree4 2) = [30]
  /\ internalPointers (pageAt tree4 2) = [0; 1]
  /\ isRoot <$> [pageAt tree4 0; pageAt tree4 1; pageAt tree4 2]
     = [false; false; true]
  /\ getParentPageID <$> [pageAt tree4 0; pageAt tree4 1; pageAt tree4 2]
     = [2; 2; -1]
  /\ fst (Search 8 tree4 40) = Ok (400, true)
  /\ fst (SearchRange 8 tree4 15 35) = Ok [200; 300].
Proof. conjs; vm_compute; reflexivity. Qed.

(** Scenario 3.  After 1 .. 7: three leaves, pages 0, 1, 3, chained in this order
    and holding the seven entries in ascending order, under the root,
    page 2, with the two separators 3 and 5; the range [[2, 6]] gives the
    five offsets in order. *)
Theorem scenario_seven_keys :
  succeeded (build 8 4 (ascending 7)) = true
  /\ numPages (pager tree7) = 4
  /\ rootPageID tree7 = 2
  /\ internalKeys (pageAt tree7 2) = [3; 5]
  /\ internalPointers (pageAt tree7 2) = [0; 1; 3]
  /\ isLeaf <$> [pageAt tree7 0; pageAt tree7 1; pageAt tree7 3]
     = [true; true; true]
  /\ getNextLeafPageID <$> [pageAt tree7 0; pageAt tree7 1; pageAt tree7 3]
     = [1; 3; -1]
  /\ leafChain 8 tree7 0 = Some (ascending 7)
  /\ fst (SearchRange 8 tree7 2 6) = Ok [20; 30; 40; 50; 60].
Proof. conjs; vm_compute; reflexivity. Qed.

(** Scenario 4.  After 1 .. 10 the tree has three levels: the root, page 7, has
    the separator 7 over the internal pages 2 (separators 3, 5 over the
    leaves 0, 1, 3) and 6 (separator 9 over the leaves 4, 5); every page
    names its parent; 7 is found; the chain of the leaves holds the ten
    entries in ascending order. *)
Theorem scenario_ten_keys :
  succeeded (build 8 4 (ascending 10)) = true
  /\ numPages (pager tree10) = 8
  /\ rootPageID tree10 = 7
  /\ isLeaf <$> ((pageAt tree10) <$> [0; 1; 2; 3; 4; 5; 6; 7])
     = [true; true; false; true; true; true; false; false]
  /\ isRoot <$> ((pageAt tree10) <$> [0; 1; 2; 3; 4; 5; 6; 7])
     = [false; false; false; false; false; false; false; true]
  /\ getParentPageID <$> ((pageAt tree10) <$> [0; 1; 2; 3; 4; 5; 6; 7])
     = [2; 2; 7; 2; 6; 6; 7; -1]
  /\ internalKeys (pageAt tree10 7) = [7]
  /\ internalPointers (pageAt tree10 7) = [2; 6]
  /\ internalKeys (pageAt tree10 2) = [3; 5]
  /\ internalPointers (pageAt tree10 2) = [0; 1; 3]
  /\ internalKeys (pageAt tree10 6) = [9]
  /\ internalPointers (pageAt tree10 6) = [4; 5]
  /\ fst (Search 8 tree10 7) = Ok (70, true)
  /\ leafChain 8 tree10 0 = Some (ascending 10).
Proof. conjs; vm_compute; reflexivity. Qed.

(** ** The header fields *)

Lemma drop_storeBytes_before (p : list byte) off (bs : list byte) n :
  (off + length bs <= n)%nat -> (n <= length p)%nat ->
  drop n (storeBytes p off bs) = drop n p.
Proof.
  intros H1 H2. apply list_eq. intros i. rewrite !lookup_drop.
  rewrite lookup_storeBytes by lia. case_decide; [lia|reflexivity].
Qed.

Lemma getByte_setByte (p : list byte) off b :
  (Z.to_nat off + 1 <= length p)%nat -> 0 <= b < 256 ->
  getByte (setByte p off b) off = b.
Proof.
  intros H Hb. unfold getByte, setByte. rewrite getLE_putLE_same by exact H.
  change (2 ^ (Z.of_nat 1 * 8)) with 256. now apply Z.mod_small.
Qed.

Ltac header_disjoint L :=
  unfold isLeaf, isRoot, getByte, setIsRoot, setByte, getParentPageID,
    setParentPageID, getNextLeafPageID, setNextLeafPageID, getNumKeys,
    setNumKeys, getUint64, putUint64;
  repeat match goal with |- context [if ?c then _ else _] => destruct c end;
  rewrite ?getLE_putLE_disjoint by (rewrite ?L; hlia); reflexivity.

(** X3.  The four setters of the page header and their getters: each
    field reads back what was stored in it (a [uint16] key count, an
    [int64] page id, a flag), and a store to one field changes neither the
    other fields, nor the node type, nor any byte of the payload. *)
Theorem header_fields_round_trip (page : list byte) (n : Z) (id : Z)
    (b : bool) :
  page_ok page -> 0 <= n < 2 ^ 16 -> is_int64 id ->
  (getNumKeys (setNumKeys page n) = n
   /\ getParentPageID (setParentPageID page id) = id
   /\ getNextLeafPageID (setNextLeafPageID page id) = id
   /\ isRoot (setIsRoot page b) = b)
  /\ (forall page', In page' [setNumKeys page n; setParentPageID page id;
                              setNextLeafPageID page id; setIsRoot page b] ->
        page_ok page' /\ isLeaf page' = isLeaf page
        /\ drop (Z.to_nat headerSize) page' = drop (Z.to_nat headerSize) page)
  /\ (isRoot (setNumKeys page n) = isRoot page
      /\ getParentPageID (setNumKeys page n) = getParentPageID page
      /\ getNextLeafPageID (setNumKeys page n) = getNextLeafPageID page)
  /\ (isRoot (setParentPageID page id) = isRoot page
      /\ getNumKeys (setParentPageID page id) = getNumKeys page
      /\ getNextLeafPageID (setParentPageID page id) = getNextLeafPageID page)
  /\ (isRoot (setNextLeafPageID page id) = isRoot page
      /\ getNumKeys (setNextLeafPageID page id) = getNumKeys page
      /\ getParentPageID (setNextLeafPageID page id) = getParentPageID page)
  /\ (getNumKeys (setIsRoot page b) = getNumKeys page
      /\ getParentPageID (setIsRoot page b) = getParentPageID page
      /\ getNextLeafPageID (setIsRoot page b) = getNextLeafPageID page).
Proof.
  intros L Hn Hid. unfold page_ok in L.
  split; [|split].
  - split; [|split; [|split]].
    + unfold getNumKeys, setNumKeys. rewrite getLE_putLE_same by (rewrite L; hlia).
      change (2 ^ (Z.of_nat 2 * 8)) with (2 ^ 16). now apply Z.mod_small.
    + unfold getParentPageID, setParentPageID.
      apply wrap64_getUint64_put; [exact Hid|rewrite L; hlia].
    + unfold getNextLeafPageID, setNextLeafPageID.
      apply wrap64_getUint64_put; [exact Hid|rewrite L; hlia].
    + unfold isRoot, setIsRoot. destruct b.
      * rewrite getByte_setByte by (rewrite ?L; hlia). reflexivity.
      * rewrite getByte_setByte by (rewrite ?L; hlia). reflexivity.
  - intros page' Hin. cbn [In] in Hin.
    assert (E : exists off w v, page' = putLE page off w v
                /\ 0 < off /\ off + Z.of_nat w <= headerSize).
    { destruct Hin as [<-|[<-|[<-|[<-|[]]]]].
      - exists numKeysOffset, 2%nat, n. split; [reflexivity|hlia].
      - exists parentPtrOffset, 8%nat, (uint64 id). split; [reflexivity|hlia].
      - exists nextLeafPtrOffset, 8%nat, (uint64 id). split; [reflexivity|hlia].
      - exists isRootOffset, 1%nat, (if b then 1 else 0).
        split; [destruct b; reflexivity|hlia]. }
    destruct E as (off & w & v & -> & H1 & H2).
    split; [|split].
    + unfold page_ok. rewrite length_putLE; [exact L|rewrite L; hlia].
    + unfold isLeaf, getByte. rewrite getLE_putLE_disjoint;
        [reflexivity|rewrite L; hlia|hlia].
    + unfold putLE. apply drop_storeBytes_before;
        rewrite ?length_le_split, ?L; hlia.
  - repeat split; header_disjoint L.
Qed.

(** ** Pages written and read back *)

Lemma ReadPage_ok p q (buf : list byte) :
  0 <= q < 2 ^ 51 - 1 -> q * PageSize < fileSize p ->
  q * PageSize + PageSize <= Z.of_nat (length (content (file p))) ->
  length buf = Z.to_nat PageSize ->
  fst (ReadPage p q buf)
  = (loadBytes (content (file p)) (Z.to_nat (q * PageSize))
               (Z.to_nat PageSize), None).
Proof.
  intros Hq Hf Hc Lb. unfold ReadPage. rewrite page_offset by exact Hq.
  destruct (q * PageSize >=? fileSize p) eqn:E; [lia|].
  unfold File_ReadAt.
  destruct (q * PageSize <? 0) eqn:E0; [hlia|].
  fold (loadBytes (content (file p)) (Z.to_nat (q * PageSize)) (length buf)).
  rewrite Lb.
  assert (Ld : length (loadBytes (content (file p))
                 (Z.to_nat (q * PageSize)) (Z.to_nat PageSize))
               = Z.to_nat PageSize) by (apply length_loadBytes; hlia).
  rewrite Ld.
  destruct (Z.to_nat PageSize <? Z.to_nat PageSize)%nat eqn:E1;
    [apply Nat.ltb_lt in E1; lia|].
  cbn [fst]. rewrite drop_ge by lia. rewrite app_nil_r. reflexivity.
Qed.

(** X4.  A page written under an id that starts inside the file or at its
    end reads back as written, whatever was in the buffer; the tracked
    size grows to the end of that page when the write extends the file;
    and every other page that could be read before the write reads as
    before. *)
Theorem WritePage_then_ReadPage p pageID (pageData buf : list byte) :
  0 <= pageID < 2 ^ 51 - 1 ->
  pageID * PageSize <= Z.of_nat (length (content (file p))) ->
  length pageData = Z.to_nat PageSize -> length buf = Z.to_nat PageSize ->
  exists p1,
    WritePage p pageID pageData = (None, p1)
    /\ fst (ReadPage p1 pageID buf) = (pageData, None)
    /\ fileSize p1 = Z.max (fileSize p) ((pageID + 1) * PageSize)
    /\ (forall q,
          0 <= q < 2 ^ 51 - 1 -> q <> pageID ->
          q * PageSize < fileSize p ->
          q * PageSize + PageSize <= Z.of_nat (length (content (file p))) ->
          fst (ReadPage p1 q buf) = fst (ReadPage p q buf)).
Proof.
  intros Hid _ Lp Lb.
  destruct (treeWrite_ok (mkTree p 0 0) pageID pageData Hid)
    as (t1 & W & C & F & _).
  unfold treeWrite in W. cbn [pager] in W, C, F.
  destruct (WritePage p pageID pageData) as [e p1] eqn:E.
  injection W as -> <-. cbn [pager] in C, F.
  exists p1. split; [reflexivity|].
  assert (Lc : pageID * PageSize + PageSize
               <= Z.of_nat (length (content (file p1))))
    by (rewrite C, length_pwrite, Lp; hlia).
  split; [|split].
  - rewrite ReadPage_ok; [|exact Hid|rewrite F; hlia|exact Lc|exact Lb].
    rewrite C, <- Lp. f_equal. apply load_pwrite_same.
  - rewrite F. hlia.
  - intros q Hq Hne Hf Hc.
    rewrite !ReadPage_ok; try assumption.
    + rewrite C. f_equal. apply load_pwrite_other; rewrite ?Lp; hlia.
    + rewrite F. lia.
    + rewrite C, length_pwrite. lia.
Qed.



(** ** A new tree *)

Lemma read_step t pageID :
  readable t pageID ->
  exists t1, treeRead t pageID = ((pageAt t pageID, None), t1)
             /\ only_reads t t1.
Proof.
  intros H. eexists. split; [apply treeRead_readable; exact H|].
  unfold only_reads. cbn. repeat split.
  eexists [_]. split; [reflexivity|]. repeat constructor.
Qed.

Lemma empty_leaf_searches t :
  readable t (rootPageID t) ->
  isLeaf (pageAt t (rootPageID t)) = true ->
  getNumKeys (pageAt t (rootPageID t)) = 0 ->
  getNextLeafPageID (pageAt t (rootPageID t)) = -1 ->
  (forall fuel key, fst (Search (S fuel) t key) = Ok (0, false))
  /\ (forall fuel startKey endKey,
        fst (SearchRange (S fuel) t startKey endKey) = Ok []).
Proof.
  intros R Lf N Nx.
  assert (R0 : 0 <= rootPageID t) by (destruct R; lia).
  destruct (read_step t _ R) as (t1 & E1 & O1).
  destruct (only_reads_readable t t1 _ O1 R) as (R1 & P1).
  destruct (read_step t1 _ R1) as (t2 & E2 & O2).
  split.
  - intros fuel key. unfold Search, findLeafPage. cbn [findLeafLoop].
    rewrite E1, Lf, E2, P1, N. reflexivity.
  - intros fuel a b. unfold SearchRange, findLeafPage.
    destruct (a >? b); [reflexivity|].
    cbn [findLeafLoop]. rewrite E1, Lf. cbn [walkLeaves].
    destruct (rootPageID t =? -1) eqn:E; [lia|].
    rewrite E2, P1, N. cbn [Z.to_nat scanLeafRange]. rewrite Nx.
    destruct fuel; reflexivity.
Qed.

(** X7.  [NewBPlusTree] on an empty file, for a degree of at least 3,
    writes one page and nothing else: page 0, a leaf marked as root, with
    no parent, no key and no next leaf.  In the tree it returns no key is
    found and every range is empty.  On a pager that already has pages it
    does no I/O at all, and a degree below 3 is the panic. *)
Theorem NewBPlusTree_on_empty_file deg :
  3 <= deg ->
  exists t,
    NewBPlusTree (NewPager emptyFile) deg = Some t
    /\ rootPageID t = 0 /\ degree t = deg
    /\ numPages (pager t) = 1 /\ fileSize (pager t) = PageSize
    /\ trace (file (pager t)) = [EvSync; EvWriteAt 0]
    /\ onDisk t 0 (pageAt t 0)
    /\ isLeaf (pageAt t 0) = true /\ isRoot (pageAt t 0) = true
    /\ getParentPageID (pageAt t 0) = -1
    /\ getNumKeys (pageAt t 0) = 0
    /\ getNextLeafPageID (pageAt t 0) = -1
    /\ (forall fuel key, fst (Search (S fuel) t key) = Ok (0, false))
    /\ (forall fuel startKey endKey,
          fst (SearchRange (S fuel) t startKey endKey) = Ok [])
    /\ (forall p, numPages p <> 0 ->
          NewBPlusTree p deg = Some (mkTree p 0 deg))
    /\ (forall p d, d < 3 -> NewBPlusTree p d = None).
Proof.
  intros H. unfold NewBPlusTree at 1.
  destruct (deg <? 3) eqn:E; [lia|].
  change (numPages (NewPager emptyFile) =? 0) with true. cbv zeta.
  match goal with |- context [WritePage ?p ?i ?pg] =>
    set (w := WritePage p i pg) end.
  assert (W : w = (fst w, snd w)) by (destruct w; reflexivity).
  rewrite W. eexists. split; [reflexivity|].
  set (t := mkTree (snd w) 0 deg).
  assert (R : readable t (rootPageID t)).
  { unfold readable, t. cbn [pager rootPageID]. conjs; eval_prop. }
  assert (P : pageAt t (rootPageID t) = pageAt t 0) by reflexivity.
  assert (F1 : isLeaf (pageAt t 0) = true)
    by (unfold pageAt, t; cbn [pager]; vm_compute; reflexivity).
  assert (F2 : getNumKeys (pageAt t 0) = 0)
    by (unfold pageAt, t; cbn [pager]; vm_compute; reflexivity).
  assert (F3 : getNextLeafPageID (pageAt t 0) = -1)
    by (unfold pageAt, t; cbn [pager]; vm_compute; reflexivity).
  destruct (empty_leaf_searches t R) as (S1 & S2);
    rewrite ?P; try assumption.
  split; [reflexivity|]. split; [reflexivity|].
  split; [unfold t; cbn [pager]; vm_compute; reflexivity|].
  split; [unfold t; cbn [pager]; vm_compute; reflexivity|].
  split; [unfold t; cbn [pager]; vm_compute; reflexivity|].
  split; [apply readable_onDisk; exact R|].
  split; [exact F1|].
  split; [unfold pageAt, t; cbn [pager]; vm_compute; reflexivity|].
  split; [unfold pageAt, t; cbn [pager]; vm_compute; reflexivity|].
  split; [exact F2|]. split; [exact F3|].
  split; [exact S1|]. split; [exact S2|].
  split.
  - intros p Hp. unfold NewBPlusTree. rewrite E.
    destruct (numPages p =? 0) eqn:E1; [lia|reflexivity].
  - intros p d Hd. unfold NewBPlusTree.
    destruct (d <? 3) eqn:E1; [reflexivity|lia].
Qed.

(** ** Entries of a leaf *)

Lemma pairsAt_lookup (page : list byte) : forall n off i,
  (i < n)%nat ->
  pairsAt page off n !! i
  = Some (wrap64 (getUint64 page (off + 16 * Z.of_nat i)),
          wrap64 (getUint64 page (off + 16 * Z.of_nat i + 8))).
Proof.
  induction n as [|n IH]; intros off i Hi; [lia|].
  cbn [pairsAt]. destruct i as [|i].
  - cbn. rewrite Z.add_0_r. reflexivity.
  - cbn [lookup list_lookup]. rewrite IH by lia.
    replace (off + 16 + 16 * Z.of_nat i) with (off + 16 * Z.of_nat (S i))
      by lia.
    reflexivity.
Qed.

Lemma lookup_insertAt {A} (l : list A) i x j :
  (i <= length l)%nat ->
  insertAt i x l !! j
  = if decide (j < i)%nat then l !! j
    else if decide (j = i) then Some x else l !! (j - 1)%nat.
Proof.
  intros Hi. unfold insertAt.
  case_decide as H1.
  - rewrite lookup_app_l by (rewrite length_take; lia).
    apply lookup_take_lt. exact H1.
  - rewrite lookup_app_r by (rewrite length_take; lia).
    rewrite length_take, Nat.min_l by lia.
    case_decide as H2.
    + subst j. rewrite Nat.sub_diag. reflexivity.
    + rewrite lookup_cons_ne_0 by lia. rewrite lookup_drop. f_equal. lia.
Qed.

Lemma placeIndex_le key es : (placeIndex key es <= length es)%nat.
Proof.
  induction es as [|[k v] es IH]; cbn; [lia|]. destruct (key >? k); cbn; lia.
Qed.

Lemma placeIndex_before key es j k v :
  (j < placeIndex key es)%nat -> es !! j = Some (k, v) -> k < key.
Proof.
  revert j. induction es as [|[k0 v0] es IH]; intros j Hj E; cbn in *; [lia|].
  destruct (key >? k0) eqn:G; [|lia].
  destruct j as [|j]; cbn in E.
  - injection E as -> ->. lia.
  - apply (IH j); [lia|exact E].
Qed.

Lemma placeIndex_at key es k v :
  es !! placeIndex key es = Some (k, v) -> key <= k.
Proof.
  induction es as [|[k0 v0] es IH]; cbn; [discriminate|].
  destruct (key >? k0) eqn:G; cbn.
  - exact IH.
  - intros [= -> ->]. lia.
Qed.

Lemma leafInsertIndex_place (page : list byte) key : forall n i,
  0 <= i ->
  headerSize + (i + Z.of_nat n) * 16 <= Z.of_nat (length page) ->
  leafInsertIndex page key i n
  = Some (i + Z.of_nat
                (placeIndex key (pairsAt page (headerSize + i * 16) n))).
Proof.
  induction n as [|n IH]; intros i Hi Hb; cbn [leafInsertIndex pairsAt placeIndex].
  - f_equal. lia.
  - rewrite readUint64_in by hlia. cbn [mbind option_bind].
    destruct (key >? wrap64 (getUint64 page (headerSize + i * 16))) eqn:G.
    + rewrite IH by lia.
      replace (headerSize + (i + 1) * 16) with (headerSize + i * 16 + 16)
        by lia.
      f_equal. lia.
    + f_equal. lia.
Qed.

Lemma searchLeaf_lookup (page : list byte) key : forall n i,
  0 <= i ->
  headerSize + (i + Z.of_nat n) * 16 <= Z.of_nat (length page) ->
  searchLeaf page key i n
  = Some (lookupEntry key (pairsAt page (headerSize + i * 16) n)).
Proof.
  induction n as [|n IH]; intros i Hi Hb; cbn [searchLeaf pairsAt lookupEntry];
    [reflexivity|].
  replace (8 + 8) with 16 by reflexivity.
  rewrite !readUint64_in by hlia. cbn [mbind option_bind].
  destruct (wrap64 (getUint64 page (headerSize + i * 16)) =? key).
  - reflexivity.
  - rewrite IH by lia.
    replace (headerSize + (i + 1) * 16) with (headerSize + i * 16 + 16)
      by lia.
    reflexivity.
Qed.

Lemma hasKey_lookup (page : list byte) key : forall n i,
  0 <= i ->
  headerSize + (i + Z.of_nat n) * 16 <= Z.of_nat (length page) ->
  hasKey page key i n
  = Some (snd (lookupEntry key (pairsAt page (headerSize + i * 16) n))).
Proof.
  induction n as [|n IH]; intros i Hi Hb; cbn [hasKey pairsAt lookupEntry];
    [reflexivity|].
  rewrite readUint64_in by hlia. cbn [mbind option_bind].
  destruct (wrap64 (getUint64 page (headerSize + i * 16)) =? key);
    [reflexivity|].
  rewrite IH by lia.
  replace (headerSize + (i + 1) * 16) with (headerSize + i * 16 + 16) by lia.
  reflexivity.
Qed.

Lemma lookupEntry_absent key es :
  key ∉ es.*1 -> lookupEntry key es = (0, false).
Proof.
  induction es as [|[k v] es IH]; cbn; [reflexivity|].
  intros H. rewrite not_elem_of_cons in H. destruct H as (H1 & H2).
  destruct (k =? key) eqn:E; [lia|]. now apply IH.
Qed.

Lemma lookupEntry_found key es :
  snd (lookupEntry key es) = true -> key ∈ es.*1.
Proof.
  induction es as [|[k v] es IH]; cbn; [discriminate|].
  destruct (k =? key) eqn:E.
  - intros _. apply Z.eqb_eq in E. subst. left.
  - intros H. right. now apply IH.
Qed.

Lemma lookupEntry_placeEntry_same key value es :
  lookupEntry key (placeEntry key value es) = (value, true).
Proof.
  unfold placeEntry, insertAt.
  induction es as [|[k v] es IH]; cbn.
  - rewrite Z.eqb_refl. reflexivity.
  - destruct (key >? k) eqn:G; cbn.
    + destruct (k =? key) eqn:E; [lia|]. exact IH.
    + rewrite Z.eqb_refl. reflexivity.
Qed.

Lemma lookupEntry_placeEntry_other key value es key' :
  key' <> key ->
  lookupEntry key' (placeEntry key value es) = lookupEntry key' es.
Proof.
  intros Hne. unfold placeEntry, insertAt.
  induction es as [|[k v] es IH]; cbn.
  - destruct (key =? key') eqn:E; [lia|reflexivity].
  - destruct (key >? k) eqn:G; cbn.
    + destruct (k =? key'); [reflexivity|]. exact IH.
    + destruct (key =? key') eqn:E; [lia|]. reflexivity.
Qed.

Lemma placeEntry_insertBefore key value es :
  key ∉ es.*1 -> placeEntry key value es = insertBefore key value es.
Proof.
  unfold placeEntry, insertAt.
  induction es as [|[k v] es IH]; cbn; [reflexivity|].
  intros H. rewrite not_elem_of_cons in H. destruct H as (H1 & H2).
  destruct (key >? k) eqn:G; destruct (key <? k) eqn:G'; try lia; cbn.
  - f_equal. now apply IH.
  - reflexivity.
Qed.

Lemma getUint64_copy_inside (p : list byte) d s m o :
  (s + m <= length p)%nat -> (d + m <= length p)%nat ->
  Z.of_nat d <= o -> o + 8 <= Z.of_nat (d + m) ->
  getUint64 (storeBytes p d (loadBytes p s m)) o
  = getUint64 p (o - Z.of_nat d + Z.of_nat s).
Proof.
  intros Hs Hd H1 H2. unfold getUint64, getLE.
  assert (Lm : length (loadBytes p s m) = m) by (apply length_loadBytes; lia).
  rewrite load_store_inside by (rewrite ?Lm; lia).
  rewrite loadBytes_loadBytes by lia.
  do 2 f_equal. lia.
Qed.

Lemma getLE_storeBytes_after (p : list byte) d (bs : list byte) o w :
  (d + length bs <= length p)%nat -> Z.of_nat (d + length bs) <= o ->
  getLE (storeBytes p d bs) o w = getLE p o w.
Proof.
  intros H1 H2. apply getLE_storeBytes_disjoint; [exact H1|]. right. lia.
Qed.

Lemma insertIntoLeaf_image (page : list byte) key value :
  page_ok page ->
  headerSize + (getNumKeys page + 1) * 16 <= PageSize ->
  is_int64 key -> is_int64 value ->
  exists page',
    insertIntoLeaf page key value = Some page'
    /\ page_ok page'
    /\ getNumKeys page' = getNumKeys page + 1
    /\ leafEntries page' = placeEntry key value (leafEntries page)
    /\ isLeaf page' = isLeaf page
    /\ isRoot page' = isRoot page
    /\ getParentPageID page' = getParentPageID page
    /\ getNextLeafPageID page' = getNextLeafPageID page.
Proof.
  intros L Hfit Hk Hv. unfold page_ok in L.
  pose proof (getNumKeys_nonneg page) as Hn.
  set (n := getNumKeys page) in *.
  set (es := leafEntries page).
  set (idx := placeIndex key es).
  assert (Les : length es = Z.to_nat n) by apply length_pairsAt.
  assert (Hidx : (idx <= Z.to_nat n)%nat)
    by (rewrite <- Les; apply placeIndex_le).
  unfold insertIntoLeaf. fold n.
  rewrite (leafInsertIndex_place page key (Z.to_nat n) 0)
    by (rewrite ?L; hlia).
  replace (headerSize + 0 * 16) with headerSize by lia.
  change (pairsAt page headerSize (Z.to_nat n)) with es. fold idx.
  cbn [mbind option_bind]. rewrite Z.add_0_l.
  set (I := Z.of_nat idx).
  assert (HI : 0 <= I <= n) by (subst I; lia).
  unfold copyWithin.
  match goal with |- context [if ?c then _ else _] => destruct c eqn:B end;
    [|rewrite !andb_false_iff, !Z.leb_gt in B; rewrite L in B; hlia].
  cbn [mbind option_bind].
  replace (Z.to_nat (Z.min (Z.of_nat (length page)
                              - (headerSize + (I + 1) * 16))
                           (headerSize + n * 16 - (headerSize + I * 16))))
    with (Z.to_nat ((n - I) * 16)) by (rewrite L; hlia).
  set (d := Z.to_nat (headerSize + (I + 1) * 16)).
  set (s := Z.to_nat (headerSize + I * 16)).
  set (m := Z.to_nat ((n - I) * 16)).
  set (C := storeBytes page d (loadBytes page s m)).
  assert (Lm : length (loadBytes page s m) = m)
    by (apply length_loadBytes; subst s m; rewrite L; hlia).
  assert (LC : length C = Z.to_nat PageSize).
  { unfold C. rewrite length_storeBytes; [exact L|].
    rewrite Lm. subst d m. rewrite L. hlia. }
  set (ks := headerSize + I * 16).
  rewrite writeUint64_in by (rewrite ?LC; subst ks; hlia).
  cbn [mbind option_bind].
  set (C1 := putUint64 C ks (uint64 key)).
  assert (L1 : length C1 = Z.to_nat PageSize)
    by (unfold C1; rewrite length_putUint64; rewrite ?LC; subst ks; hlia).
  rewrite writeUint64_in by (rewrite ?L1; subst ks; hlia).
  cbn [mbind option_bind].
  set (C2 := putUint64 C1 (ks + 8) (uint64 value)).
  assert (L2 : length C2 = Z.to_nat PageSize)
    by (unfold C2; rewrite length_putUint64; rewrite ?L1; subst ks; hlia).
  set (P := setNumKeys C2 (uint16 (n + 1))).
  assert (LP : length P = Z.to_nat PageSize)
    by (unfold P, setNumKeys; rewrite length_putLE; rewrite ?L2; hlia).
  assert (NP : getNumKeys P = n + 1)
    by (apply getNumKeys_setNumKeys; [rewrite L2|]; hlia).
  assert (Hd : Z.of_nat d = ks + 16) by (subst d ks; hlia).
  assert (Hs : Z.of_nat s = ks) by (subst s ks; hlia).
  assert (Hm : Z.of_nat m = (n - I) * 16) by (subst m; hlia).
  assert (Hks : headerSize <= ks /\ ks + 16 <= PageSize) by (subst ks; hlia).
  (* the header *)
  assert (Hdr : forall off w,
            0 <= off -> off + Z.of_nat w <= headerSize ->
            (off + Z.of_nat w <= numKeysOffset \/ numKeysOffset + 2 <= off) ->
            getLE P off w = getLE page off w).
  { intros off w H1 H2 H3. unfold P, setNumKeys.
    rewrite getLE_putLE_disjoint by (rewrite ?L2; hlia).
    unfold C2, putUint64.
    rewrite getLE_putLE_disjoint by (rewrite ?L1; hlia).
    unfold C1, putUint64.
    rewrite getLE_putLE_disjoint by (rewrite ?LC; hlia).
    unfold C. apply getLE_storeBytes_disjoint; rewrite ?Lm, ?L; hlia. }
  (* the slots of the payload *)
  assert (G : forall o, headerSize <= o -> o + 8 <= PageSize ->
            o + 8 <= ks \/ ks + 16 <= o ->
            getUint64 P o = getUint64 C o).
  { intros o H1 H2 H3. unfold P.
    rewrite getUint64_setNumKeys by (rewrite ?L2; hlia).
    unfold C2. rewrite getUint64_putUint64_other by (rewrite ?L1; hlia).
    unfold C1. rewrite getUint64_putUint64_other by (rewrite ?LC; hlia).
    reflexivity. }
  assert (S1 : forall o, headerSize <= o -> o + 8 <= ks ->
            getUint64 P o = getUint64 page o).
  { intros o H1 H2. rewrite G by hlia. unfold C.
    apply getUint64_storeBytes_before; rewrite ?Lm, ?L; hlia. }
  assert (S2 : getUint64 P ks = uint64 key).
  { unfold P. rewrite getUint64_setNumKeys by (rewrite ?L2; hlia).
    unfold C2. rewrite getUint64_putUint64_other by (rewrite ?L1; hlia).
    unfold C1. rewrite getUint64_putUint64_same by (rewrite ?LC; hlia).
    unfold uint64. apply Z.mod_mod. lia. }
  assert (S3 : getUint64 P (ks + 8) = uint64 value).
  { unfold P. rewrite getUint64_setNumKeys by (rewrite ?L2; hlia).
    unfold C2. rewrite getUint64_putUint64_same by (rewrite ?L1; hlia).
    unfold uint64. apply Z.mod_mod. lia. }
  assert (S4 : forall o, ks + 16 <= o -> o + 8 <= headerSize + (n + 1) * 16 ->
            getUint64 P o = getUint64 page (o - 16)).
  { intros o H1 H2. rewrite G by hlia. unfold C.
    rewrite getUint64_copy_inside by (rewrite ?L; hlia).
    f_equal. lia. }
  exists P. split; [reflexivity|]. split; [exact LP|]. split; [exact NP|].
  split.
  - unfold leafEntries. rewrite NP. fold (leafEntries page). fold es.
    unfold placeEntry. fold idx.
    apply (list_eq_same_length _ _ (Z.to_nat (n + 1))).
    + unfold insertAt. rewrite length_app, length_take. cbn [length].
      rewrite length_drop. lia.
    + apply length_pairsAt.
    + intros i x y Hi. rewrite pairsAt_lookup by exact Hi.
      rewrite lookup_insertAt by lia.
      intros [= <-].
      case_decide as D1; [|case_decide as D2].
      * unfold es, leafEntries. fold n.
        rewrite pairsAt_lookup by lia. intros [= <-].
        rewrite !S1 by (subst ks I; hlia). reflexivity.
      * intros [= <-]. subst i.
        replace (headerSize + 16 * Z.of_nat idx) with ks by (subst ks I; lia).
        rewrite S2, S3. f_equal; now apply wrap64_of_uint64.
      * unfold es, leafEntries. fold n.
        rewrite pairsAt_lookup by lia. intros [= <-].
        rewrite !S4 by (subst ks I; hlia).
        do 2 f_equal; f_equal; lia.
  - unfold isLeaf, isRoot, getByte, getParentPageID, getNextLeafPageID,
      getUint64.
    rewrite !Hdr by hlia. auto.
Qed.

(** X8.  [insertIntoLeaf] on a page with room for one more entry: the new
    entry goes in front of the first entry whose key is not smaller, the
    entries behind it move up by one, the key count grows by one and the
    rest of the header is kept.  Read back, the page gives the new offset
    for the new key and what it gave before for every other key; and keys
    that were strictly increasing stay so when the key is new. *)
Theorem insertIntoLeaf_spec (page : list byte) key value :
  page_ok page ->
  headerSize + (getNumKeys page + 1) * 16 <= PageSize ->
  is_int64 key -> is_int64 value ->
  exists page',
    insertIntoLeaf page key value = Some page'
    /\ page_ok page'
    /\ getNumKeys page' = getNumKeys page + 1
    /\ leafEntries page' = placeEntry key value (leafEntries page)
    /\ (isLeaf page', isRoot page', getParentPageID page',
        getNextLeafPageID page')
       = (isLeaf page, isRoot page, getParentPageID page,
          getNextLeafPageID page)
    /\ (forall k,
          searchLeaf page' k 0 (Z.to_nat (getNumKeys page'))
          = Some (if k =? key then (value, true)
                  else lookupEntry k (leafEntries page)))
    /\ (StronglySorted Z.lt (leafEntries page).*1 ->
        key ∉ (leafEntries page).*1 ->
        StronglySorted Z.lt (leafEntries page').*1).
Proof.
  intros L Hfit Hk Hv.
  destruct (insertIntoLeaf_image page key value L Hfit Hk Hv)
    as (page' & E & L' & N & Es & H1 & H2 & H3 & H4).
  pose proof (getNumKeys_nonneg page) as Hn.
  exists page'. split; [exact E|]. split; [exact L'|]. split; [exact N|].
  split; [exact Es|]. split; [congruence|]. split.
  - intros k.
    rewrite (searchLeaf_lookup page' k _ 0)
      by (rewrite ?L', ?N, ?Z2Nat.id; hlia).
    replace (headerSize + 0 * 16) with headerSize by lia.
    fold (leafEntries page'). rewrite Es. f_equal.
    destruct (k =? key) eqn:G.
    + apply Z.eqb_eq in G. subst k. apply lookupEntry_placeEntry_same.
    + apply lookupEntry_placeEntry_other. lia.
  - intros Hs Hnew. rewrite Es, placeEntry_insertBefore by exact Hnew.
    now apply insertBefore_sorted.
Qed.

(** ** An insert that does not split, and the searches after it *)

Lemma treeRead_fst t id :
  fst (treeRead t id)
  = let o := wrap64 (id * PageSize) in
    if o >=? fileSize (pager t)
    then (new_Page, Some (ErrReadPastEnd id o (fileSize (pager t))))
    else if o <? 0 then (new_Page, Some ErrNegativeOffset)
    else
      let data := take (length new_Page)
                       (drop (Z.to_nat o) (content (file (pager t)))) in
      (data ++ drop (length data) new_Page,
       if (length data <? length new_Page)%nat then Some ErrEOF else None).
Proof.
  unfold treeRead, ReadPage, File_ReadAt. cbv zeta.
  repeat match goal with |- context [if ?c then _ else _] => destruct c end;
    reflexivity.
Qed.

Lemma chunk_pwrite_other (c b : list byte) L q :
  0 <= L -> 0 <= q -> q <> L ->
  length b = Z.to_nat PageSize ->
  L * PageSize + PageSize <= Z.of_nat (length c) ->
  take (Z.to_nat PageSize)
       (drop (Z.to_nat (q * PageSize)) (pwrite c (Z.to_nat (L * PageSize)) b))
  = take (Z.to_nat PageSize) (drop (Z.to_nat (q * PageSize)) c).
Proof.
  intros HL Hq Hne Lb Hc. apply list_eq. intros i.
  destruct (decide (i < Z.to_nat PageSize)%nat) as [Hi|Hi].
  - rewrite !lookup_take_lt by exact Hi. rewrite !lookup_drop.
    rewrite lookup_pwrite. rewrite Lb.
    repeat case_decide; try reflexivity; hlia.
  - rewrite !lookup_take_ge by lia. reflexivity.
Qed.

Lemma write_sameBut t L (page' : list byte) t' :
  readable t L -> covers (pager t) ->
  length page' = Z.to_nat PageSize ->
  treeWrite t L page' = (None, t') ->
  sameBut (L * PageSize) (pageAt t L) page' t t'.
Proof.
  intros (R1 & R2 & R3) Cv Lp W. unfold covers in Cv.
  destruct (treeWrite_ok t L page' R1) as (t'' & W' & C & F & _).
  rewrite W in W'. injection W' as <-.
  assert (F' : fileSize (pager t') = fileSize (pager t)) by (rewrite F; lia).
  assert (Ln : length new_Page = Z.to_nat PageSize) by apply length_new_Page.
  intros id. rewrite !treeRead_fst. cbv zeta. rewrite F', C, Ln.
  destruct (wrap64_page_multiple id) as (q & Hq). rewrite Hq.
  split.
  - intros Ho. assert (q = L) by hlia. subst q.
    destruct (L * PageSize >=? fileSize (pager t)) eqn:E1; [lia|].
    destruct (L * PageSize <? 0) eqn:E2; [hlia|].
    fold (loadBytes (content (file (pager t))) (Z.to_nat (L * PageSize))
                    (Z.to_nat PageSize)).
    fold (pageAt t L).
    fold (loadBytes (pwrite (content (file (pager t)))
                            (Z.to_nat (L * PageSize)) page')
                    (Z.to_nat (L * PageSize)) (Z.to_nat PageSize)).
    assert (Ew : loadBytes (pwrite (content (file (pager t)))
                                   (Z.to_nat (L * PageSize)) page')
                           (Z.to_nat (L * PageSize)) (Z.to_nat PageSize)
                 = page') by (rewrite <- Lp; apply load_pwrite_same).
    rewrite Ew.
    assert (La : length (pageAt t L) = Z.to_nat PageSize)
      by (apply length_pageAt; repeat split; lia).
    rewrite La, Lp. rewrite drop_ge by lia. rewrite !app_nil_r.
    destruct (Z.to_nat PageSize <? Z.to_nat PageSize)%nat eqn:E3;
      [apply Nat.ltb_lt in E3; lia|].
    split; reflexivity.
  - intros Ho.
    destruct (q * PageSize >=? fileSize (pager t)) eqn:E1; [reflexivity|].
    destruct (q * PageSize <? 0) eqn:E2; [reflexivity|].
    rewrite chunk_pwrite_other by (try assumption; hlia). reflexivity.
Qed.

Lemma sameBut_reads o (old new : list byte) t t' t1 t1' :
  sameBut o old new t t' -> only_reads t t1 -> only_reads t' t1' ->
  sameBut o old new t1 t1'.
Proof.
  intros H O O' id. rewrite (treeRead_after_reads t t1 id O).
  rewrite (treeRead_after_reads t' t1' id O'). apply H.
Qed.

Lemma findLeafLoop_sameBut o (old new : list byte) :
  isLeaf old = true -> isLeaf new = true ->
  forall fuel t t' key id,
    sameBut o old new t t' ->
    fst (findLeafLoop fuel t' key id) = fst (findLeafLoop fuel t key id)
    /\ sameBut o old new (snd (findLeafLoop fuel t key id))
                         (snd (findLeafLoop fuel t' key id)).
Proof.
  intros Lo Ln. induction fuel as [|fuel IH]; intros t t' key id H;
    cbn [findLeafLoop]; [split; [reflexivity|exact H]|].
  destruct (treeRead t id) as [[pg e] t1] eqn:R.
  destruct (treeRead t' id) as [[pg' e'] t1'] eqn:R'.
  pose proof (treeRead_only_reads _ _ _ _ R) as O.
  pose proof (treeRead_only_reads _ _ _ _ R') as O'.
  pose proof (sameBut_reads _ _ _ _ _ _ _ H O O') as H1.
  destruct (H id) as (Heq & Hne). rewrite R, R' in Heq, Hne. cbn [fst] in *.
  destruct (decide (wrap64 (id * PageSize) = o)) as [E|E].
  - destruct (Heq E) as ([= -> ->] & [= -> ->]). rewrite Lo, Ln.
    split; [reflexivity|exact H1].
  - specialize (Hne E). injection Hne as -> ->.
    destruct e as [e|]; [split; [reflexivity|exact H1]|].
    destruct (isLeaf pg); [split; [reflexivity|exact H1]|].
    match goal with |- context [match ?m with Some _ => _ | None => _ end]
      => destruct m end; [|split; [reflexivity|exact H1]].
    apply IH. exact H1.
Qed.

Lemma sameBut_reads_back o (old new : list byte) t t2 t' :
  sameBut o old new t2 t' -> only_reads t t2 -> sameBut o old new t t'.
Proof.
  intros H O id. rewrite <- (treeRead_after_reads t t2 id O). apply H.
Qed.

Lemma Search_sameBut o (old new : list byte) key :
  isLeaf old = true -> isLeaf new = true ->
  searchLeaf new key 0 (Z.to_nat (getNumKeys new))
  = searchLeaf old key 0 (Z.to_nat (getNumKeys old)) ->
  forall fuel t t',
    sameBut o old new t t' -> rootPageID t' = rootPageID t ->
    fst (Search fuel t' key) = fst (Search fuel t key).
Proof.
  intros Lo Ln Hs fuel t t' H Hr. unfold Search, findLeafPage. rewrite Hr.
  destruct (findLeafLoop_sameBut o old new Lo Ln fuel t t' key (rootPageID t) H)
    as (E1 & H1).
  destruct (findLeafLoop fuel t key (rootPageID t)) as [r t1].
  destruct (findLeafLoop fuel t' key (rootPageID t)) as [r' t1'].
  cbn [fst snd] in E1, H1. subst r'.
  destruct r as [id|e| |]; try reflexivity.
  destruct (H1 id) as (Heq & Hne).
  destruct (treeRead t1 id) as [[pg e] t2].
  destruct (treeRead t1' id) as [[pg' e'] t2']. cbn [fst] in *.
  destruct (decide (wrap64 (id * PageSize) = o)) as [E|E].
  - destruct (Heq E) as ([= -> ->] & [= -> ->]). rewrite Hs.
    destruct (searchLeaf old key 0 (Z.to_nat (getNumKeys old))); reflexivity.
  - specialize (Hne E). injection Hne as -> ->.
    destruct e as [e|]; [reflexivity|].
    destruct (searchLeaf pg key 0 (Z.to_nat (getNumKeys pg))); reflexivity.
Qed.

Lemma Search_sameBut_at o (old new : list byte) key r :
  isLeaf old = true -> isLeaf new = true ->
  searchLeaf new key 0 (Z.to_nat (getNumKeys new)) = Some r ->
  forall fuel t t' leafPageID,
    sameBut o old new t t' -> rootPageID t' = rootPageID t ->
    fst (findLeafPage fuel t key) = Ok leafPageID ->
    wrap64 (leafPageID * PageSize) = o ->
    fst (Search fuel t' key) = Ok r.
Proof.
  intros Lo Ln Hs fuel t t' L H Hr Hf Ho. unfold Search, findLeafPage in *.
  rewrite Hr.
  destruct (findLeafLoop_sameBut o old new Lo Ln fuel t t' key (rootPageID t) H)
    as (E1 & H1).
  destruct (findLeafLoop fuel t key (rootPageID t)) as [r0 t1].
  destruct (findLeafLoop fuel t' key (rootPageID t)) as [r' t1'].
  cbn [fst snd] in E1, H1, Hf. subst r' r0.
  destruct (H1 L) as (Heq & _). destruct (Heq Ho) as (_ & E).
  destruct (treeRead t1' L) as [[pg' e'] t2']. cbn [fst] in E.
  injection E as -> ->. rewrite Hs. reflexivity.
Qed.

(** X9.  An insert that finds room in the leaf its descent reaches (the
    leaf has fewer than [degree - 1] keys, the key is not among them, and
    one more entry fits the page) succeeds; afterwards the leaf holds the
    entries it held with the new one in place, [Search] of the new key
    gives the new offset, and [Search] of any other key gives what it gave
    before the insert. *)
Theorem Insert_then_Search fuel t key value leafPageID t1 :
  findLeafPage fuel t key = (Ok leafPageID, t1) ->
  readable t leafPageID -> covers (pager t) ->
  getNumKeys (pageAt t leafPageID) < degree t - 1 ->
  headerSize + (getNumKeys (pageAt t leafPageID) + 1) * 16 <= PageSize ->
  key ∉ (leafEntries (pageAt t leafPageID)).*1 ->
  is_int64 key -> is_int64 value ->
  exists t',
    Insert fuel t key value = (Ok tt, t')
    /\ onDisk t' leafPageID (pageAt t' leafPageID)
    /\ leafEntries (pageAt t' leafPageID)
       = placeEntry key value (leafEntries (pageAt t leafPageID))
    /\ fst (Search fuel t' key) = Ok (value, true)
    /\ (forall fuel' key',
          key' <> key ->
          fst (Search fuel' t' key') = fst (Search fuel' t key')).
Proof.
  intros Hf R Cv Hn Hfit Hnew Hk Hv.
  pose proof Hf as Hf0. unfold findLeafPage in Hf0.
  pose proof (findLeafLoop_only_reads _ _ _ _ _ _ Hf0) as O1.
  destruct (findLeafLoop_reaches_leaf _ _ _ _ _ _ Hf0) as (leafPage & Hr & Lf).
  destruct (only_reads_readable t t1 _ O1 R) as (R1 & P1).
  destruct (read_step t1 _ R1) as (t2 & E2 & O2).
  rewrite E2 in Hr. cbn [fst] in Hr. injection Hr as <-. rewrite P1 in *.
  set (old := pageAt t leafPageID) in *.
  assert (Lo : page_ok old) by (apply length_pageAt; exact R).
  pose proof (getNumKeys_nonneg old) as Hn0.
  destruct (insertIntoLeaf_image old key value Lo Hfit Hk Hv)
    as (new & I & Ln & N & Es & Il & _).
  assert (O12 : only_reads t t2) by (eapply only_reads_trans; eauto).
  destruct (only_reads_readable t t2 _ O12 R) as (R2 & P2).
  pose proof R as (Rb & _).
  destruct (treeWrite_ok t2 leafPageID new Rb)
    as (t3 & W & C3 & F3 & N3 & R3 & D3).
  assert (Cv2 : covers (pager t2)).
  { destruct O12 as (Oc & Of & _). unfold covers. rewrite Oc, Of. exact Cv. }
  pose proof (write_sameBut t2 leafPageID new t3 R2 Cv2 Ln W) as SB.
  rewrite P2 in SB. fold old in SB.
  apply (sameBut_reads_back _ _ _ t) in SB; [|exact O12].
  assert (Rt : rootPageID t3 = rootPageID t)
    by (rewrite R3; destruct O12 as (_ & _ & _ & Q & _); exact Q).
  destruct (treeWrite_same t2 leafPageID new t3 Rb Ln W) as (R3' & P3).
  exists t3. split; [|split; [|split; [|split]]].
  - unfold Insert. rewrite Hf, E2. fold old.
    rewrite (hasKey_lookup old key _ 0) by (rewrite ?Lo, ?Z2Nat.id; hlia).
    replace (headerSize + 0 * 16) with headerSize by lia.
    fold (leafEntries old). rewrite lookupEntry_absent by exact Hnew.
    cbn [snd].
    replace (degree t2) with (degree t)
      by (destruct O12 as (_ & _ & _ & _ & Q & _); symmetry; exact Q).
    destruct (getNumKeys old <? degree t - 1) eqn:G; [|lia].
    rewrite I, W. reflexivity.
  - apply readable_onDisk. exact R3'.
  - rewrite P3. exact Es.
  - apply (Search_sameBut_at (leafPageID * PageSize) old new key (value, true)
             Lf) with (t := t) (leafPageID := leafPageID);
      try assumption.
    + congruence.
    + rewrite (searchLeaf_lookup new key _ 0)
        by (rewrite ?Ln, ?N, ?Z2Nat.id; hlia).
      replace (headerSize + 0 * 16) with headerSize by lia.
      fold (leafEntries new). rewrite Es.
      f_equal. apply lookupEntry_placeEntry_same.
    + rewrite Hf. reflexivity.
    + apply page_offset. exact Rb.
  - intros fuel' key' Hne.
    apply (Search_sameBut (leafPageID * PageSize) old new key' Lf);
      try assumption; [congruence|].
    rewrite (searchLeaf_lookup new key' _ 0)
      by (rewrite ?Ln, ?N, ?Z2Nat.id; hlia).
    rewrite (searchLeaf_lookup old key' _ 0)
      by (rewrite ?Lo, ?Z2Nat.id; hlia).
    replace (headerSize + 0 * 16) with headerSize by lia.
    fold (leafEntries new). fold (leafEntries old). rewrite Es.
    f_equal. now apply lookupEntry_placeEntry_other.
Qed.

(** ** Search in a well-formed tree *)

Lemma readableb_readable t id :
  readableb (content (file (pager t))) (fileSize (pager t)) id = true ->
  readable t id.
Proof.
  unfold readableb, readable.
  rewrite !andb_true_iff, !Z.leb_le, !Z.ltb_lt. tauto.
Qed.

Lemma increasing_sorted ks : increasing ks = true -> StronglySorted Z.lt ks.
Proof.
  induction ks as [|k ks IH]; [constructor|].
  cbn [increasing]. destruct ks as [|k' ks'].
  - intros _. repeat constructor.
  - rewrite andb_true_iff, Z.ltb_lt. intros (H1 & H2).
    specialize (IH H2). constructor; [exact IH|].
    constructor; [exact H1|].
    apply StronglySorted_inv in IH. destruct IH as (_ & IH).
    eapply Forall_impl; [exact IH|]. cbn. intros; lia.
Qed.

Lemma scanSeparators_childIndex (page : list byte) key : forall n i,
  0 <= i ->
  headerSize + 8 + (i + Z.of_nat n) * 16 <= Z.of_nat (length page) ->
  scanSeparators page key i n
  = Some (i + Z.of_nat
                (childIndex key (pairsAt page (headerSize + 8 + i * 16) n).*1)).
Proof.
  induction n as [|n IH]; intros i Hi Hb;
    cbn [scanSeparators pairsAt childIndex fmap list_fmap fst].
  - f_equal. lia.
  - replace (8 + 8) with 16 by reflexivity.
    replace (headerSize + i * 16 + 8) with (headerSize + 8 + i * 16) by lia.
    rewrite readUint64_in by hlia. cbn [mbind option_bind].
    destruct (key <? wrap64 (getUint64 page (headerSize + 8 + i * 16))).
    + f_equal. lia.
    + rewrite IH by lia.
      replace (headerSize + 8 + (i + 1) * 16)
        with (headerSize + 8 + i * 16 + 16) by lia.
      f_equal. lia.
Qed.

Lemma childIndex_le key ks : (childIndex key ks <= length ks)%nat.
Proof.
  induction ks as [|k ks IH]; cbn; [lia|]. destruct (key <? k); cbn; lia.
Qed.

Lemma internalPointers_lookup (page : list byte) i :
  (i <= Z.to_nat (getNumKeys page))%nat ->
  internalPointers page !! i
  = Some (wrap64 (getUint64 page (headerSize + Z.of_nat i * 16))).
Proof.
  intros Hi. unfold internalPointers, internalPairs.
  destruct i as [|i]; [reflexivity|].
  rewrite lookup_cons_ne_0 by lia. cbn [Nat.pred].
  rewrite list_lookup_fmap, pairsAt_lookup by lia. cbn.
  do 3 f_equal. lia.
Qed.

Lemma entriesOf_app c l1 l2 :
  entriesOf c (l1 ++ l2) = entriesOf c l1 ++ entriesOf c l2.
Proof. unfold entriesOf. apply flat_map_app. Qed.

Lemma sorted_app (l1 l2 : list Z) :
  StronglySorted Z.lt l1 -> StronglySorted Z.lt l2 ->
  (forall x y, x ∈ l1 -> y ∈ l2 -> x < y) ->
  StronglySorted Z.lt (l1 ++ l2).
Proof.
  induction l1 as [|a l1 IH]; intros S1 S2 H; [exact S2|].
  apply StronglySorted_inv in S1. destruct S1 as (S1 & F1).
  cbn. constructor.
  - apply IH; [exact S1|exact S2|].
    intros x y Hx Hy. apply H; [now right|exact Hy].
  - apply Forall_app. split; [exact F1|].
    apply Forall_forall. intros y Hy. apply H; [left|exact Hy].
Qed.

Lemma inRange_spec lo hi k :
  inRange lo hi k = true
  <-> match lo with Some l => l <= k | None => True end
      /\ match hi with Some h => k < h | None => True end.
Proof.
  unfold inRange. rewrite andb_true_iff.
  destruct lo, hi; rewrite ?Z.leb_le, ?Z.ltb_lt; tauto.
Qed.

Lemma inOpen_spec lo hi k :
  inOpen lo hi k = true
  <-> match lo with Some l => l < k | None => True end
      /\ match hi with Some h => k < h | None => True end.
Proof.
  unfold inOpen. rewrite andb_true_iff.
  destruct lo, hi; rewrite ?Z.ltb_lt; tauto.
Qed.

Lemma keysOk_app lo k hi es1 es2 :
  inOpen lo hi k = true ->
  keysOk lo (Some k) es1 -> keysOk (Some k) hi es2 ->
  keysOk lo hi (es1 ++ es2).
Proof.
  intros Ho (S1 & F1) (S2 & F2). apply inOpen_spec in Ho.
  rewrite Forall_forall in F1, F2. unfold keysOk. rewrite fmap_app. split.
  - apply sorted_app; [exact S1|exact S2|].
    intros x y Hx Hy. apply F1, inRange_spec in Hx. apply F2, inRange_spec in Hy.
    cbn in *. lia.
  - apply Forall_app. split; apply Forall_forall; intros x Hx.
    + apply F1, inRange_spec in Hx. apply inRange_spec.
      destruct lo, hi; cbn in *; lia.
    + apply F2, inRange_spec in Hx. apply inRange_spec.
      destruct lo, hi; cbn in *; lia.
Qed.

Lemma children_keysOk c fs h hi :
  (forall id lo hi, checkSub h c fs id lo hi = true ->
                    keysOk lo hi (entriesOf c (leavesSub h c id))) ->
  forall ps ks lo,
    checkChildren (checkSub h c fs) lo ks ps hi = true ->
    keysOk lo hi (entriesOf c (flat_map (leavesSub h c) ps)).
Proof.
  intros IH. induction ps as [|p ps IHps]; intros ks lo; cbn [checkChildren];
    [discriminate|].
  destruct ks as [|k ks].
  - destruct ps; [|discriminate]. intros H. cbn [flat_map].
    rewrite app_nil_r. now apply IH.
  - rewrite !andb_true_iff. intros ((Ho & Hp) & Hr).
    cbn [flat_map]. rewrite entriesOf_app.
    apply (keysOk_app lo k hi); [exact Ho|now apply IH|].
    now apply (IHps ks).
Qed.

Lemma checkSub_keysOk c fs : forall h id lo hi,
  checkSub h c fs id lo hi = true ->
  keysOk lo hi (entriesOf c (leavesSub h c id)).
Proof.
  induction h as [|h IH]; intros id lo hi; cbn [checkSub leavesSub].
  - rewrite !andb_true_iff. intros (_ & ((_ & Hs) & Hr)).
    unfold entriesOf. cbn [flat_map]. rewrite app_nil_r. split.
    + now apply increasing_sorted.
    + apply Forall_forall. intros k Hk. rewrite forallb_forall in Hr.
      apply Hr. now apply list_elem_of_In.
  - rewrite !andb_true_iff. intros (_ & (_ & Hc)).
    eapply children_keysOk; eauto.
Qed.

Lemma children_split c fs h hi key :
  forall ps ks lo,
    checkChildren (checkSub h c fs) lo ks ps hi = true ->
    exists pre p post lo' hi',
      ps = pre ++ p :: post
      /\ length pre = childIndex key ks
      /\ checkSub h c fs p lo' hi' = true
      /\ Forall (fun kv => kv.1 < key)
                (entriesOf c (flat_map (leavesSub h c) pre))
      /\ Forall (fun kv => key < kv.1)
                (entriesOf c (flat_map (leavesSub h c) post)).
Proof.
  induction ps as [|p ps IHps]; intros ks lo; cbn [checkChildren];
    [discriminate|].
  destruct ks as [|k ks].
  - destruct ps; [|intros H; cbn in H; discriminate H]. intros H.
    exists [], p, [], lo, hi. repeat split; try constructor. exact H.
  - rewrite !andb_true_iff. intros ((Ho & Hp) & Hr). cbn [childIndex].
    destruct (key <? k) eqn:E.
    + exists [], p, ps, lo, (Some k). split; [reflexivity|].
      split; [reflexivity|]. split; [exact Hp|]. split; [constructor|].
      destruct (children_keysOk c fs h hi (checkSub_keysOk c fs h) ps ks _ Hr)
        as (_ & F).
      rewrite Forall_fmap in F. eapply Forall_impl; [exact F|].
      cbn. intros kv Hkv. apply inRange_spec in Hkv. cbn in Hkv. lia.
    + destruct (IHps ks (Some k) Hr)
        as (pre & p' & post & lo' & hi' & -> & Hl & Hc & Hpre & Hpost).
      exists (p :: pre), p', post, lo', hi'. split; [reflexivity|].
      split; [cbn; lia|]. split; [exact Hc|]. split; [|exact Hpost].
      cbn [flat_map]. rewrite entriesOf_app. apply Forall_app.
      split; [|exact Hpre].
      destruct (checkSub_keysOk c fs h p lo (Some k) Hp) as (_ & F).
      rewrite Forall_fmap in F. eapply Forall_impl; [exact F|].
      cbn. intros kv Hkv. apply inRange_spec in Hkv. cbn in Hkv. lia.
Qed.

Lemma pageAt_pageOf t id : pageAt t id = pageOf (content (file (pager t))) id.
Proof. reflexivity. Qed.

Lemma descent c fs key : forall h id lo hi,
  checkSub h c fs id lo hi = true ->
  exists leaf pre post lo' hi',
    leavesSub h c id = pre ++ leaf :: post
    /\ Forall (fun kv => kv.1 < key) (entriesOf c pre)
    /\ Forall (fun kv => key < kv.1) (entriesOf c post)
    /\ checkSub 0 c fs leaf lo' hi' = true
    /\ (forall fuel t,
          content (file (pager t)) = c -> fileSize (pager t) = fs ->
          (h < fuel)%nat ->
          exists t1, findLeafLoop fuel t key id = (Ok leaf, t1)
                     /\ only_reads t t1).
Proof.
  induction h as [|h IH]; intros id lo hi Hc.
  - exists id, [], [], lo, hi. split; [reflexivity|].
    split; [constructor|]. split; [constructor|]. split; [exact Hc|].
    intros fuel t <- <- Hf. destruct fuel as [|fuel]; [lia|].
    cbn [checkSub] in Hc. rewrite !andb_true_iff in Hc.
    destruct Hc as (R & (((Lf & _) & _) & _)).
    apply readableb_readable in R.
    destruct (read_step t id R) as (t1 & E & O).
    exists t1. cbn [findLeafLoop]. rewrite E, pageAt_pageOf, Lf. auto.
  - pose proof Hc as Hc0. cbn [checkSub] in Hc. rewrite !andb_true_iff in Hc.
    destruct Hc as (R & ((Lf & Hfit) & Hch)).
    apply negb_true_iff in Lf. apply Z.leb_le in Hfit.
    destruct (children_split c fs h hi key _ _ _ Hch)
      as (pre & p & post & lo' & hi' & Eps & Hl & Hp & Hpre & Hpost).
    destruct (IH p lo' hi' Hp)
      as (leaf & pre' & post' & lo'' & hi'' & El & Hpre' & Hpost' & Hleaf & Hrun).
    exists leaf, (flat_map (leavesSub h c) pre ++ pre'),
      (post' ++ flat_map (leavesSub h c) post), lo'', hi''.
    split; [|split; [|split; [|split]]].
    + cbn [leavesSub]. rewrite Eps, flat_map_app. cbn [flat_map].
      rewrite El. rewrite <- !app_assoc. reflexivity.
    + rewrite entriesOf_app. apply Forall_app. auto.
    + rewrite entriesOf_app. apply Forall_app. auto.
    + exact Hleaf.
    + intros fuel t Ec Ef Hf. destruct fuel as [|fuel]; [lia|].
      subst c fs. apply readableb_readable in R.
      destruct (read_step t id R) as (t1 & E & O).
      cbn [findLeafLoop]. rewrite E, pageAt_pageOf, Lf.
      set (page := pageOf (content (file (pager t))) id) in *.
      assert (L : length page = Z.to_nat PageSize)
        by (apply (length_pageAt t id); exact R).
      pose proof (getNumKeys_nonneg page) as Hn.
      rewrite (scanSeparators_childIndex page key _ 0)
        by (rewrite ?L, ?Z2Nat.id; hlia).
      replace (headerSize + 8 + 0 * 16) with (headerSize + 8) by lia.
      fold (internalPairs page). fold (internalKeys page).
      cbn [mbind option_bind]. rewrite Z.add_0_l.
      pose proof (childIndex_le key (internalKeys page)) as Hi.
      assert (Lk : length (internalKeys page) = Z.to_nat (getNumKeys page)).
      { unfold internalKeys, internalPairs.
        rewrite length_fmap. apply length_pairsAt. }
      replace (8 + 8) with 16 by reflexivity.
      rewrite readUint64_in by (rewrite ?L; hlia).
      assert (Ep : wrap64 (getUint64 page
                     (headerSize
                      + Z.of_nat (childIndex key (internalKeys page)) * 16))
                   = p).
      { pose proof (internalPointers_lookup page
                      (childIndex key (internalKeys page)) ltac:(lia)) as Q.
        rewrite Eps, <- Hl in Q.
        rewrite lookup_app_r, Nat.sub_diag in Q by lia. cbn in Q.
        injection Q as Q. symmetry. rewrite Hl in Q. exact Q. }
      rewrite Ep.
      destruct O as (Oc & Of & Orest).
      destruct (Hrun fuel t1 Oc Of ltac:(lia)) as (t2 & E2 & O2).
      exists t2. split; [exact E2|].
      eapply only_reads_trans; [|exact O2].
      unfold only_reads. auto.
Qed.

Lemma lookupEntry_app_r key es1 es2 :
  Forall (fun kv : Z * Z => kv.1 <> key) es1 ->
  lookupEntry key (es1 ++ es2) = lookupEntry key es2.
Proof.
  induction 1 as [|[k v] es1 H _ IH]; [reflexivity|].
  cbn in *. destruct (k =? key) eqn:E; [lia|exact IH].
Qed.

Lemma lookupEntry_app_l key es1 es2 :
  Forall (fun kv : Z * Z => kv.1 <> key) es2 ->
  lookupEntry key (es1 ++ es2) = lookupEntry key es1.
Proof.
  intros H. induction es1 as [|[k v] es1 IH]; cbn.
  - induction H as [|[k v] es2 H _ IH]; [reflexivity|].
    cbn in *. destruct (k =? key) eqn:E; [lia|exact IH].
  - destruct (k =? key); [reflexivity|exact IH].
Qed.

Lemma lookupEntry_elem key v es :
  lookupEntry key es = (v, true) -> (key, v) ∈ es.
Proof.
  induction es as [|[k v0] es IH]; cbn; [discriminate|].
  destruct (k =? key) eqn:E.
  - intros [= ->]. apply Z.eqb_eq in E. subst. left.
  - intros H. right. now apply IH.
Qed.

Lemma lookupEntry_sorted key v es :
  StronglySorted Z.lt es.*1 -> (key, v) ∈ es ->
  lookupEntry key es = (v, true).
Proof.
  induction es as [|[k v0] es IH]; intros S H; [inversion H|].
  cbn in S. apply StronglySorted_inv in S. destruct S as (S & F).
  cbn. apply elem_of_cons in H. destruct H as [[= <- <-]|H].
  - rewrite Z.eqb_refl. reflexivity.
  - destruct (k =? key) eqn:E.
    + apply Z.eqb_eq in E. subst k. rewrite Forall_forall in F.
      assert (key ∈ es.*1)
        by (apply list_elem_of_fmap; exists (key, v); auto).
      specialize (F key H0). lia.
    + now apply IH.
Qed.

Lemma Search_checked h fuel t key :
  checkSub h (content (file (pager t))) (fileSize (pager t)) (rootPageID t)
           None None = true ->
  (h < fuel)%nat ->
  fst (Search fuel t key) = Ok (lookupEntry key (treeEntries h t)).
Proof.
  intros Hc Hf.
  destruct (checkSub_keysOk _ _ _ _ _ _ Hc) as (Hs & _).
  destruct (descent _ _ key _ _ _ _ Hc)
    as (leaf & pre & post & lo & hi & El & Hpre & Hpost & Hleaf & Hrun).
  destruct (Hrun fuel t eq_refl eq_refl Hf) as (t1 & E1 & O1).
  cbn [checkSub] in Hleaf. rewrite !andb_true_iff in Hleaf.
  destruct Hleaf as (R & (((Lf & Hfit) & _) & _)).
  apply readableb_readable in R. apply Z.leb_le in Hfit.
  destruct (only_reads_readable t t1 _ O1 R) as (R1 & P1).
  destruct (read_step t1 _ R1) as (t2 & E2 & O2).
  unfold Search, findLeafPage. rewrite E1, E2, P1, pageAt_pageOf.
  set (page := pageOf (content (file (pager t))) leaf) in *.
  assert (L : length page = Z.to_nat PageSize)
    by (apply (length_pageAt t leaf); exact R).
  pose proof (getNumKeys_nonneg page) as Hn.
  rewrite (searchLeaf_lookup page key _ 0)
    by (rewrite ?L, ?Z2Nat.id; hlia).
  replace (headerSize + 0 * 16) with headerSize by lia.
  fold (leafEntries page). cbn [fst]. f_equal.
  unfold treeEntries. rewrite El, entriesOf_app.
  rewrite lookupEntry_app_r
    by (eapply Forall_impl; [exact Hpre|cbn; intros; lia]).
  change (leaf :: post) with ([leaf] ++ post). rewrite entriesOf_app.
  rewrite lookupEntry_app_l
    by (eapply Forall_impl; [exact Hpost|cbn; intros; lia]).
  unfold entriesOf. cbn [flat_map]. rewrite app_nil_r. reflexivity.
Qed.

(** X10.  [Search] in a well-formed tree of height [h], with fuel for
    [h + 1] pages: the result is the offset stored with the key among the
    entries of the leaves, and [(0, false)] when the key is not among
    them.  The keys of these entries are strictly increasing from the
    first leaf to the last, so an entry is found exactly when it is
    stored. *)
Theorem Search_in_checked_tree h fuel t key :
  checkSub h (content (file (pager t))) (fileSize (pager t)) (rootPageID t)
           None None = true ->
  (h < fuel)%nat ->
  fst (Search fuel t key) = Ok (lookupEntry key (treeEntries h t))
  /\ StronglySorted Z.lt (treeEntries h t).*1
  /\ (forall v, fst (Search fuel t key) = Ok (v, true)
                <-> (key, v) ∈ treeEntries h t).
Proof.
  intros Hc Hf.
  destruct (checkSub_keysOk _ _ _ _ _ _ Hc) as (Hs & _).
  fold (treeEntries h t) in Hs.
  pose proof (Search_checked h fuel t key Hc Hf) as E.
  split; [exact E|]. split; [exact Hs|].
  intros v. rewrite E. split.
  - intros [= H]. now apply lookupEntry_elem.
  - intros H. f_equal. now apply lookupEntry_sorted.
Qed.

(** ** SearchRange in a well-formed tree *)

Lemma scanLeafRange_scanList (page : list byte) a b : forall n i acc,
  0 <= i ->
  headerSize + (i + Z.of_nat n) * 16 <= Z.of_nat (length page) ->
  scanLeafRange page a b i n acc
  = Some (scanList a b (pairsAt page (headerSize + i * 16) n) acc).
Proof.
  induction n as [|n IH]; intros i acc Hi Hb;
    cbn [scanLeafRange pairsAt scanList]; [reflexivity|].
  replace (8 + 8) with 16 by reflexivity.
  rewrite !readUint64_in by hlia. cbn [mbind option_bind].
  replace (headerSize + i * 16 + 16) with (headerSize + (i + 1) * 16) by lia.
  destruct (wrap64 (getUint64 page (headerSize + i * 16)) >? b);
    [reflexivity|].
  destruct (wrap64 (getUint64 page (headerSize + i * 16)) >=? a);
    apply IH; lia.
Qed.

Lemma scanList_app a b es1 es2 : forall acc,
  scanList a b (es1 ++ es2) acc
  = if fst (scanList a b es1 acc) then scanList a b es1 acc
    else scanList a b es2 (snd (scanList a b es1 acc)).
Proof.
  induction es1 as [|[k v] es1 IH]; intros acc; cbn [scanList app fst snd];
    [reflexivity|].
  destruct (k >? b); [reflexivity|].
  destruct (k >=? a); apply IH.
Qed.

Lemma rangeOf_above a b es :
  Forall (fun kv : Z * Z => b < kv.1) es -> rangeOf a b es = [].
Proof.
  unfold rangeOf. induction 1 as [|[k v] es H _ IH]; [reflexivity|].
  cbn in *. destruct (a <=? k), (k <=? b) eqn:E; cbn; try exact IH. lia.
Qed.

Lemma rangeOf_below a b es :
  Forall (fun kv : Z * Z => kv.1 < a) es -> rangeOf a b es = [].
Proof.
  unfold rangeOf. induction 1 as [|[k v] es H _ IH]; [reflexivity|].
  cbn in *. destruct (a <=? k) eqn:E; cbn; [lia|exact IH].
Qed.

Lemma rangeOf_app a b es1 es2 :
  rangeOf a b (es1 ++ es2) = rangeOf a b es1 ++ rangeOf a b es2.
Proof. unfold rangeOf. rewrite List.filter_app, fmap_app. reflexivity. Qed.

Lemma rangeOf_empty a b es : b < a -> rangeOf a b es = [].
Proof.
  intros H. unfold rangeOf. induction es as [|[k v] es IH]; [reflexivity|].
  cbn. destruct (a <=? k) eqn:E1, (k <=? b) eqn:E2; cbn; try exact IH. lia.
Qed.

Lemma scanList_sorted a b es : forall acc,
  StronglySorted Z.lt es.*1 ->
  snd (scanList a b es acc) = acc ++ rangeOf a b es.
Proof.
  induction es as [|[k v] es IH]; intros acc S; cbn [scanList].
  - cbn. now rewrite app_nil_r.
  - cbn in S. apply StronglySorted_inv in S. destruct S as (S & F).
    destruct (k >? b) eqn:E1.
    + rewrite rangeOf_above; [cbn; now rewrite app_nil_r|].
      constructor; [cbn; lia|].
      rewrite Forall_fmap in F. eapply Forall_impl; [exact F|].
      cbn. intros; lia.
    + change ((k, v) :: es) with ([(k, v)] ++ es). rewrite rangeOf_app.
      unfold rangeOf at 1. cbn.
      destruct (k >=? a) eqn:E2.
      * rewrite IH by exact S.
        destruct (a <=? k) eqn:E3, (k <=? b) eqn:E4; try lia. cbn.
        now rewrite <- app_assoc.
      * rewrite IH by exact S.
        destruct (a <=? k) eqn:E3; [lia|]. reflexivity.
Qed.

Lemma sorted_app_r (l1 l2 : list Z) :
  StronglySorted Z.lt (l1 ++ l2) -> StronglySorted Z.lt l2.
Proof.
  induction l1 as [|x l1 IH]; [auto|].
  cbn. intros S. apply StronglySorted_inv in S. tauto.
Qed.

Lemma chained_app_r c l1 l2 : chained c (l1 ++ l2) = true -> chained c l2 = true.
Proof.
  induction l1 as [|x l1 IH]; [auto|].
  cbn [app chained]. rewrite andb_true_iff. tauto.
Qed.

Lemma chained_cons c l ls :
  chained c (l :: ls) = true ->
  getNextLeafPageID (pageOf c l) = match ls with [] => -1 | l' :: _ => l' end
  /\ chained c ls = true.
Proof.
  cbn [chained]. intros H. apply andb_true_iff in H.
  destruct H as (H1 & H2). apply Z.eqb_eq in H1. auto.
Qed.

Lemma children_leafOk c fs h hi :
  (forall id lo hi, checkSub h c fs id lo hi = true ->
                    Forall (leafOk c fs) (leavesSub h c id)) ->
  forall ps ks lo,
    checkChildren (checkSub h c fs) lo ks ps hi = true ->
    Forall (leafOk c fs) (flat_map (leavesSub h c) ps).
Proof.
  intros IH. induction ps as [|p ps IHps]; intros ks lo; cbn [checkChildren];
    [discriminate|].
  destruct ks as [|k ks].
  - destruct ps; [|discriminate]. intros H. cbn [flat_map].
    rewrite app_nil_r. now apply IH in H.
  - rewrite !andb_true_iff. intros ((Ho & Hp) & Hr).
    cbn [flat_map]. apply Forall_app. split; [now apply IH in Hp|].
    now apply (IHps ks (Some k)).
Qed.

Lemma checkSub_leafOk c fs : forall h id lo hi,
  checkSub h c fs id lo hi = true -> Forall (leafOk c fs) (leavesSub h c id).
Proof.
  induction h as [|h IH]; intros id lo hi H.
  - cbn [leavesSub]. repeat constructor. exists lo, hi. exact H.
  - cbn [checkSub] in H. rewrite !andb_true_iff in H.
    destruct H as (_ & (_ & Hc)). cbn [leavesSub].
    eapply children_leafOk; eauto.
Qed.

Lemma walkLeaves_chain c fs a b : forall ls fuel t acc,
  content (file (pager t)) = c -> fileSize (pager t) = fs ->
  chained c ls = true -> Forall (leafOk c fs) ls ->
  (length ls <= fuel)%nat ->
  fst (walkLeaves fuel t a b (match ls with [] => -1 | l :: _ => l end) acc)
  = Ok (snd (scanList a b (entriesOf c ls) acc)).
Proof.
  induction ls as [|l ls IH]; intros fuel t acc Ec Ef Hch Hok Hf.
  - destruct fuel; reflexivity.
  - destruct fuel as [|fuel]; [cbn in Hf; lia|].
    apply Forall_cons in Hok. destruct Hok as ((lo & hi & Hl) & Hok).
    cbn [checkSub] in Hl. rewrite !andb_true_iff in Hl.
    destruct Hl as (R & (((Lf & Hfit) & _) & _)).
    subst c fs. apply readableb_readable in R. apply Z.leb_le in Hfit.
    pose proof R as (Rb & _).
    cbn [walkLeaves]. destruct (l =? -1) eqn:E; [lia|].
    destruct (read_step t l R) as (t1 & E1 & O1).
    rewrite E1, pageAt_pageOf.
    set (page := pageOf (content (file (pager t))) l) in *.
    assert (L : length page = Z.to_nat PageSize)
      by (apply (length_pageAt t l); exact R).
    pose proof (getNumKeys_nonneg page) as Hn.
    rewrite (scanLeafRange_scanList page a b _ 0)
      by (rewrite ?L, ?Z2Nat.id; hlia).
    replace (headerSize + 0 * 16) with headerSize by lia.
    fold (leafEntries page).
    change (l :: ls) with ([l] ++ ls). rewrite entriesOf_app, scanList_app.
    replace (entriesOf (content (file (pager t))) [l])
      with (leafEntries page)
      by (unfold entriesOf; cbn [flat_map]; now rewrite app_nil_r).
    destruct (scanList a b (leafEntries page) acc) as [[|] acc'] eqn:Sc;
      cbn [fst snd]; [reflexivity|].
    apply chained_cons in Hch. destruct Hch as (Nx & Hch).
    fold page in Nx. rewrite Nx.
    destruct O1 as (Oc & Of & _).
    apply (IH fuel t1 acc' Oc Of Hch Hok). cbn in Hf. lia.
Qed.

(** X11.  [SearchRange] in a well-formed tree whose leaves are chained
    from left to right, with fuel for the height and for the leaves: the
    result is the offsets of the entries with a key in [[startKey,
    endKey]], in the order of the keys, and it is empty when
    [startKey > endKey]. *)
Theorem SearchRange_in_checked_tree h fuel t startKey endKey :
  checkTree h t = true ->
  (h < fuel)%nat ->
  (length (leavesSub h (content (file (pager t))) (rootPageID t)) <= fuel)%nat ->
  fst (SearchRange fuel t startKey endKey)
  = Ok (rangeOf startKey endKey (treeEntries h t)).
Proof.
  unfold checkTree. rewrite andb_true_iff. intros (Hc & Hch) Hf Hl.
  unfold SearchRange. destruct (startKey >? endKey) eqn:E.
  - rewrite rangeOf_empty by lia. reflexivity.
  - destruct (checkSub_keysOk _ _ _ _ _ _ Hc) as (Hs & _).
    pose proof (checkSub_leafOk _ _ _ _ _ _ Hc) as Hok.
    destruct (descent _ _ startKey _ _ _ _ Hc)
      as (leaf & pre & post & lo & hi & El & Hpre & Hpost & Hleaf & Hrun).
    destruct (Hrun fuel t eq_refl eq_refl Hf) as (t1 & E1 & O1).
    unfold findLeafPage. rewrite E1.
    destruct O1 as (Oc & Of & _).
    rewrite El in Hch, Hok, Hl, Hs.
    apply chained_app_r in Hch. apply Forall_app in Hok.
    destruct Hok as (_ & Hok).
    rewrite entriesOf_app, fmap_app in Hs. apply sorted_app_r in Hs.
    rewrite length_app in Hl.
    rewrite (walkLeaves_chain (content (file (pager t))) (fileSize (pager t))
               startKey endKey (leaf :: post) fuel t1 [] Oc Of Hch Hok
               ltac:(lia)).
    rewrite scanList_sorted by exact Hs. cbn [app].
    unfold treeEntries. rewrite El, entriesOf_app, rangeOf_app.
    rewrite (rangeOf_below _ _ _ Hpre). reflexivity.
Qed.

(** ** A new root *)

Lemma uint64_idem v : uint64 (uint64 v) = uint64 v.
Proof. unfold uint64. apply Z.mod_mod. lia. Qed.

Lemma root_image (Q : list byte) left key right :
  length Q = Z.to_nat PageSize ->
  is_int64 left -> is_int64 key -> is_int64 right ->
  exists P,
    (page ← writeUint64 Q headerSize (uint64 left);
     page ← writeUint64 page (headerSize + 8) (uint64 key);
     writeUint64 page (headerSize + 16) (uint64 right)) = Some P
    /\ length P = Z.to_nat PageSize
    /\ (forall off w, 0 <= off -> off + Z.of_nat w <= headerSize ->
          getLE P off w = getLE Q off w)
    /\ wrap64 (getUint64 P headerSize) = left
    /\ wrap64 (getUint64 P (headerSize + 8)) = key
    /\ wrap64 (getUint64 P (headerSize + 16)) = right.
Proof.
  intros L Hl Hk Hr.
  rewrite writeUint64_in by (rewrite ?L; hlia). cbn [mbind option_bind].
  set (P1 := putUint64 Q headerSize (uint64 left)).
  assert (L1 : length P1 = Z.to_nat PageSize)
    by (unfold P1; rewrite length_putUint64; rewrite ?L; hlia).
  rewrite writeUint64_in by (rewrite ?L1; hlia). cbn [mbind option_bind].
  set (P2 := putUint64 P1 (headerSize + 8) (uint64 key)).
  assert (L2 : length P2 = Z.to_nat PageSize)
    by (unfold P2; rewrite length_putUint64; rewrite ?L1; hlia).
  rewrite writeUint64_in by (rewrite ?L2; hlia).
  set (P3 := putUint64 P2 (headerSize + 16) (uint64 right)).
  exists P3. split; [reflexivity|].
  split; [unfold P3; rewrite length_putUint64; rewrite ?L2; hlia|].
  split; [|split; [|split]].
  - intros off w H1 H2.
    unfold P3, putUint64. rewrite getLE_putLE_disjoint by (rewrite ?L2; hlia).
    unfold P2, putUint64. rewrite getLE_putLE_disjoint by (rewrite ?L1; hlia).
    unfold P1, putUint64. rewrite getLE_putLE_disjoint by (rewrite ?L; hlia).
    reflexivity.
  - unfold P3. rewrite getUint64_putUint64_other by (rewrite ?L2; hlia).
    unfold P2. rewrite getUint64_putUint64_other by (rewrite ?L1; hlia).
    unfold P1. rewrite getUint64_putUint64_same by (rewrite ?L; hlia).
    rewrite uint64_idem. now apply wrap64_of_uint64.
  - unfold P3. rewrite getUint64_putUint64_other by (rewrite ?L2; hlia).
    unfold P2. rewrite getUint64_putUint64_same by (rewrite ?L1; hlia).
    rewrite uint64_idem. now apply wrap64_of_uint64.
  - unfold P3. rewrite getUint64_putUint64_same by (rewrite ?L2; hlia).
    rewrite uint64_idem. now apply wrap64_of_uint64.
Qed.

Lemma child_image (page : list byte) id :
  page_ok page -> is_int64 id ->
  let page' := setParentPageID (setIsRoot page false) id in
  page_ok page'
  /\ isRoot page' = false /\ getParentPageID page' = id
  /\ isLeaf page' = isLeaf page /\ getNumKeys page' = getNumKeys page
  /\ getNextLeafPageID page' = getNextLeafPageID page
  /\ drop (Z.to_nat headerSize) page' = drop (Z.to_nat headerSize) page.
Proof.
  intros L Hid page'.
  assert (L1 : page_ok (setIsRoot page false)).
  { unfold page_ok, setIsRoot, setByte. rewrite length_putLE; [exact L|].
    rewrite L. hlia. }
  assert (L2 : page_ok page').
  { unfold page_ok, page', setParentPageID. rewrite length_putUint64;
      [exact L1|hlia|rewrite L1; hlia]. }
  unfold page_ok in *.
  split; [exact L2|]. unfold page'.
  split; [|split; [|split; [|split; [|split]]]].
  - transitivity (isRoot (setIsRoot page false)).
    + unfold isRoot, getByte, setParentPageID, putUint64.
      rewrite getLE_putLE_disjoint by (rewrite ?L1; hlia). reflexivity.
    + unfold isRoot, setIsRoot. rewrite getByte_setByte by (rewrite ?L; hlia).
      reflexivity.
  - unfold getParentPageID, setParentPageID.
    apply wrap64_getUint64_put; [exact Hid|rewrite L1; hlia].
  - unfold isLeaf, getByte, setParentPageID, putUint64.
    rewrite getLE_putLE_disjoint by (rewrite ?L1; hlia).
    unfold setIsRoot, setByte.
    rewrite getLE_putLE_disjoint by (rewrite ?L; hlia). reflexivity.
  - unfold getNumKeys, setParentPageID, putUint64.
    rewrite getLE_putLE_disjoint by (rewrite ?L1; hlia).
    unfold setIsRoot, setByte.
    rewrite getLE_putLE_disjoint by (rewrite ?L; hlia). reflexivity.
  - unfold getNextLeafPageID, getUint64, setParentPageID, putUint64.
    rewrite getLE_putLE_disjoint by (rewrite ?L1; hlia).
    unfold setIsRoot, setByte.
    rewrite getLE_putLE_disjoint by (rewrite ?L; hlia). reflexivity.
  - unfold setParentPageID, putUint64, putLE.
    rewrite drop_storeBytes_before
      by (rewrite ?length_le_split, ?L1; hlia).
    unfold setIsRoot, setByte, putLE.
    rewrite drop_storeBytes_before
      by (rewrite ?length_le_split, ?L; hlia).
    reflexivity.
Qed.

Lemma onDisk_pager t t' q (page : list byte) :
  pager t' = pager t -> onDisk t q page -> onDisk t' q page.
Proof.
  intros E (t1 & H). unfold onDisk, treeRead in *. rewrite E.
  destruct (ReadPage (pager t) q new_Page) as [r p'].
  injection H as -> <-. eexists. reflexivity.
Qed.

Lemma createRoot_image t leftChildID key rightChildID :
  pager_wf (pager t) ->
  0 <= leftChildID < numPages (pager t) ->
  0 <= rightChildID < numPages (pager t) ->
  leftChildID <> rightChildID -> is_int64 key ->
  let newRootPageID := numPages (pager t) in
  let leftPage := setParentPageID (setIsRoot (pageAt t leftChildID) false)
                                  newRootPageID in
  let rightPage := setParentPageID (setIsRoot (pageAt t rightChildID) false)
                                   newRootPageID in
  exists t' rootPage,
    createRoot t leftChildID key rightChildID = (Ok tt, t')
    /\ rootPageID t' = newRootPageID /\ degree t' = degree t
    /\ numPages (pager t') = newRootPageID + 1
    /\ sizes_agree (pager t')
    /\ Z.of_nat (length (content (file (pager t')))) = fileSize (pager t')
    /\ (readable t' newRootPageID /\ pageAt t' newRootPageID = rootPage)
    /\ isLeaf rootPage = false /\ isRoot rootPage = true
    /\ getParentPageID rootPage = -1
    /\ internalKeys rootPage = [key]
    /\ internalPointers rootPage = [leftChildID; rightChildID]
    /\ getNumKeys rootPage = 1
    /\ (readable t' leftChildID /\ pageAt t' leftChildID = leftPage)
    /\ (readable t' rightChildID /\ pageAt t' rightChildID = rightPage)
    /\ (forall q, 0 <= q < numPages (pager t) ->
                  q <> leftChildID -> q <> rightChildID ->
                  readable t' q /\ pageAt t' q = pageAt t q).
Proof.
  intros W Hl Hr Hne Hk newRootPageID leftPage rightPage.
  pose proof W as (Wa & Wl & Wb). unfold sizes_agree in Wa.
  destruct (treeAllocate_spec t W) as (t1 & A & C1 & F1 & N1 & R1 & D1).
  fold newRootPageID in A, N1.
  assert (Bn : 0 <= newRootPageID < 2 ^ 51 - 1) by (unfold newRootPageID; lia).
  assert (Bl : 0 <= leftChildID < 2 ^ 51 - 1) by lia.
  assert (Br : 0 <= rightChildID < 2 ^ 51 - 1) by lia.
  set (Q := setNumKeys
              (setParentPageID
                 (setIsRoot (setByte new_Page nodeTypeOffset NodeTypeInternal)
                            true) (-1)) 1).
  assert (LQ : length Q = Z.to_nat PageSize) by (vm_compute; reflexivity).
  destruct (root_image Q leftChildID key rightChildID LQ)
    as (P & EP & LP & HP & P0 & P1 & P2);
    try (unfold is_int64; lia); [exact Hk|].
  (* the pages of [t] are those of [t1] *)
  assert (Rd1 : forall q, 0 <= q < newRootPageID ->
                  readable t1 q /\ pageAt t1 q = pageAt t q).
  { intros q Hq. unfold readable, pageAt. rewrite C1, F1, Wl, Wa.
    fold newRootPageID. split; [hlia|reflexivity]. }
  (* left child *)
  destruct (Rd1 leftChildID Hl) as (Rl1 & Pl1).
  destruct (read_step t1 _ Rl1) as (t2 & E2 & O2).
  set (lp := leftPage).
  assert (Ll0 : page_ok (pageAt t leftChildID))
    by (rewrite <- Pl1; apply length_pageAt; exact Rl1).
  destruct (child_image (pageAt t leftChildID) newRootPageID Ll0)
    as (Llp & Hlp); [unfold is_int64; lia|]. fold leftPage in Llp, Hlp.
  fold lp in Llp, Hlp.
  destruct (treeWrite_ok t2 leftChildID lp Bl)
    as (t3 & W3 & C3 & F3 & N3 & R3 & D3).
  destruct (treeWrite_same t2 leftChildID lp t3 Bl Llp W3) as (Rl3 & Pl3).
  (* right child *)
  destruct (Rd1 rightChildID Hr) as (Rr1 & Pr1).
  destruct (only_reads_readable t1 t2 _ O2 Rr1) as (Rr2 & Pr2).
  destruct (treeWrite_other t2 leftChildID lp t3 rightChildID Bl Llp W3 Rr2
              ltac:(lia)) as (Rr3 & Pr3).
  destruct (read_step t3 _ Rr3) as (t4 & E4 & O4).
  set (rp := rightPage).
  assert (Lr0 : page_ok (pageAt t rightChildID))
    by (rewrite <- Pr1; apply length_pageAt; exact Rr1).
  destruct (child_image (pageAt t rightChildID) newRootPageID Lr0)
    as (Lrp & Hrp); [unfold is_int64; lia|]. fold rightPage in Lrp, Hrp.
  fold rp in Lrp, Hrp.
  destruct (treeWrite_ok t4 rightChildID rp Br)
    as (t5 & W5 & C5 & F5 & N5 & R5 & D5).
  destruct (treeWrite_same t4 rightChildID rp t5 Br Lrp W5) as (Rr5 & Pr5).
  destruct (only_reads_readable t3 t4 _ O4 Rl3) as (Rl4 & Pl4).
  destruct (treeWrite_other t4 rightChildID rp t5 leftChildID Br Lrp W5 Rl4
              ltac:(lia)) as (Rl5 & Pl5).
  (* the new root *)
  destruct (treeWrite_ok t5 newRootPageID P Bn)
    as (t6 & W6 & C6 & F6 & N6 & R6 & D6).
  destruct (treeWrite_same t5 newRootPageID P t6 Bn LP W6) as (Rn6 & Pn6).
  destruct (treeWrite_other t5 newRootPageID P t6 leftChildID Bn LP W6 Rl5
              ltac:(unfold newRootPageID; lia)) as (Rl6 & Pl6).
  destruct (treeWrite_other t5 newRootPageID P t6 rightChildID Bn LP W6 Rr5
              ltac:(unfold newRootPageID; lia)) as (Rr6 & Pr6).
  (* sizes *)
  destruct O2 as (Oc2 & Of2 & On2 & Or2 & Od2 & _).
  destruct O4 as (Oc4 & Of4 & On4 & Or4 & Od4 & _).
  assert (Lc : Z.of_nat (length (content (file (pager t))))
               = newRootPageID * PageSize) by (rewrite Wl, Wa; reflexivity).
  assert (F3' : fileSize (pager t3) = (newRootPageID + 1) * PageSize)
    by (rewrite F3, Of2, F1, Wa; fold newRootPageID; hlia).
  assert (F5' : fileSize (pager t5) = (newRootPageID + 1) * PageSize)
    by (rewrite F5, Of4, F3'; hlia).
  assert (F6' : fileSize (pager t6) = (newRootPageID + 1) * PageSize)
    by (rewrite F6, F5'; hlia).
  assert (N3' : numPages (pager t3) = newRootPageID + 1).
  { rewrite N3, Of2, F1, Wa, On2, N1. fold newRootPageID.
    match goal with |- context [if ?c then _ else _] =>
      destruct c eqn:G end; [hlia|reflexivity]. }
  assert (N5' : numPages (pager t5) = newRootPageID + 1).
  { rewrite N5, Of4, F3', On4, N3'.
    match goal with |- context [if ?c then _ else _] =>
      destruct c eqn:G end; [hlia|reflexivity]. }
  assert (N6' : numPages (pager t6) = newRootPageID + 1).
  { rewrite N6, F5', N5'. match goal with |- context [if ?c then _ else _] =>
      destruct c eqn:G end; [hlia|reflexivity]. }
  assert (Lc3 : length (content (file (pager t3)))
                = length (content (file (pager t))))
    by (rewrite C3, length_pwrite, Oc2, C1, Llp; hlia).
  assert (Lc5 : length (content (file (pager t5)))
                = length (content (file (pager t))))
    by (rewrite C5, length_pwrite, Oc4, Lc3, Lrp; hlia).
  assert (Lc6 : Z.of_nat (length (content (file (pager t6))))
                = (newRootPageID + 1) * PageSize)
    by (rewrite C6, length_pwrite, Lc5, LP; hlia).
  set (t' := mkTree (pager t6) newRootPageID (degree t6)).
  assert (Et : pager t' = pager t6) by reflexivity.
  assert (Rt : forall q, readable t' q <-> readable t6 q) by (intros; reflexivity).
  assert (Pt : forall q, pageAt t' q = pageAt t6 q) by (intros; reflexivity).
  exists t', P.
  split.
  { unfold createRoot. rewrite A. cbv zeta. fold Q. rewrite EP.
    rewrite E2, Pl1. fold leftPage. fold lp. rewrite W3, E4, Pr3, Pr2, Pr1.
    fold rightPage. fold rp.
    rewrite W5, W6. reflexivity. }
  split; [reflexivity|].
  split; [cbn; congruence|].
  split; [exact N6'|].
  split; [unfold sizes_agree; cbn [t' pager]; rewrite F6', N6'; reflexivity|].
  split; [cbn [t' pager]; rewrite Lc6, F6'; reflexivity|].
  split; [split; [apply Rt; exact Rn6|rewrite Pt; exact Pn6]|].
  split.
  { unfold isLeaf, getByte. rewrite HP by hlia. vm_compute. reflexivity. }
  split.
  { unfold isRoot, getByte. rewrite HP by hlia. vm_compute. reflexivity. }
  split.
  { unfold getParentPageID, getUint64. rewrite HP by hlia.
    vm_compute. reflexivity. }
  assert (NP : getNumKeys P = 1).
  { unfold getNumKeys. rewrite HP by hlia. vm_compute. reflexivity. }
  split.
  { unfold internalKeys, internalPairs. rewrite NP.
    change (Z.to_nat 1) with 1%nat. cbn [pairsAt fmap list_fmap fst].
    rewrite P1. reflexivity. }
  split.
  { unfold internalPointers, internalPairs. rewrite NP.
    change (Z.to_nat 1) with 1%nat. cbn [pairsAt fmap list_fmap snd].
    rewrite P0. replace (headerSize + 8 + 8) with (headerSize + 16) by lia.
    rewrite P2. reflexivity. }
  split; [exact NP|].
  split; [split; [apply Rt; exact Rl6|rewrite Pt; unfold lp in *; congruence]|].
  split; [split; [apply Rt; exact Rr6|rewrite Pt; unfold rp in *; congruence]|].
  intros q Hq Hq1 Hq2.
  destruct (Rd1 q Hq) as (Rq1 & Pq1).
  assert (O2' : only_reads t1 t2).
  { unfold only_reads. repeat split; try assumption.
    destruct (read_step t1 _ Rl1) as (t2' & E2' & O2').
    rewrite E2 in E2'. injection E2' as <-. destruct O2' as (_ & _ & _ & _ & _ & X).
    exact X. }
  destruct (only_reads_readable t1 t2 _ O2' Rq1) as (Rq2 & Pq2).
  destruct (treeWrite_other t2 leftChildID lp t3 q Bl Llp W3 Rq2 Hq1)
    as (Rq3 & Pq3).
  assert (O4' : only_reads t3 t4).
  { destruct (read_step t3 _ Rr3) as (t4' & E4' & O4').
    rewrite E4 in E4'. injection E4' as <-. exact O4'. }
  destruct (only_reads_readable t3 t4 _ O4' Rq3) as (Rq4 & Pq4).
  destruct (treeWrite_other t4 rightChildID rp t5 q Br Lrp W5 Rq4 Hq2)
    as (Rq5 & Pq5).
  destruct (treeWrite_other t5 newRootPageID P t6 q Bn LP W6 Rq5
              ltac:(unfold newRootPageID; lia)) as (Rq6 & Pq6).
  split; [apply Rt; exact Rq6|rewrite Pt; congruence].
Qed.

(** X12.  The branch of [insertIntoParent] for a split of the root
    ([parentPageID == -1]), in a state whose tracked size is the length of
    the file: a page is allocated and written as the new root, an internal
    page marked as root, without parent, with the one key between the two
    children; both children are rewritten with the root mark cleared and
    the new root as parent, keeping their node type, key count, next leaf
    and payload; no other page changes; and the tree's root becomes the
    new page. *)
Theorem createRoot_spec t leftChildID key rightChildID :
  pager_wf (pager t) ->
  0 <= leftChildID < numPages (pager t) ->
  0 <= rightChildID < numPages (pager t) ->
  leftChildID <> rightChildID -> is_int64 key ->
  let newRootPageID := numPages (pager t) in
  exists t' rootPage leftPage rightPage,
    createRoot t leftChildID key rightChildID = (Ok tt, t')
    /\ rootPageID t' = newRootPageID /\ degree t' = degree t
    /\ numPages (pager t') = newRootPageID + 1
    /\ sizes_agree (pager t')
    /\ Z.of_nat (length (content (file (pager t')))) = fileSize (pager t')
    /\ onDisk t' newRootPageID rootPage
    /\ isLeaf rootPage = false /\ isRoot rootPage = true
    /\ getParentPageID rootPage = -1
    /\ internalKeys rootPage = [key]
    /\ internalPointers rootPage = [leftChildID; rightChildID]
    /\ onDisk t' leftChildID leftPage /\ onDisk t' rightChildID rightPage
    /\ Forall (fun '(old, new) =>
                 isRoot new = false /\ getParentPageID new = newRootPageID
                 /\ isLeaf new = isLeaf old
                 /\ getNumKeys new = getNumKeys old
                 /\ getNextLeafPageID new = getNextLeafPageID old
                 /\ drop (Z.to_nat headerSize) new
                    = drop (Z.to_nat headerSize) old)
              [(pageAt t leftChildID, leftPage);
               (pageAt t rightChildID, rightPage)]
    /\ (forall q, 0 <= q < numPages (pager t) ->
                  q <> leftChildID -> q <> rightChildID ->
                  onDisk t' q (pageAt t q)).
Proof.
  intros W Hl Hr Hne Hk newRootPageID.
  destruct (createRoot_image t leftChildID key rightChildID W Hl Hr Hne Hk)
    as (t' & rootPage & A & B & C & D & E & F & (G1 & G2) & H1 & H2 & H3 & H4
        & H5 & _ & (I1 & I2) & (J1 & J2) & K).
  fold newRootPageID in A, B, D, G1, G2, I2, J2.
  assert (Ll : page_ok (pageAt t leftChildID))
    by (apply length_pageAt, pager_wf_readable; assumption).
  assert (Lr : page_ok (pageAt t rightChildID))
    by (apply length_pageAt, pager_wf_readable; assumption).
  assert (Hn : is_int64 newRootPageID)
    by (destruct W as (_ & _ & W); unfold is_int64, newRootPageID; lia).
  pose proof (child_image _ newRootPageID Ll Hn) as (_ & CL).
  pose proof (child_image _ newRootPageID Lr Hn) as (_ & CR).
  exists t', rootPage, (pageAt t' leftChildID), (pageAt t' rightChildID).
  split; [exact A|]. split; [exact B|]. split; [exact C|].
  split; [exact D|]. split; [exact E|]. split; [exact F|].
  split; [rewrite <- G2; apply readable_onDisk; exact G1|].
  split; [exact H1|]. split; [exact H2|]. split; [exact H3|].
  split; [exact H4|]. split; [exact H5|].
  split; [apply readable_onDisk; exact I1|].
  split; [apply readable_onDisk; exact J1|].
  split.
  - rewrite I2, J2. repeat constructor; tauto.
  - intros q Hq Hq1 Hq2. destruct (K q Hq Hq1 Hq2) as (K1 & K2).
    rewrite <- K2. apply readable_onDisk. exact K1.
Qed.

(** ** Well-formed trees and the insert that does not split *)

Lemma sorted_increasing ks : StronglySorted Z.lt ks -> increasing ks = true.
Proof.
  induction ks as [|k ks IH]; [reflexivity|].
  intros S. apply StronglySorted_inv in S. destruct S as (S & F).
  cbn [increasing]. destruct ks as [|k' ks']; [reflexivity|].
  apply Forall_cons in F. destruct F as (F1 & _).
  rewrite (IH S). apply andb_true_iff. split; [lia|reflexivity].
Qed.

Lemma readableb_replaces c c' fs leaf page' q :
  replaces c c' fs leaf page' -> readableb c' fs q = readableb c fs q.
Proof. intros (L & _). unfold readableb. rewrite L. reflexivity. Qed.

Lemma checkChildren_mono (check1 check2 : Z -> option Z -> option Z -> bool)
    hi :
  forall ps ks lo,
    (forall p lo hi, p ∈ ps -> check1 p lo hi = true -> check2 p lo hi = true) ->
    checkChildren check1 lo ks ps hi = true ->
    checkChildren check2 lo ks ps hi = true.
Proof.
  induction ps as [|p ps IH]; intros ks lo H; cbn [checkChildren];
    [discriminate|].
  destruct ks as [|k ks].
  - destruct ps; [|discriminate]. apply H. left.
  - rewrite !andb_true_iff. intros ((Ho & Hp) & Hr).
    split; [split; [exact Ho|]|].
    + apply H; [left|exact Hp].
    + apply IH; [|exact Hr]. intros q l h Hq. apply H. now right.
Qed.

Lemma flat_map_ext_in {A B} (f g : A -> list B) l :
  (forall x, x ∈ l -> f x = g x) -> flat_map f l = flat_map g l.
Proof.
  induction l as [|a l IH]; intros H; [reflexivity|].
  cbn. rewrite H by left. rewrite IH; [reflexivity|].
  intros x Hx. apply H. now right.
Qed.

Lemma elem_of_flat_map {A B} (f : A -> list B) l y :
  y ∈ flat_map f l <-> exists x, x ∈ l /\ y ∈ f x.
Proof.
  rewrite list_elem_of_In, in_flat_map. split; intros (x & H1 & H2);
    exists x; rewrite !list_elem_of_In in *; auto.
Qed.

Lemma children_checked (check : Z -> option Z -> option Z -> bool) hi :
  forall ps ks lo,
    checkChildren check lo ks ps hi = true ->
    Forall (fun p => exists l u, check p l u = true) ps.
Proof.
  induction ps as [|p ps IH]; intros ks lo; cbn [checkChildren];
    [discriminate|].
  destruct ks as [|k ks].
  - destruct ps; [|discriminate]. intros H. repeat constructor. eauto.
  - intros H. apply andb_true_iff in H. destruct H as (H & Hr).
    apply andb_true_iff in H. destruct H as (_ & Hp).
    constructor; [eauto|]. apply (IH ks (Some k) Hr).
Qed.

(** A subtree that does not reach the replaced leaf is as it was. *)
Lemma checkSub_untouched c c' fs leaf page' :
  replaces c c' fs leaf page' ->
  isLeaf (pageOf c leaf) = true ->
  forall h id lo hi,
    checkSub h c fs id lo hi = true -> leaf ∉ leavesSub h c id ->
    checkSub h c' fs id lo hi = true
    /\ leavesSub h c' id = leavesSub h c id
    /\ entriesOf c' (leavesSub h c id) = entriesOf c (leavesSub h c id).
Proof.
  intros Hrep Lf. pose proof Hrep as (Hlen & Hnew & Hold).
  induction h as [|h IH]; intros id lo hi Hc Hnot.
  - cbn [leavesSub] in *. rewrite not_elem_of_cons in Hnot.
    destruct Hnot as (Hne & _).
    pose proof Hc as Hc0. cbn [checkSub] in Hc. apply andb_true_iff in Hc.
    destruct Hc as (R & _).
    assert (E : pageOf c' id = pageOf c id) by (apply Hold; auto).
    split; [|split; [reflexivity|]].
    + cbn [checkSub]. rewrite (readableb_replaces _ _ _ _ _ _ Hrep), E.
      exact Hc0.
    + unfold entriesOf. cbn [flat_map]. rewrite E. reflexivity.
  - pose proof Hc as Hc0. cbn [checkSub] in Hc. apply andb_true_iff in Hc.
    destruct Hc as (R & Hc). apply andb_true_iff in Hc.
    destruct Hc as (Hc1 & Hch). apply andb_true_iff in Hc1.
    destruct Hc1 as (Hl & Hfit).
    assert (Hne : id <> leaf).
    { intros ->. rewrite Lf in Hl. discriminate. }
    assert (E : pageOf c' id = pageOf c id) by (apply Hold; auto).
    cbn [leavesSub] in Hnot |- *.
    assert (Hsub : forall p, p ∈ internalPointers (pageOf c id) ->
                     leaf ∉ leavesSub h c p).
    { intros p Hp Hin. apply Hnot. apply elem_of_flat_map. eauto. }
    pose proof (children_checked _ _ _ _ _ Hch) as Hall.
    rewrite Forall_forall in Hall.
    assert (Hkid : forall p, p ∈ internalPointers (pageOf c id) ->
              leavesSub h c' p = leavesSub h c p
              /\ entriesOf c' (leavesSub h c p)
                 = entriesOf c (leavesSub h c p)).
    { intros p Hp. destruct (Hall p Hp) as (l & u & Hcp).
      destruct (IH p l u Hcp (Hsub p Hp)) as (_ & A & B). auto. }
    split; [|split].
    + cbn [checkSub]. rewrite (readableb_replaces _ _ _ _ _ _ Hrep), E.
      rewrite R, Hl, Hfit. cbn [andb].
      eapply checkChildren_mono; [|exact Hch].
      intros p l u Hp Hcp. apply (IH p l u Hcp). now apply Hsub.
    + rewrite E. apply flat_map_ext_in. intros p Hp. apply Hkid, Hp.
    + revert Hkid. generalize (internalPointers (pageOf c id)) as ps.
      induction ps as [|q ps IHps]; intros Hkid; [reflexivity|].
      cbn [flat_map]. rewrite !entriesOf_app.
      destruct (Hkid q) as (_ & Eq); [left|]. rewrite Eq.
      rewrite IHps; [reflexivity|].
      intros p Hp. apply Hkid. now right.
Qed.

Lemma entriesOf_flat_map_ext c c' (f : Z -> list Z) l :
  (forall q, q ∈ l -> entriesOf c' (f q) = entriesOf c (f q)) ->
  entriesOf c' (flat_map f l) = entriesOf c (flat_map f l).
Proof.
  induction l as [|q l IH]; intros H; [reflexivity|].
  cbn [flat_map]. rewrite !entriesOf_app. rewrite (H q) by left.
  rewrite IH; [reflexivity|]. intros x Hx. apply H. now right.
Qed.

Lemma children_split2 c fs h hi key :
  forall ps ks lo,
    checkChildren (checkSub h c fs) lo ks ps hi = true ->
    inRange lo hi key = true ->
    exists pre p post lo' hi',
      ps = pre ++ p :: post
      /\ length pre = childIndex key ks
      /\ checkSub h c fs p lo' hi' = true
      /\ inRange lo' hi' key = true
      /\ Forall (fun kv => kv.1 < key)
                (entriesOf c (flat_map (leavesSub h c) pre))
      /\ Forall (fun kv => key < kv.1)
                (entriesOf c (flat_map (leavesSub h c) post))
      /\ (forall check2 : Z -> option Z -> option Z -> bool,
            (forall q l u, q ∈ pre ++ post ->
                           checkSub h c fs q l u = true ->
                           check2 q l u = true) ->
            check2 p lo' hi' = true ->
            checkChildren check2 lo ks ps hi = true).
Proof.
  induction ps as [|p ps IHps]; intros ks lo; cbn [checkChildren];
    [discriminate|].
  destruct ks as [|k ks].
  - destruct ps; [|discriminate]. intros H Hin.
    exists [], p, [], lo, hi.
    split; [reflexivity|]. split; [reflexivity|]. split; [exact H|].
    split; [exact Hin|]. split; [constructor|]. split; [constructor|].
    intros check2 _ Hp. exact Hp.
  - intros H Hin. apply andb_true_iff in H. destruct H as (H & Hr).
    apply andb_true_iff in H. destruct H as (Ho & Hp).
    pose proof Ho as Ho'. apply inOpen_spec in Ho'.
    pose proof Hin as Hin'. apply inRange_spec in Hin'.
    cbn [childIndex]. destruct (key <? k) eqn:E.
    + exists [], p, ps, lo, (Some k). split; [reflexivity|].
      split; [reflexivity|]. split; [exact Hp|].
      split; [apply inRange_spec; destruct lo; cbn in *; lia|].
      split; [constructor|]. split.
      * destruct (children_keysOk c fs h hi (checkSub_keysOk c fs h) ps ks _ Hr)
          as (_ & F).
        rewrite Forall_fmap in F. eapply Forall_impl; [exact F|].
        cbn. intros kv Hkv. apply inRange_spec in Hkv. cbn in Hkv. lia.
      * intros check2 Hq Hp2. cbn [checkChildren]. rewrite Ho, Hp2.
        cbn [andb]. eapply checkChildren_mono; [|exact Hr].
        intros q l u Hq'. apply Hq. exact Hq'.
    + destruct (IHps ks (Some k) Hr)
        as (pre & p' & post & lo' & hi' & -> & Hl & Hc & Hin2 & Hpre & Hpost
            & Hre).
      { apply inRange_spec. destruct hi; cbn in *; lia. }
      exists (p :: pre), p', post, lo', hi'. split; [reflexivity|].
      split; [cbn; lia|]. split; [exact Hc|]. split; [exact Hin2|].
      split; [|split; [exact Hpost|]].
      * cbn [flat_map]. rewrite entriesOf_app. apply Forall_app.
        split; [|exact Hpre].
        destruct (checkSub_keysOk c fs h p lo (Some k) Hp) as (_ & F).
        rewrite Forall_fmap in F. eapply Forall_impl; [exact F|].
        cbn. intros kv Hkv. apply inRange_spec in Hkv. cbn in Hkv. lia.
      * intros check2 Hq Hp2. cbn [checkChildren app]. rewrite Ho.
        rewrite (Hq p lo (Some k)); [|left|exact Hp]. cbn [andb].
        apply Hre; [|exact Hp2].
        intros q l u Hq'. apply Hq. cbn [app]. now right.
Qed.

Lemma descent_update c fs key : forall h id lo hi,
  checkSub h c fs id lo hi = true ->
  inRange lo hi key = true ->
  NoDup (leavesSub h c id) ->
  exists leaf pre post lo' hi',
    leavesSub h c id = pre ++ leaf :: post
    /\ Forall (fun kv => kv.1 < key) (entriesOf c pre)
    /\ Forall (fun kv => key < kv.1) (entriesOf c post)
    /\ checkSub 0 c fs leaf lo' hi' = true
    /\ inRange lo' hi' key = true
    /\ (forall fuel t,
          content (file (pager t)) = c -> fileSize (pager t) = fs ->
          (h < fuel)%nat ->
          exists t1, findLeafLoop fuel t key id = (Ok leaf, t1)
                     /\ only_reads t t1)
    /\ (forall c' page',
          replaces c c' fs leaf page' ->
          checkSub 0 c' fs leaf lo' hi' = true ->
          checkSub h c' fs id lo hi = true
          /\ leavesSub h c' id = leavesSub h c id
          /\ entriesOf c' pre = entriesOf c pre
          /\ entriesOf c' post = entriesOf c post).
Proof.
  induction h as [|h IH]; intros id lo hi Hc Hin Hnd.
  - exists id, [], [], lo, hi. split; [reflexivity|].
    split; [constructor|]. split; [constructor|]. split; [exact Hc|].
    split; [exact Hin|]. split.
    + intros fuel t <- <- Hf. destruct fuel as [|fuel]; [lia|].
      cbn [checkSub] in Hc. apply andb_true_iff in Hc. destruct Hc as (R & Hc).
      apply andb_true_iff in Hc. destruct Hc as (Hc & _).
      apply andb_true_iff in Hc. destruct Hc as (Hc & _).
      apply andb_true_iff in Hc. destruct Hc as (Lf & _).
      apply readableb_readable in R.
      destruct (read_step t id R) as (t1 & E & O).
      exists t1. cbn [findLeafLoop]. rewrite E, pageAt_pageOf, Lf. auto.
    + intros c' page' Hrep Hnew. auto.
  - pose proof Hc as Hc0. cbn [checkSub] in Hc.
    apply andb_true_iff in Hc. destruct Hc as (R & Hc).
    apply andb_true_iff in Hc. destruct Hc as (Hc & Hch).
    apply andb_true_iff in Hc. destruct Hc as (Lf & Hfit).
    pose proof Lf as Lfb. apply negb_true_iff in Lf. apply Z.leb_le in Hfit.
    destruct (children_split2 c fs h hi key _ _ _ Hch Hin)
      as (pre & p & post & lo' & hi' & Eps & Hl & Hp & Hin' & Hpre & Hpost
          & Hre).
    cbn [leavesSub] in Hnd. rewrite Eps, flat_map_app in Hnd.
    cbn [flat_map] in Hnd.
    apply NoDup_app in Hnd. destruct Hnd as (_ & Hd1 & Hnd).
    apply NoDup_app in Hnd. destruct Hnd as (Hndp & Hd2 & _).
    destruct (IH p lo' hi' Hp Hin' Hndp)
      as (leaf & pre' & post' & lo'' & hi'' & El & Hpre' & Hpost' & Hleaf
          & Hin'' & Hrun & Hupd).
    assert (Hlp : leaf ∈ leavesSub h c p)
      by (rewrite El; apply elem_of_app; right; left).
    exists leaf, (flat_map (leavesSub h c) pre ++ pre'),
      (post' ++ flat_map (leavesSub h c) post), lo'', hi''.
    split; [|split; [|split; [|split; [|split; [|split]]]]].
    + cbn [leavesSub]. rewrite Eps, flat_map_app. cbn [flat_map].
      rewrite El. rewrite <- !app_assoc. reflexivity.
    + rewrite entriesOf_app. apply Forall_app. auto.
    + rewrite entriesOf_app. apply Forall_app. auto.
    + exact Hleaf.
    + exact Hin''.
    + intros fuel t Ec Ef Hf. destruct fuel as [|fuel]; [lia|].
      subst c fs. apply readableb_readable in R.
      destruct (read_step t id R) as (t1 & E & O).
      cbn [findLeafLoop]. rewrite E, pageAt_pageOf, Lf.
      set (page := pageOf (content (file (pager t))) id) in *.
      assert (L : length page = Z.to_nat PageSize)
        by (apply (length_pageAt t id); exact R).
      pose proof (getNumKeys_nonneg page) as Hn.
      rewrite (scanSeparators_childIndex page key _ 0)
        by (rewrite ?L, ?Z2Nat.id; hlia).
      replace (headerSize + 8 + 0 * 16) with (headerSize + 8) by lia.
      fold (internalPairs page). fold (internalKeys page).
      cbn [mbind option_bind]. rewrite Z.add_0_l.
      pose proof (childIndex_le key (internalKeys page)) as Hi.
      assert (Lk : length (internalKeys page) = Z.to_nat (getNumKeys page)).
      { unfold internalKeys, internalPairs.
        rewrite length_fmap. apply length_pairsAt. }
      replace (8 + 8) with 16 by reflexivity.
      rewrite readUint64_in by (rewrite ?L; hlia).
      assert (Ep : wrap64 (getUint64 page
                     (headerSize
                      + Z.of_nat (childIndex key (internalKeys page)) * 16))
                   = p).
      { pose proof (internalPointers_lookup page
                      (childIndex key (internalKeys page)) ltac:(lia)) as Q.
        rewrite Eps, <- Hl in Q.
        rewrite lookup_app_r, Nat.sub_diag in Q by lia. cbn in Q.
        injection Q as Q. symmetry. rewrite Hl in Q. exact Q. }
      rewrite Ep.
      destruct O as (Oc & Of & Orest).
      destruct (Hrun fuel t1 Oc Of ltac:(lia)) as (t2 & E2 & O2).
      exists t2. split; [exact E2|].
      eapply only_reads_trans; [|exact O2].
      unfold only_reads. auto.
    + intros c' page' Hrep Hnew.
      pose proof Hrep as (Hlen & Hpg & Hold).
      assert (Lleaf : isLeaf (pageOf c leaf) = true).
      { cbn [checkSub] in Hleaf. apply andb_true_iff in Hleaf.
        destruct Hleaf as (_ & Hleaf).
        apply andb_true_iff in Hleaf. destruct Hleaf as (Hleaf & _).
        apply andb_true_iff in Hleaf. destruct Hleaf as (Hleaf & _).
        apply andb_true_iff in Hleaf. tauto. }
      assert (Hne : id <> leaf).
      { intros ->. rewrite Lleaf in Lf. discriminate. }
      assert (E : pageOf c' id = pageOf c id) by (apply Hold; auto).
      destruct (Hupd c' page' Hrep Hnew) as (U1 & U2 & U3 & U4).
      assert (Hout : forall q, q ∈ pre ++ post -> leaf ∉ leavesSub h c q).
      { intros q Hq Hlq. apply elem_of_app in Hq. destruct Hq as [Hq|Hq].
        - apply (Hd1 leaf).
          + apply elem_of_flat_map. eauto.
          + apply elem_of_app. now left.
        - apply (Hd2 leaf Hlp). apply elem_of_flat_map. eauto. }
      assert (Hun : forall q l u, q ∈ pre ++ post ->
                checkSub h c fs q l u = true ->
                checkSub h c' fs q l u = true
                /\ leavesSub h c' q = leavesSub h c q
                /\ entriesOf c' (leavesSub h c q)
                   = entriesOf c (leavesSub h c q)).
      { intros q l u Hq Hcq.
        apply (checkSub_untouched c c' fs leaf page' Hrep Lleaf h q l u Hcq).
        now apply Hout. }
      pose proof (children_checked _ _ _ _ _ Hch) as Hall.
      rewrite Forall_forall in Hall.
      assert (Hkid : forall q, q ∈ pre ++ post ->
                leavesSub h c' q = leavesSub h c q
                /\ entriesOf c' (leavesSub h c q)
                   = entriesOf c (leavesSub h c q)).
      { intros q Hq. destruct (Hall q) as (l & u & Hcq).
        - rewrite Eps. apply elem_of_app in Hq.
          apply elem_of_app. destruct Hq; [now left|right; now right].
        - destruct (Hun q l u Hq Hcq) as (_ & A & B). auto. }
      split; [|split; [|split]].
      * cbn [checkSub]. rewrite (readableb_replaces _ _ _ _ _ _ Hrep), E.
        rewrite R, Lfb, (proj2 (Z.leb_le _ _) Hfit). cbn [andb].
        apply Hre; [|exact U1].
        intros q l u Hq Hcq. now apply Hun.
      * cbn [leavesSub]. rewrite E, Eps, !flat_map_app. cbn [flat_map].
        rewrite U2.
        rewrite (flat_map_ext_in (leavesSub h c') (leavesSub h c) pre).
        2: { intros q Hq. apply Hkid. apply elem_of_app. now left. }
        rewrite (flat_map_ext_in (leavesSub h c') (leavesSub h c) post).
        2: { intros q Hq. apply Hkid. apply elem_of_app. now right. }
        reflexivity.
      * rewrite !entriesOf_app, U3.
        rewrite (entriesOf_flat_map_ext c c' (leavesSub h c) pre);
          [reflexivity|].
        intros q Hq. apply Hkid. apply elem_of_app. now left.
      * rewrite !entriesOf_app, U4.
        rewrite (entriesOf_flat_map_ext c c' (leavesSub h c) post);
          [reflexivity|].
        intros q Hq. apply Hkid. apply elem_of_app. now right.
Qed.

Lemma Insert_no_split fuel t key value leafPageID t1 :
  findLeafPage fuel t key = (Ok leafPageID, t1) ->
  readable t leafPageID -> covers (pager t) ->
  getNumKeys (pageAt t leafPageID) < degree t - 1 ->
  headerSize + (getNumKeys (pageAt t leafPageID) + 1) * 16 <= PageSize ->
  key ∉ (leafEntries (pageAt t leafPageID)).*1 ->
  is_int64 key -> is_int64 value ->
  exists t' new,
    Insert fuel t key value = (Ok tt, t')
    /\ insertIntoLeaf (pageAt t leafPageID) key value = Some new
    /\ content (file (pager t'))
       = pwrite (content (file (pager t)))
                (Z.to_nat (leafPageID * PageSize)) new
    /\ fileSize (pager t') = fileSize (pager t)
    /\ numPages (pager t') = numPages (pager t)
    /\ rootPageID t' = rootPageID t
    /\ degree t' = degree t.
Proof.
  intros Hf R Cv Hn Hfit Hnew Hk Hv.
  pose proof Hf as Hf0. unfold findLeafPage in Hf0.
  pose proof (findLeafLoop_only_reads _ _ _ _ _ _ Hf0) as O1.
  destruct (only_reads_readable t t1 _ O1 R) as (R1 & P1).
  destruct (read_step t1 _ R1) as (t2 & E2 & O2).
  set (old := pageAt t leafPageID) in *.
  assert (Lo : page_ok old) by (apply length_pageAt; exact R).
  pose proof (getNumKeys_nonneg old) as Hn0.
  destruct (insertIntoLeaf_image old key value Lo Hfit Hk Hv)
    as (new & I & Ln & _).
  assert (O12 : only_reads t t2) by (eapply only_reads_trans; eauto).
  pose proof R as (Rb & Rf & Rc).
  destruct (treeWrite_ok t2 leafPageID new Rb)
    as (t3 & W & C3 & F3 & N3 & R3 & D3).
  destruct O12 as (Oc & Of & On & Or & Od & _).
  unfold covers in Cv.
  exists t3, new. split; [|split; [exact I|split; [|split; [|split]]]].
  - unfold Insert. rewrite Hf, E2, P1. fold old.
    rewrite (hasKey_lookup old key _ 0) by (rewrite ?Lo, ?Z2Nat.id; hlia).
    replace (headerSize + 0 * 16) with headerSize by lia.
    fold (leafEntries old). rewrite lookupEntry_absent by exact Hnew.
    cbn [snd]. rewrite Od.
    destruct (getNumKeys old <? degree t - 1) eqn:G; [|lia].
    rewrite I, W. reflexivity.
  - rewrite C3, Oc. reflexivity.
  - rewrite F3, Of. lia.
  - rewrite N3, Of, On.
    match goal with |- context [if ?c then _ else _] =>
      destruct c eqn:G end; [lia|reflexivity].
  - split; congruence.
Qed.

Lemma pwrite_replaces (c : list byte) fs leaf (new : list byte) :
  0 <= leaf -> leaf * PageSize + PageSize <= Z.of_nat (length c) ->
  length new = Z.to_nat PageSize ->
  replaces c (pwrite c (Z.to_nat (leaf * PageSize)) new) fs leaf new.
Proof.
  intros H0 Hc Ln. unfold replaces. split; [|split].
  - rewrite length_pwrite, Ln. hlia.
  - unfold pageOf. rewrite <- Ln. apply load_pwrite_same.
  - intros q Hq Hne. unfold readableb in Hq.
    apply andb_true_iff in Hq. destruct Hq as (Hq & Hq4).
    apply andb_true_iff in Hq. destruct Hq as (Hq & Hq3).
    apply andb_true_iff in Hq. destruct Hq as (Hq1 & Hq2).
    apply Z.leb_le in Hq1, Hq4. apply Z.ltb_lt in Hq2, Hq3.
    unfold pageOf. apply load_pwrite_other; rewrite ?Ln; hlia.
Qed.

Lemma chained_replaces c c' fs leaf (page' : list byte) :
  replaces c c' fs leaf page' ->
  getNextLeafPageID page' = getNextLeafPageID (pageOf c leaf) ->
  forall ls, Forall (leafOk c fs) ls ->
             chained c ls = true -> chained c' ls = true.
Proof.
  intros (Hlen & Hpg & Hold) Hnx. induction ls as [|l ls IH]; intros Hok Hch;
    [reflexivity|].
  apply Forall_cons in Hok. destruct Hok as ((lo & hi & Hl) & Hok).
  apply chained_cons in Hch. destruct Hch as (Nx & Hch).
  cbn [chained]. rewrite (IH Hok Hch), andb_true_r. apply Z.eqb_eq.
  rewrite <- Nx. destruct (decide (l = leaf)) as [->|Hne].
  - rewrite Hpg. exact Hnx.
  - rewrite Hold; [reflexivity| |exact Hne].
    cbn [checkSub] in Hl. apply andb_true_iff in Hl. tauto.
Qed.

Lemma insertBefore_app_l key value e1 e2 :
  Forall (fun kv : Z * Z => kv.1 < key) e1 ->
  insertBefore key value (e1 ++ e2) = e1 ++ insertBefore key value e2.
Proof.
  induction 1 as [|[k v] e1 H _ IH]; [reflexivity|].
  cbn in *. destruct (key <? k) eqn:E; [lia|]. now rewrite IH.
Qed.

Lemma insertBefore_app_r key value e2 e3 :
  Forall (fun kv : Z * Z => key < kv.1) e3 ->
  insertBefore key value (e2 ++ e3) = insertBefore key value e2 ++ e3.
Proof.
  intros H. induction e2 as [|[k v] e2 IH]; cbn.
  - destruct H as [|[k v] e3 H _]; [reflexivity|].
    cbn in *. destruct (key <? k) eqn:E; [reflexivity|lia].
  - destruct (key <? k); [reflexivity|]. now rewrite IH.
Qed.

Lemma leaf_check_parts c fs leaf lo hi :
  checkSub 0 c fs leaf lo hi = true ->
  readableb c fs leaf = true
  /\ isLeaf (pageOf c leaf) = true
  /\ headerSize + getNumKeys (pageOf c leaf) * 16 <= PageSize
  /\ increasing (leafEntries (pageOf c leaf)).*1 = true
  /\ forallb (inRange lo hi) (leafEntries (pageOf c leaf)).*1 = true.
Proof.
  cbn [checkSub]. intros H.
  apply andb_true_iff in H. destruct H as (R & H).
  apply andb_true_iff in H. destruct H as (H & H4).
  apply andb_true_iff in H. destruct H as (H & H3).
  apply andb_true_iff in H. destruct H as (H1 & H2).
  apply Z.leb_le in H2. auto.
Qed.

(** X13.  An insert that does not split keeps a well-formed tree well
    formed.  In a tree of height [h] that passes the checks, with
    distinct leaves, the insert of a key that is not in the leaf its
    descent reaches, when that leaf has fewer than [degree - 1] keys and
    room on the page, succeeds; the tree after it passes the checks again
    with the same leaves, and its entries, read from the first leaf to the
    last, are the entries before with the new one at its place in the
    order. *)
Theorem Insert_keeps_checked_tree h fuel t key value leafPageID t1 :
  checkTree h t = true ->
  NoDup (leavesSub h (content (file (pager t))) (rootPageID t)) ->
  covers (pager t) -> (h < fuel)%nat ->
  findLeafPage fuel t key = (Ok leafPageID, t1) ->
  getNumKeys (pageAt t leafPageID) < degree t - 1 ->
  headerSize + (getNumKeys (pageAt t leafPageID) + 1) * 16 <= PageSize ->
  key ∉ (leafEntries (pageAt t leafPageID)).*1 ->
  is_int64 key -> is_int64 value ->
  exists t',
    Insert fuel t key value = (Ok tt, t')
    /\ checkTree h t' = true
    /\ leavesSub h (content (file (pager t'))) (rootPageID t')
       = leavesSub h (content (file (pager t))) (rootPageID t)
    /\ covers (pager t')
    /\ treeEntries h t' = insertBefore key value (treeEntries h t)
    /\ StronglySorted Z.lt (treeEntries h t').*1.
Proof.
  intros Hct Hnd Cv Hfu Hf Hn Hfit Hnew Hk Hv.
  unfold checkTree in Hct. apply andb_true_iff in Hct.
  destruct Hct as (Hc & Hch).
  set (c := content (file (pager t))) in *.
  set (fs := fileSize (pager t)) in *.
  destruct (descent_update c fs key h (rootPageID t) None None Hc eq_refl Hnd)
    as (leaf & pre & post & lo & hi & El & Hpre & Hpost & Hleaf & Hin & Hrun
        & Hupd).
  destruct (Hrun fuel t eq_refl eq_refl Hfu) as (t1' & E1 & _).
  unfold findLeafPage in Hf. rewrite E1 in Hf. injection Hf as <- <-.
  destruct (leaf_check_parts _ _ _ _ _ Hleaf) as (Rb & Lf & Hfit0 & Hinc & Hrg).
  pose proof (readableb_readable t leaf Rb) as R.
  pose proof R as (R1 & R2 & R3).
  destruct (Insert_no_split fuel t key value leaf t1' E1 R Cv Hn Hfit Hnew
              Hk Hv)
    as (t' & new & I & Inew & C' & F' & N' & Rt' & D').
  assert (Lo : page_ok (pageAt t leaf)) by (apply length_pageAt; exact R).
  destruct (insertIntoLeaf_image (pageAt t leaf) key value Lo Hfit Hk Hv)
    as (new' & Inew' & Ln & Nn & Es & Il & _ & _ & Nx).
  rewrite Inew in Inew'. injection Inew' as <-.
  fold c in C'. fold fs in F'.
  change (pageAt t leaf) with (pageOf c leaf) in *.
  pose proof (pwrite_replaces c fs leaf new ltac:(lia) R3 Ln) as Hrep.
  rewrite <- C' in Hrep.
  set (c' := content (file (pager t'))) in *.
  assert (Esb : leafEntries new
                = insertBefore key value (leafEntries (pageOf c leaf)))
    by (rewrite Es; now apply placeEntry_insertBefore).
  assert (Hsn : StronglySorted Z.lt (leafEntries new).*1).
  { rewrite Esb. apply insertBefore_sorted; [|exact Hnew].
    now apply increasing_sorted. }
  assert (Hnewleaf : checkSub 0 c' fs leaf lo hi = true).
  { destruct Hrep as (Hlen & Hpg & _).
    cbn [checkSub]. rewrite Hpg.
    unfold readableb in *. rewrite Hlen, Rb, Il, Lf. cbn [andb].
    rewrite (sorted_increasing _ Hsn), andb_true_r.
    apply andb_true_iff. split; [apply Z.leb_le; rewrite Nn; exact Hfit|].
    apply forallb_forall. intros k Hk'. apply list_elem_of_In in Hk'.
    rewrite Esb in Hk'.
    rewrite (fmap_Permutation _ _ _ (insertBefore_perm key value _)) in Hk'.
    cbn in Hk'. apply elem_of_cons in Hk'. destruct Hk' as [->|Hk'];
      [exact Hin|].
    rewrite forallb_forall in Hrg. apply Hrg. now apply list_elem_of_In. }
  destruct (Hupd c' new Hrep Hnewleaf) as (U1 & U2 & U3 & U4).
  pose proof (checkSub_leafOk _ _ _ _ _ _ Hc) as Hok.
  pose proof (chained_replaces c c' fs leaf new Hrep Nx _ Hok Hch) as Hch'.
  assert (Et : treeEntries h t'
               = insertBefore key value (treeEntries h t)).
  { unfold treeEntries. rewrite Rt'. fold c c'. rewrite U2, El.
    rewrite !entriesOf_app. change (leaf :: post) with ([leaf] ++ post).
    rewrite !entriesOf_app, U3, U4.
    rewrite insertBefore_app_l by exact Hpre.
    rewrite insertBefore_app_r by exact Hpost.
    destruct Hrep as (_ & Hpg & _).
    unfold entriesOf at 2 5. cbn [flat_map]. rewrite !app_nil_r.
    rewrite Hpg, Esb. reflexivity. }
  exists t'. split; [exact I|]. split; [|split; [|split; [|split]]].
  - unfold checkTree. rewrite Rt', F'. fold c'. rewrite U1, U2, Hch'.
    reflexivity.
  - rewrite Rt'. fold c'. exact U2.
  - unfold covers. fold c'. destruct Hrep as (Hlen & _).
    rewrite Hlen, F'. exact Cv.
  - exact Et.
  - destruct (checkSub_keysOk _ _ _ _ _ _ U1) as (Hs & _).
    unfold treeEntries. rewrite Rt'. fold c'. exact Hs.
Qed.

(** ** The first split of the root *)

Lemma getUint64_drop (p1 p2 : list byte) o :
  headerSize <= o ->
  drop (Z.to_nat headerSize) p1 = drop (Z.to_nat headerSize) p2 ->
  getUint64 p1 o = getUint64 p2 o.
Proof.
  intros Ho E. unfold getUint64, getLE, loadBytes.
  replace (Z.to_nat o)
    with (Z.to_nat headerSize + (Z.to_nat o - Z.to_nat headerSize))%nat
    by hlia.
  rewrite <- !drop_drop, E. reflexivity.
Qed.

Lemma pairsAt_drop (p1 p2 : list byte) :
  drop (Z.to_nat headerSize) p1 = drop (Z.to_nat headerSize) p2 ->
  forall n off, headerSize <= off -> pairsAt p1 off n = pairsAt p2 off n.
Proof.
  intros E. induction n as [|n IH]; intros off Ho; [reflexivity|].
  cbn [pairsAt]. rewrite (getUint64_drop p1 p2 off Ho E).
  rewrite (getUint64_drop p1 p2 (off + 8)) by (try exact E; lia).
  rewrite IH by lia. reflexivity.
Qed.

Lemma leafEntries_drop (p1 p2 : list byte) :
  getNumKeys p1 = getNumKeys p2 ->
  drop (Z.to_nat headerSize) p1 = drop (Z.to_nat headerSize) p2 ->
  leafEntries p1 = leafEntries p2.
Proof.
  intros N E. unfold leafEntries. rewrite N. apply pairsAt_drop; [exact E|lia].
Qed.

Lemma numKeys_entries (page : list byte) :
  getNumKeys page = Z.of_nat (length (leafEntries page)).
Proof.
  unfold leafEntries. rewrite length_pairsAt.
  pose proof (getNumKeys_nonneg page). lia.
Qed.

(** The state after [splitAndInsertLeaf] has written the two halves. *)
Lemma splitLeafStep_state t oldPageID (oldPage : list byte) key value :
  pager_wf (pager t) ->
  numPages (pager t) + 1 < 2 ^ 51 - 1 ->
  0 <= oldPageID < numPages (pager t) ->
  page_ok oldPage -> 3 <= degree t ->
  getNumKeys oldPage = degree t - 1 -> fitsLeaf oldPage ->
  is_int64 key -> is_int64 value ->
  let temp := insertBefore key value (leafEntries oldPage) in
  let sp := Z.to_nat (degree t / 2) in
  let newPageID := numPages (pager t) in
  exists k t' oldPage' newPage',
    splitLeafStep t oldPageID oldPage key value
    = (Ok (getParentPageID oldPage, oldPageID, k, newPageID), t')
    /\ pager_wf (pager t')
    /\ numPages (pager t') = newPageID + 1
    /\ rootPageID t' = rootPageID t /\ degree t' = degree t
    /\ (readable t' oldPageID /\ pageAt t' oldPageID = oldPage')
    /\ (readable t' newPageID /\ pageAt t' newPageID = newPage')
    /\ (forall q, 0 <= q < numPages (pager t) -> q <> oldPageID ->
                  readable t' q /\ pageAt t' q = pageAt t q)
    /\ (1 <= sp < Z.to_nat (degree t))%nat
    /\ length temp = Z.to_nat (degree t)
    /\ leafEntries oldPage' = take sp temp
    /\ leafEntries newPage' = drop sp temp
    /\ head (drop sp temp).*1 = Some k
    /\ getNextLeafPageID newPage' = getNextLeafPageID oldPage
    /\ getNextLeafPageID oldPage' = newPageID
    /\ isLeaf oldPage' = isLeaf oldPage
    /\ isLeaf newPage' = true.
Proof.
  intros W Hroom Hold L HD HN Hfit Hk Hv temp sp newPageID.
  destruct (treeAllocate_spec t W) as (t1 & A & C1 & F1 & N1 & R1 & D1).
  pose proof W as (Wa & Wl & Wb). unfold sizes_agree in Wa.
  assert (Hid : is_int64 newPageID) by (unfold is_int64, newPageID; lia).
  destruct (splitLeaf_spec (degree t) oldPage newPageID key value L HD HN
              Hfit Hk Hv Hid)
    as (oldPage' & newPage' & k & S & Lo & Ln & Eo & En & Hh & Nn & No
        & Po & Pn & Io & In).
  assert (Hq : 1 <= Z.quot (degree t) 2 < degree t
               /\ Z.quot (degree t) 2 = degree t / 2).
  { rewrite Z.quot_div_nonneg by lia. split; [|reflexivity].
    Z.div_mod_to_equations; lia. }
  destruct Hq as [Hq Hqd]. rewrite Hqd in *. fold sp in Eo, En, Hh.
  fold temp in Eo, En, Hh.
  assert (B1 : 0 <= oldPageID < 2 ^ 51 - 1) by lia.
  assert (B2 : 0 <= newPageID < 2 ^ 51 - 1) by (unfold newPageID; lia).
  assert (B3 : oldPageID <> newPageID) by (unfold newPageID; lia).
  destruct (treeWrite_ok t1 oldPageID oldPage' B1)
    as (t2 & W2 & C2 & F2 & N2 & R2 & D2).
  destruct (treeWrite_ok t2 newPageID newPage' B2)
    as (t3 & W3 & C3 & F3 & N3 & R3 & D3).
  destruct (treeWrite_same t1 oldPageID oldPage' t2 B1 Lo W2) as [Ro2 Po2].
  destruct (treeWrite_other t2 newPageID newPage' t3 oldPageID B2 Ln W3 Ro2 B3)
    as [Ro3 Po3].
  destruct (treeWrite_same t2 newPageID newPage' t3 B2 Ln W3) as [Rn3 Pn3].
  assert (Ltemp : length temp = Z.to_nat (degree t)).
  { unfold temp. rewrite length_insertBefore. unfold leafEntries.
    rewrite length_pairsAt, HN. lia. }
  assert (F2' : fileSize (pager t2) = (newPageID + 1) * PageSize)
    by (rewrite F2, F1, Wa; fold newPageID; hlia).
  assert (N2' : numPages (pager t2) = newPageID + 1).
  { rewrite N2, F1, Wa, N1. fold newPageID.
    match goal with |- context [if ?c then _ else _] =>
      destruct c eqn:G end; [hlia|reflexivity]. }
  assert (Lc2 : length (content (file (pager t2)))
                = length (content (file (pager t))))
    by (rewrite C2, length_pwrite, C1, Lo; hlia).
  assert (F3' : fileSize (pager t3) = (newPageID + 1) * PageSize)
    by (rewrite F3, F2'; hlia).
  assert (N3' : numPages (pager t3) = newPageID + 1).
  { rewrite N3, F2', N2'.
    match goal with |- context [if ?c then _ else _] =>
      destruct c eqn:G end; [hlia|reflexivity]. }
  assert (Lc3 : Z.of_nat (length (content (file (pager t3))))
                = (newPageID + 1) * PageSize).
  { rewrite C3, length_pwrite, Lc2, Ln.
    assert (Z.of_nat (length (content (file (pager t))))
            = newPageID * PageSize) by (rewrite Wl, Wa; reflexivity).
    hlia. }
  exists k, t3, oldPage', newPage'.
  split.
  { unfold splitLeafStep. rewrite A. rewrite D1. fold newPageID.
    rewrite S, W2, W3. rewrite Po. reflexivity. }
  split.
  { unfold pager_wf, sizes_agree. rewrite F3', N3', Lc3.
    unfold newPageID in *. repeat split; lia. }
  split; [exact N3'|]. split; [congruence|]. split; [congruence|].
  split; [split; [exact Ro3|congruence]|].
  split; [split; [exact Rn3|exact Pn3]|].
  split.
  { intros q Hq1 Hq2.
    assert (Rq1 : readable t1 q /\ pageAt t1 q = pageAt t q).
    { unfold readable, pageAt. rewrite C1, F1, Wl, Wa. fold newPageID.
      split; [hlia|reflexivity]. }
    destruct Rq1 as (Rq1 & Pq1).
    destruct (treeWrite_other t1 oldPageID oldPage' t2 q B1 Lo W2 Rq1 Hq2)
      as (Rq2 & Pq2).
    destruct (treeWrite_other t2 newPageID newPage' t3 q B2 Ln W3 Rq2
                ltac:(unfold newPageID; lia)) as (Rq3 & Pq3).
    split; [exact Rq3|congruence]. }
  split; [unfold sp; lia|].
  split; [exact Ltemp|].
  repeat split; assumption.
Qed.

Lemma pager_wf_reads t t' :
  only_reads t t' -> pager_wf (pager t) -> pager_wf (pager t').
Proof.
  intros (C & F & N & _) (A & L & B). unfold pager_wf, sizes_agree.
  rewrite C, F, N. auto.
Qed.

Lemma readable_readableb t id :
  readable t id ->
  readableb (content (file (pager t))) (fileSize (pager t)) id = true.
Proof.
  intros (H1 & H2 & H3). unfold readableb.
  rewrite !andb_true_iff, !Z.leb_le, !Z.ltb_lt. lia.
Qed.

Lemma sorted_app_l (l1 l2 : list Z) :
  StronglySorted Z.lt (l1 ++ l2) -> StronglySorted Z.lt l1.
Proof.
  induction l1 as [|x l1 IH]; [constructor|].
  cbn. intros S. apply StronglySorted_inv in S. destruct S as (S & F).
  constructor; [auto|]. apply Forall_app in F. tauto.
Qed.

Lemma sorted_app_lt (l1 l2 : list Z) x y :
  StronglySorted Z.lt (l1 ++ l2) -> x ∈ l1 -> y ∈ l2 -> x < y.
Proof.
  induction l1 as [|a l1 IH]; intros S Hx Hy; [inversion Hx|].
  cbn in S. apply StronglySorted_inv in S. destruct S as (S & F).
  apply elem_of_cons in Hx. destruct Hx as [->|Hx]; [|auto].
  rewrite Forall_forall in F. apply F. apply elem_of_app. now right.
Qed.

Lemma leaf_check c fs id lo hi :
  readableb c fs id = true ->
  isLeaf (pageOf c id) = true ->
  headerSize + Z.of_nat (length (leafEntries (pageOf c id))) * 16 <= PageSize ->
  StronglySorted Z.lt (leafEntries (pageOf c id)).*1 ->
  Forall (fun k => inRange lo hi k = true) (leafEntries (pageOf c id)).*1 ->
  checkSub 0 c fs id lo hi = true.
Proof.
  intros R Lf Hfit Hs Hr. cbn [checkSub]. rewrite R, Lf. cbn [andb].
  rewrite (sorted_increasing _ Hs), andb_true_r.
  apply andb_true_iff. split.
  - apply Z.leb_le. rewrite numKeys_entries. exact Hfit.
  - apply forallb_forall. intros k Hk. rewrite Forall_forall in Hr.
    apply Hr. now apply list_elem_of_In.
Qed.

(** The state after the insert that splits a root leaf: the two halves
    and the root above them. *)
Lemma root_leaf_split_state fuel t key value :
  pager_wf (pager t) ->
  numPages (pager t) + 2 < 2 ^ 51 - 1 ->
  0 <= rootPageID t < numPages (pager t) ->
  isLeaf (pageAt t (rootPageID t)) = true ->
  getParentPageID (pageAt t (rootPageID t)) = -1 ->
  getNextLeafPageID (pageAt t (rootPageID t)) = -1 ->
  3 <= degree t ->
  getNumKeys (pageAt t (rootPageID t)) = degree t - 1 ->
  fitsLeaf (pageAt t (rootPageID t)) ->
  StronglySorted Z.lt (leafEntries (pageAt t (rootPageID t))).*1 ->
  key ∉ (leafEntries (pageAt t (rootPageID t))).*1 ->
  is_int64 key -> is_int64 value ->
  (1 <= fuel)%nat ->
  let r := rootPageID t in
  let n := numPages (pager t) in
  let temp := insertBefore key value (leafEntries (pageAt t r)) in
  let sp := Z.to_nat (degree t / 2) in
  exists t' k,
    Insert fuel t key value = (Ok tt, t')
    /\ numPages (pager t') = n + 2
    /\ rootPageID t' = n + 1
    /\ degree t' = degree t
    /\ pager_wf (pager t')
    /\ readable t' (n + 1)
    /\ isLeaf (pageAt t' (n + 1)) = false
    /\ getNumKeys (pageAt t' (n + 1)) = 1
    /\ internalKeys (pageAt t' (n + 1)) = [k]
    /\ internalPointers (pageAt t' (n + 1)) = [r; n]
    /\ checkSub 0 (content (file (pager t'))) (fileSize (pager t')) r
                None (Some k) = true
    /\ checkSub 0 (content (file (pager t'))) (fileSize (pager t')) n
                (Some k) None = true
    /\ getNextLeafPageID (pageAt t' r) = n
    /\ getNextLeafPageID (pageAt t' n) = -1
    /\ leafEntries (pageAt t' r) = take sp temp
    /\ leafEntries (pageAt t' n) = drop sp temp.
Proof.
  intros W Hroom Hr Lf Hpar Hnx HD HN Hfit Hs Hnew Hk Hv Hfuel.
  cbv zeta.
  destruct fuel as [|fuel]; [lia|].
  set (r := rootPageID t) in *. set (page := pageAt t r) in *.
  set (n := numPages (pager t)) in *.
  pose proof (pager_wf_readable t r W Hr) as R.
  assert (L : page_ok page) by (apply length_pageAt; exact R).
  destruct (read_step t r R) as (t1 & E1 & O1).
  destruct (only_reads_readable t t1 _ O1 R) as (R1 & P1).
  destruct (read_step t1 r R1) as (t2 & E2 & O2).
  assert (O12 : only_reads t t2) by (eapply only_reads_trans; eauto).
  pose proof (pager_wf_reads t t2 O12 W) as W2.
  pose proof O12 as (Oc & Of & On & Or & Od & _).
  pose proof (getNumKeys_nonneg page) as Hn0.
  unfold fitsLeaf in Hfit. rewrite L in Hfit.
  (* the split of the leaf *)
  destruct (splitLeafStep_state t2 r page key value W2)
    as (k & t3 & oldPage' & newPage' & S3 & W3 & N3 & Rt3 & D3 & (Ro3 & Po3)
        & (Rn3 & Pn3) & _ & Hsp & Ltemp & Eo & En & Hh & Nn & No & Io & In);
    rewrite ?On, ?Od; try assumption; try lia;
    try (unfold fitsLeaf; rewrite L; lia).
  rewrite On, Od in *. fold n in S3, N3, Rn3, Pn3, No.
  set (temp := insertBefore key value (leafEntries page)) in *.
  set (sp := Z.to_nat (degree t / 2)) in *.
  assert (Hst : StronglySorted Z.lt temp.*1)
    by (apply insertBefore_sorted; assumption).
  assert (Etemp : temp.*1 = (take sp temp).*1 ++ (drop sp temp).*1)
    by (rewrite <- fmap_app, take_drop; reflexivity).
  assert (Hkin : k ∈ (drop sp temp).*1).
  { destruct ((drop sp temp).*1) as [|x l]; [discriminate|].
    injection Hh as ->. left. }
  assert (Hk64 : is_int64 k).
  { rewrite <- En in Hkin. apply list_elem_of_fmap in Hkin.
    destruct Hkin as ([a b] & -> & Hab).
    pose proof (pairsAt_int64 newPage' (Z.to_nat (getNumKeys newPage'))
                  headerSize) as F.
    rewrite Forall_forall in F. apply (F (a, b)) in Hab. apply Hab. }
  (* the new root *)
  destruct (createRoot_image t3 r k n W3)
    as (t' & rootPage & C & Rt' & D' & N' & Sz' & Lc' & (Rr & Pr) & I1 & _
        & _ & Ik & Ip & Nk & (Rl & Pl) & (Rn & Pn) & _);
    rewrite ?N3; try lia; try exact Hk64.
  rewrite N3 in *.
  assert (Hn64 : is_int64 (n + 1))
    by (destruct W as (_ & _ & W); unfold is_int64; fold n in W; lia).
  assert (Lo' : page_ok oldPage')
    by (rewrite <- Po3; apply length_pageAt; exact Ro3).
  assert (Ln' : page_ok newPage')
    by (rewrite <- Pn3; apply length_pageAt; exact Rn3).
  rewrite Po3 in Pl. rewrite Pn3 in Pn.
  destruct (child_image oldPage' (n + 1) Lo' Hn64)
    as (_ & _ & _ & Il & Nl & Xl & Dl).
  destruct (child_image newPage' (n + 1) Ln' Hn64)
    as (_ & _ & _ & Ir & Nr & Xr & Dr).
  rewrite <- Pl in Il, Nl, Xl, Dl. rewrite <- Pn in Ir, Nr, Xr, Dr.
  set (c' := content (file (pager t'))) in *.
  set (fs' := fileSize (pager t')) in *.
  change (pageAt t' r) with (pageOf c' r) in *.
  change (pageAt t' n) with (pageOf c' n) in *.
  change (pageAt t' (n + 1)) with (pageOf c' (n + 1)) in *.
  assert (El : leafEntries (pageOf c' r) = take sp temp)
    by (rewrite <- Eo; apply leafEntries_drop; assumption).
  assert (Er : leafEntries (pageOf c' n) = drop sp temp)
    by (rewrite <- En; apply leafEntries_drop; assumption).
  assert (Cl : checkSub 0 c' fs' r None (Some k) = true).
  { apply leaf_check.
    - apply readable_readableb. exact Rl.
    - rewrite Il, Io. exact Lf.
    - rewrite El, length_take. hlia.
    - rewrite El. rewrite Etemp in Hst. now apply sorted_app_l in Hst.
    - rewrite El. apply Forall_forall. intros x Hx. apply inRange_spec.
      split; [exact I|]. rewrite Etemp in Hst.
      apply (sorted_app_lt _ _ x k Hst Hx Hkin). }
  assert (Cr : checkSub 0 c' fs' n (Some k) None = true).
  { apply leaf_check.
    - apply readable_readableb. exact Rn.
    - rewrite Ir. exact In.
    - rewrite Er, length_drop. hlia.
    - rewrite Er. rewrite Etemp in Hst. now apply sorted_app_r in Hst.
    - rewrite Er. apply Forall_forall. intros x Hx. apply inRange_spec.
      split; [|exact I]. rewrite Etemp in Hst. apply sorted_app_r in Hst.
      destruct ((drop sp temp).*1) as [|y l]; [discriminate|].
      injection Hh as ->. apply StronglySorted_inv in Hst.
      destruct Hst as (_ & F). apply elem_of_cons in Hx.
      destruct Hx as [->|Hx]; [lia|].
      rewrite Forall_forall in F. specialize (F x Hx). lia. }
  exists t', k.
  change (pageAt t' r) with (pageOf c' r).
  change (pageAt t' n) with (pageOf c' n).
  change (pageAt t' (n + 1)) with (pageOf c' (n + 1)).
  conjs.
  - unfold Insert, findLeafPage. fold r. cbn [findLeafLoop].
    rewrite E1. fold page. rewrite Lf, E2, P1. fold page.
    rewrite (hasKey_lookup page key _ 0) by (rewrite ?L, ?Z2Nat.id; hlia).
    replace (headerSize + 0 * 16) with headerSize by lia.
    fold (leafEntries page). rewrite lookupEntry_absent by exact Hnew.
    cbn [snd]. rewrite Od.
    destruct (getNumKeys page <? degree t - 1) eqn:G; [lia|].
    unfold splitAndInsertLeaf. rewrite S3, Hpar.
    cbn [insertIntoParent]. change (-1 =? -1) with true. cbv iota.
    exact C.
  - rewrite N'. lia.
  - exact Rt'.
  - congruence.
  - unfold pager_wf. split; [exact Sz'|]. split; [exact Lc'|].
    rewrite N'. destruct W as (_ & _ & W). fold n in W, Hroom. lia.
  - exact Rr.
  - rewrite Pr. exact I1.
  - rewrite Pr. exact Nk.
  - rewrite Pr. exact Ik.
  - rewrite Pr. exact Ip.
  - exact Cl.
  - exact Cr.
  - rewrite Xl. exact No.
  - rewrite Xr, Nn. exact Hnx.
  - exact El.
  - exact Er.
Qed.

(** A root with one key over two leaves that pass the checks, the first
    naming the second as its next leaf and the second none. *)
Lemma root_over_two_leaves t r n k :
  readable t (rootPageID t) ->
  isLeaf (pageAt t (rootPageID t)) = false ->
  getNumKeys (pageAt t (rootPageID t)) = 1 ->
  internalKeys (pageAt t (rootPageID t)) = [k] ->
  internalPointers (pageAt t (rootPageID t)) = [r; n] ->
  checkSub 0 (content (file (pager t))) (fileSize (pager t)) r
           None (Some k) = true ->
  checkSub 0 (content (file (pager t))) (fileSize (pager t)) n
           (Some k) None = true ->
  getNextLeafPageID (pageAt t r) = n ->
  getNextLeafPageID (pageAt t n) = -1 ->
  checkTree 1 t = true
  /\ leavesSub 1 (content (file (pager t))) (rootPageID t) = [r; n]
  /\ treeEntries 1 t = leafEntries (pageAt t r) ++ leafEntries (pageAt t n).
Proof.
  intros Rr I1 Nk Ik Ip Cl Cr Xl Xr.
  apply readable_readableb in Rr.
  set (c := content (file (pager t))) in *.
  set (fs := fileSize (pager t)) in *.
  set (root := rootPageID t) in *.
  change (pageAt t root) with (pageOf c root) in *.
  change (pageAt t r) with (pageOf c r) in *.
  change (pageAt t n) with (pageOf c n) in *.
  assert (Hl : leavesSub 1 c root = [r; n])
    by (cbn [leavesSub]; rewrite Ip; reflexivity).
  split; [|split; [exact Hl|]].
  - unfold checkTree. fold c fs root. rewrite Hl.
    apply andb_true_iff. split.
    + change (checkSub 1 c fs root None None) with
        (readableb c fs root
         && (negb (isLeaf (pageOf c root))
             && (headerSize + 8 + getNumKeys (pageOf c root) * 16
                 <=? PageSize)
             && checkChildren (checkSub 0 c fs) None
                  (internalKeys (pageOf c root))
                  (internalPointers (pageOf c root)) None)).
      rewrite Rr, I1, Ik, Ip, Nk. cbn [negb andb checkChildren inOpen].
      rewrite Cl, Cr. reflexivity.
    + cbn [chained]. rewrite Xl, Xr, !Z.eqb_refl. reflexivity.
  - unfold treeEntries. fold c root. rewrite Hl. unfold entriesOf.
    cbn [flat_map app]. rewrite app_nil_r. reflexivity.
Qed.

(** X14.  The insert that splits a tree of one leaf.  The root is a leaf
    without parent and without next leaf that holds [degree - 1] strictly
    increasing keys, and the key is new.  The insert succeeds with two new
    pages: the right half and, above both halves, the new root.  The tree
    after it has height 1 and passes the checks; its two leaves are the old
    root and the new page, in this order, and their entries are the old
    entries with the new one at its place in the order. *)
Theorem Insert_splits_root_leaf fuel t key value :
  pager_wf (pager t) ->
  numPages (pager t) + 2 < 2 ^ 51 - 1 ->
  0 <= rootPageID t < numPages (pager t) ->
  isLeaf (pageAt t (rootPageID t)) = true ->
  getParentPageID (pageAt t (rootPageID t)) = -1 ->
  getNextLeafPageID (pageAt t (rootPageID t)) = -1 ->
  3 <= degree t ->
  getNumKeys (pageAt t (rootPageID t)) = degree t - 1 ->
  fitsLeaf (pageAt t (rootPageID t)) ->
  StronglySorted Z.lt (leafEntries (pageAt t (rootPageID t))).*1 ->
  key ∉ (leafEntries (pageAt t (rootPageID t))).*1 ->
  is_int64 key -> is_int64 value ->
  (1 <= fuel)%nat ->
  exists t',
    Insert fuel t key value = (Ok tt, t')
    /\ numPages (pager t') = numPages (pager t) + 2
    /\ rootPageID t' = numPages (pager t) + 1
    /\ degree t' = degree t
    /\ pager_wf (pager t')
    /\ checkTree 1 t' = true
    /\ leavesSub 1 (content (file (pager t'))) (rootPageID t')
       = [rootPageID t; numPages (pager t)]
    /\ treeEntries 1 t'
       = insertBefore key value (leafEntries (pageAt t (rootPageID t))).
Proof.
  intros W Hroom Hr Lf Hpar Hnx HD HN Hfit Hs Hnew Hk Hv Hfuel.
  destruct (root_leaf_split_state fuel t key value W Hroom Hr Lf Hpar Hnx HD
              HN Hfit Hs Hnew Hk Hv Hfuel)
    as (t' & k & I & N' & Rt' & D' & W' & Rr & I1 & Nk & Ik & Ip & Cl & Cr
        & Xl & Xr & El & Er).
  rewrite <- Rt' in Rr, I1, Nk, Ik, Ip.
  destruct (root_over_two_leaves t' _ _ k Rr I1 Nk Ik Ip Cl Cr Xl Xr)
    as (C & Hl & Et).
  exists t'. split; [exact I|]. split; [exact N'|]. split; [exact Rt'|].
  split; [exact D'|]. split; [exact W'|]. split; [exact C|].
  split; [exact Hl|].
  rewrite Et, El, Er. apply take_drop.
Qed.

(** ** The first inserts into a new file *)

Lemma NewBPlusTree_rootLeaf deg :
  3 <= deg ->
  exists t,
    NewBPlusTree (NewPager emptyFile) deg = Some t
    /\ rootLeaf t [] /\ degree t = deg.
Proof.
  intros H. unfold NewBPlusTree.
  destruct (deg <? 3) eqn:E; [lia|].
  change (numPages (NewPager emptyFile) =? 0) with true. cbv zeta.
  match goal with |- context [WritePage ?p ?i ?pg] =>
    set (w := WritePage p i pg) end.
  assert (W : w = (fst w, snd w)) by (destruct w; reflexivity).
  rewrite W. eexists. split; [reflexivity|]. split; [|reflexivity].
  unfold rootLeaf, pager_wf, sizes_agree, pageAt. cbn [pager rootPageID].
  conjs; try (vm_compute; first [reflexivity | intro; discriminate]).
  cbn. constructor.
Qed.

Lemma insertBefore_keys key value es :
  (insertBefore key value es).*1 ≡ₚ key :: es.*1.
Proof. rewrite insertBefore_perm. reflexivity. Qed.

Lemma Insert_rootLeaf fuel t es key value :
  rootLeaf t es ->
  Z.of_nat (length es) < degree t - 1 -> Z.of_nat (length es) < 254 ->
  key ∉ es.*1 -> is_int64 key -> is_int64 value -> (1 <= fuel)%nat ->
  exists t',
    Insert fuel t key value = (Ok tt, t')
    /\ rootLeaf t' (insertBefore key value es)
    /\ degree t' = degree t.
Proof.
  intros (W & R0 & N1 & Lf & Hp & Hx & Es & Hs) Hn Hd Hnew Hk Hv Hfuel.
  destruct fuel as [|fuel]; [lia|].
  assert (R : readable t 0) by (apply pager_wf_readable; [exact W|lia]).
  destruct (read_step t 0 R) as (t1 & E1 & O1).
  assert (Hf : findLeafPage (S fuel) t key = (Ok 0, t1)).
  { unfold findLeafPage. cbn [findLeafLoop]. rewrite R0, E1, Lf.
    reflexivity. }
  assert (Lo : page_ok (pageAt t 0)) by (apply length_pageAt; exact R).
  assert (Nk : getNumKeys (pageAt t 0) = Z.of_nat (length es))
    by (rewrite <- Es; apply numKeys_entries).
  assert (Hfit : headerSize + (getNumKeys (pageAt t 0) + 1) * 16 <= PageSize)
    by (rewrite Nk; hlia).
  pose proof W as (Ws & Wl & Wn).
  assert (Cv : covers (pager t)) by (unfold covers; lia).
  destruct (Insert_no_split (S fuel) t key value 0 t1 Hf R Cv)
    as (t' & new & I & In & C' & F' & N' & R' & D');
    rewrite ?Nk, ?Es; try assumption; try lia.
  destruct (insertIntoLeaf_image (pageAt t 0) key value Lo Hfit Hk Hv)
    as (new' & In' & Ln & _ & En & Lfn & _ & Pn & Xn).
  rewrite In in In'. injection In' as <-.
  unfold sizes_agree in Ws. rewrite N1 in Ws.
  assert (P' : pageAt t' 0 = new).
  { unfold pageAt. rewrite C'. unfold page_ok in Ln. rewrite <- Ln.
    apply load_pwrite_same. }
  exists t'. split; [exact I|]. split; [|exact D'].
  unfold rootLeaf. rewrite P'.
  split; [|split; [congruence|split; [congruence|split; [congruence|
    split; [congruence|split; [congruence|split]]]]]].
  - unfold pager_wf, sizes_agree. rewrite F', N', C', length_pwrite.
    unfold page_ok in Ln. rewrite Ln. split; [hlia|]. split; hlia.
  - rewrite En, Es. apply placeEntry_insertBefore. exact Hnew.
  - apply insertBefore_sorted; assumption.
Qed.

Lemma insertAll_rootLeaf fuel : forall kvs t es,
  rootLeaf t es ->
  Z.of_nat (length es) + Z.of_nat (length kvs) <= degree t - 1 ->
  Z.of_nat (length es) + Z.of_nat (length kvs) <= 254 ->
  NoDup kvs.*1 -> (forall k, k ∈ kvs.*1 -> k ∉ es.*1) ->
  Forall pair_int64 kvs -> (1 <= fuel)%nat ->
  exists t',
    insertAll fuel t kvs = (Ok tt, t')
    /\ rootLeaf t' (fold_left (fun es kv => insertBefore kv.1 kv.2 es) kvs es)
    /\ degree t' = degree t.
Proof.
  induction kvs as [|[k v] kvs IH]; intros t es J Hn Hd Hnd Hnew Hi Hfuel.
  - exists t. cbn. auto.
  - cbn [length fmap list_fmap fst] in *.
    apply NoDup_cons in Hnd. destruct Hnd as (Hk & Hnd).
    apply Forall_cons in Hi. destruct Hi as ((Hk64 & Hv64) & Hi).
    cbn [fst snd] in Hk64, Hv64.
    destruct (Insert_rootLeaf fuel t es k v J) as (t1 & I & J1 & D1);
      try assumption; try lia.
    { apply Hnew. left. }
    destruct (IH t1 (insertBefore k v es) J1) as (t' & I' & J' & D');
      try assumption.
    + rewrite length_insertBefore, D1. lia.
    + rewrite length_insertBefore. lia.
    + intros k' Hk'. rewrite insertBefore_keys.
      apply not_elem_of_cons. split.
      * intros ->. contradiction.
      * apply Hnew. now right.
    + exists t'. cbn [insertAll fold_left fst snd]. rewrite I.
      split; [exact I'|]. split; [exact J'|congruence].
Qed.

Lemma insertAll_app fuel : forall kvs1 kvs2 t t1,
  insertAll fuel t kvs1 = (Ok tt, t1) ->
  insertAll fuel t (kvs1 ++ kvs2) = insertAll fuel t1 kvs2.
Proof.
  induction kvs1 as [|[k v] kvs1 IH]; intros kvs2 t t1; cbn [insertAll app].
  - intros [= <-]. reflexivity.
  - destruct (Insert fuel t k v) as [[[]|e| |] t2]; try discriminate.
    apply IH.
Qed.

Lemma fold_insertBefore_perm : forall kvs es,
  fold_left (fun es kv => insertBefore kv.1 kv.2 es) kvs es ≡ₚ es ++ kvs.
Proof.
  induction kvs as [|[k v] kvs IH]; intros es; cbn [fold_left fst snd].
  - now rewrite app_nil_r.
  - rewrite IH, insertBefore_perm.
    change ((k, v) :: es) with ([(k, v)] ++ es).
    change ((k, v) :: kvs) with ([(k, v)] ++ kvs).
    rewrite (Permutation_app_comm [(k, v)] es), <- app_assoc. reflexivity.
Qed.

Lemma rootLeaf_checkTree t es :
  rootLeaf t es -> Z.of_nat (length es) <= 254 ->
  checkTree 0 t = true /\ treeEntries 0 t = es.
Proof.
  intros (W & R0 & N1 & Lf & Hp & Hx & Es & Hs) Hn.
  assert (R : readable t 0) by (apply pager_wf_readable; [exact W|lia]).
  unfold checkTree, treeEntries. rewrite R0. cbn [leavesSub chained].
  rewrite <- pageAt_pageOf, Hx. split.
  - apply andb_true_iff. split; [|reflexivity].
    apply leaf_check; rewrite <- ?pageAt_pageOf, ?Es.
    + apply readable_readableb. exact R.
    + exact Lf.
    + hlia.
    + exact Hs.
    + apply Forall_forall. intros; reflexivity.
  - unfold entriesOf. cbn [flat_map]. rewrite app_nil_r.
    rewrite <- pageAt_pageOf. exact Es.
Qed.

(** X15.  The first inserts into a new file, in any order: for a degree
    from 3 to 255 and at most [degree] entries with pairwise distinct
    keys, the tree made on an empty file takes every insert; it is then a
    well-formed tree, one leaf or, after the split by the last of
    [degree] inserts, a root over two leaves; its entries are the given
    ones in the order of their keys; and [Search] returns the value
    inserted with a key and nothing for any other key. *)
Theorem first_inserts fuel deg kvs :
  3 <= deg <= 255 ->
  Z.of_nat (length kvs) <= deg ->
  NoDup kvs.*1 -> Forall pair_int64 kvs -> (2 <= fuel)%nat ->
  exists t h,
    build fuel deg kvs = Some (Ok tt, t)
    /\ h = (if Z.of_nat (length kvs) <? deg then 0%nat else 1%nat)
    /\ checkTree h t = true
    /\ treeEntries h t ≡ₚ kvs
    /\ StronglySorted Z.lt (treeEntries h t).*1
    /\ (forall key value,
          (key, value) ∈ kvs -> fst (Search fuel t key) = Ok (value, true))
    /\ (forall key,
          key ∉ kvs.*1 -> fst (Search fuel t key) = Ok (0, false)).
Proof.
  intros Hd Hn Hnd Hi Hfuel.
  destruct (NewBPlusTree_rootLeaf deg ltac:(lia)) as (t0 & N & J0 & D0).
  assert (Core : exists t h,
    insertAll fuel t0 kvs = (Ok tt, t)
    /\ h = (if Z.of_nat (length kvs) <? deg then 0%nat else 1%nat)
    /\ checkTree h t = true
    /\ treeEntries h t
       = fold_left (fun es kv => insertBefore kv.1 kv.2 es) kvs []).
  { destruct (Z.ltb_spec (Z.of_nat (length kvs)) deg) as [E|E].
    - destruct (insertAll_rootLeaf fuel kvs t0 [] J0) as (t & I & J & D);
        rewrite ?D0; cbn [length]; try assumption; try lia.
      { intros k _. cbn. apply not_elem_of_nil. }
      exists t, 0%nat. split; [exact I|]. split; [reflexivity|].
      apply rootLeaf_checkTree; [exact J|].
      rewrite fold_insertBefore_perm. cbn [app]. lia.
    - assert (Hne : kvs <> []) by (intros ->; cbn in E; lia).
      destruct (exists_last Hne) as (kvs1 & [k v] & ->).
      rewrite length_app in Hn, E. cbn [length] in Hn, E.
      rewrite fmap_app in Hnd. apply NoDup_app in Hnd.
      destruct Hnd as (Hnd1 & Hnd2 & _).
      apply Forall_app in Hi. destruct Hi as (Hi1 & Hi2).
      apply Forall_cons in Hi2. destruct Hi2 as ((Hk64 & Hv64) & _).
      cbn [fst snd] in Hk64, Hv64.
      destruct (insertAll_rootLeaf fuel kvs1 t0 [] J0) as (t1 & I1 & J1 & D1);
        rewrite ?D0; cbn [length]; try assumption; try lia.
      { intros k' _. cbn. apply not_elem_of_nil. }
      set (es1 := fold_left (fun es kv => insertBefore kv.1 kv.2 es) kvs1 [])
        in *.
      assert (Pes : es1 ≡ₚ kvs1)
        by (unfold es1; rewrite fold_insertBefore_perm; reflexivity).
      assert (Les : Z.of_nat (length es1) = deg - 1) by (rewrite Pes; lia).
      pose proof J1 as (W & R0 & N1 & Lf & Hp & Hx & Es & Hs).
      assert (R : readable t1 0) by (apply pager_wf_readable; [exact W|lia]).
      assert (Lo : page_ok (pageAt t1 0)) by (apply length_pageAt; exact R).
      destruct (root_leaf_split_state fuel t1 k v)
        as (t & sep & I & _ & Rt & _ & _ & Rr & Il & Nk & Ik & Ip & Cl & Cr
            & Xl & Xr & El & Er);
        rewrite ?R0, ?N1, ?Es, ?D1, ?D0; try assumption; try lia.
      { rewrite (numKeys_entries (pageAt t1 0)), Es. lia. }
      { unfold fitsLeaf. rewrite (numKeys_entries (pageAt t1 0)), Es, Lo.
        hlia. }
      { rewrite Pes. intros Hin. apply (Hnd2 k Hin). cbn. left. }
      rewrite R0, N1, Es in *. rewrite <- Rt in Rr, Il, Nk, Ik, Ip.
      destruct (root_over_two_leaves t _ _ sep Rr Il Nk Ik Ip Cl Cr Xl Xr)
        as (C & _ & Et).
      exists t, 1%nat. split.
      { rewrite (insertAll_app fuel kvs1 [(k, v)] t0 t1 I1).
        cbn [insertAll]. rewrite I. reflexivity. }
      split; [reflexivity|]. split; [exact C|].
      rewrite Et, El, Er, take_drop, fold_left_app. reflexivity. }
  destruct Core as (t & h & I & Hh & C & Et).
  assert (Hlt : (h < fuel)%nat)
    by (rewrite Hh; destruct (_ <? _); lia).
  assert (Pt : treeEntries h t ≡ₚ kvs)
    by (rewrite Et, fold_insertBefore_perm; reflexivity).
  pose proof C as C0. unfold checkTree in C0.
  apply andb_true_iff in C0. destruct C0 as (C0 & _).
  destruct (checkSub_keysOk _ _ _ _ _ _ C0) as (Hs & _).
  fold (treeEntries h t) in Hs.
  exists t, h. split.
  { unfold build. rewrite N. cbn [mbind option_bind]. rewrite I.
    reflexivity. }
  split; [exact Hh|]. split; [exact C|]. split; [exact Pt|].
  split; [exact Hs|]. split.
  - intros key value Hin.
    rewrite (Search_checked h fuel t key C0 Hlt). f_equal. apply lookupEntry_sorted; [exact Hs|].
    rewrite Pt. exact Hin.
  - intros key Hout.
    rewrite (Search_checked h fuel t key C0 Hlt). f_equal. apply lookupEntry_absent. rewrite Pt. exact Hout.
Qed.

(** ** The last entry of a page *)

Lemma placeIndex_all key es :
  Forall (fun kv : Z * Z => kv.1 < key) es -> placeIndex key es = length es.
Proof.
  induction 1 as [|[k v] es H _ IH]; [reflexivity|].
  cbn in *. destruct (key >? k) eqn:G; [|lia]. now rewrite IH.
Qed.

Lemma insertIntoLeaf_no_room (page : list byte) key value :
  page_ok page ->
  headerSize + getNumKeys page * 16 = PageSize ->
  Forall (fun kv : Z * Z => kv.1 < key) (leafEntries page) ->
  insertIntoLeaf page key value = None.
Proof.
  intros L Hfull Hlt. unfold page_ok in L.
  pose proof (getNumKeys_nonneg page) as Hn.
  unfold insertIntoLeaf.
  rewrite (leafInsertIndex_place page key (Z.to_nat (getNumKeys page)) 0)
    by (rewrite ?L; hlia).
  replace (headerSize + 0 * 16) with headerSize by lia.
  fold (leafEntries page). rewrite (placeIndex_all key _ Hlt).
  unfold leafEntries at 1. rewrite length_pairsAt.
  cbn [mbind option_bind]. unfold copyWithin. rewrite L.
  replace (0 + Z.of_nat (Z.to_nat (getNumKeys page))) with (getNumKeys page)
    by lia.
  replace (headerSize + (getNumKeys page + 1) * 16
           <=? Z.of_nat (Z.to_nat PageSize)) with false
    by (symmetry; apply Z.leb_gt; hlia).
  rewrite andb_false_r. reflexivity.
Qed.

(** X16.  The page bounds the degree.  A leaf page holds 254 entries, and
    nothing in the code compares the degree with it: in a tree of a degree
    above 255 made on an empty file, after 254 inserts of distinct keys,
    which succeed, the insert of a key greater than all of them does not
    return: [insertIntoLeaf] slices the page past its end. *)
Theorem Insert_past_page_end fuel deg kvs key value :
  255 < deg ->
  length kvs = 254%nat ->
  NoDup kvs.*1 -> Forall pair_int64 kvs ->
  Forall (fun kv : Z * Z => kv.1 < key) kvs ->
  is_int64 key -> (1 <= fuel)%nat ->
  exists t t',
    build fuel deg kvs = Some (Ok tt, t)
    /\ Insert fuel t key value = (Panic, t').
Proof.
  intros Hd Hl Hnd Hi Hlt Hk Hfuel.
  destruct (NewBPlusTree_rootLeaf deg ltac:(lia)) as (t0 & N & J0 & D0).
  destruct (insertAll_rootLeaf fuel kvs t0 [] J0) as (t & I & J & D);
    rewrite ?D0, ?Hl; cbn [length]; try assumption; try lia.
  { intros k _. cbn. apply not_elem_of_nil. }
  set (es := fold_left (fun es kv => insertBefore kv.1 kv.2 es) kvs []) in *.
  assert (Pes : es ≡ₚ kvs)
    by (unfold es; rewrite fold_insertBefore_perm; reflexivity).
  destruct J as (W & R0 & N1 & Lf & Hp & Hx & Es & Hs).
  assert (R : readable t 0) by (apply pager_wf_readable; [exact W|lia]).
  destruct (read_step t 0 R) as (t1 & E1 & O1).
  destruct (only_reads_readable t t1 _ O1 R) as (R1 & P1).
  destruct (read_step t1 0 R1) as (t2 & E2 & O2).
  assert (Lo : page_ok (pageAt t 0)) by (apply length_pageAt; exact R).
  assert (Nk : getNumKeys (pageAt t 0) = 254)
    by (rewrite (numKeys_entries (pageAt t 0)), Es, Pes, Hl; reflexivity).
  assert (Hlt' : Forall (fun kv : Z * Z => kv.1 < key) es)
    by (rewrite Pes; exact Hlt).
  assert (Hnew : key ∉ es.*1).
  { intros Hin. apply list_elem_of_fmap in Hin.
    destruct Hin as ([a b] & -> & Hab).
    rewrite Forall_forall in Hlt'. specialize (Hlt' _ Hab). cbn in Hlt'.
    lia. }
  exists t, t2. split.
  { unfold build. rewrite N. cbn [mbind option_bind]. rewrite I.
    reflexivity. }
  destruct fuel as [|fuel]; [lia|].
  destruct O1 as (_ & _ & _ & _ & Od & _).
  destruct O2 as (_ & _ & _ & _ & Od2 & _).
  unfold Insert, findLeafPage. cbn [findLeafLoop].
  rewrite R0, E1, Lf, E2, P1.
  rewrite (hasKey_lookup (pageAt t 0) key _ 0)
    by (rewrite ?Lo, ?Z2Nat.id; hlia).
  replace (headerSize + 0 * 16) with headerSize by lia.
  fold (leafEntries (pageAt t 0)). rewrite Es.
  rewrite lookupEntry_absent by exact Hnew.
  cbn [snd]. rewrite Nk.
  replace (254 <? degree t2 - 1) with true
    by (symmetry; apply Z.ltb_lt; lia).
  rewrite insertIntoLeaf_no_room; [reflexivity|exact Lo|rewrite Nk; hlia|].
  rewrite Es. exact Hlt'.
Qed.

(** * The slip in [insertIntoParent] *)

(** C1 at a failing input.  Degree 4, keys 10, 20, 30, 40, 5 inserted in
    this order into an empty file; [Search 20] finds its offset.  The
    insert of [(15, 150)] then succeeds, and afterwards neither the new key
    15 nor the old key 20 is found. *)
Theorem search_after_insert_fails :
  succeeded (build 8 4 [(10, 100); (20, 200); (30, 300); (40, 400); (5, 50)])
  = true
  /\ fst (Search 8 tree5 20) = Ok (200, true)
  /\ fst (Insert 8 tree5 15 150) = Ok tt
  /\ fst (Search 8 tree6 15) = Ok (0, false)
  /\ fst (Search 8 tree6 20) = Ok (0, false).
Proof. conjs; vm_compute; reflexivity. Qed.

(** C2 at a failing input.  The root of [tree5] holds [P0 = 0] and the
    pair [(30, 1)], one key where the degree allows three.  The splice of
    the key 15 with right child 3 belongs before [(30, 1)]; the page it
    produces has the keys 15 and 0 and the pointers 0, 3, 1: the separator
    30 is gone, and pointer 1 is paired with the eight zero bytes that
    followed the payload. *)
Theorem splice_loses_separator :
  let parentPage := pageAt tree5 2 in
  getNumKeys parentPage = 1
  /\ internalKeys parentPage = [30]
  /\ internalPointers parentPage = [0; 1]
  /\ internalKeys <$> spliceIntoParent parentPage 15 3 = Some [15; 0]
  /\ internalPointers <$> spliceIntoParent parentPage 15 3 = Some [0; 3; 1]
  /\ onDisk tree6 2 (pageAt tree6 2)
  /\ Some (pageAt tree6 2) = spliceIntoParent parentPage 15 3.
Proof.
  cbv zeta. conjs; try (vm_compute; reflexivity).
  apply readable_onDisk. unfold readable. conjs; eval_prop.
Qed.

(** C3 at a failing input.  After the six successful inserts the root,
    page 2 of the file, stores the keys 15, 0. *)
Theorem root_keys_not_increasing :
  fst (Insert 8 tree5 15 150) = Ok tt
  /\ onDisk tree6 2 (pageAt tree6 2)
  /\ pageKeys (pageAt tree6 2) = [15; 0]
  /\ ~ StronglySorted Z.lt (pageKeys (pageAt tree6 2)).
Proof.
  split; [vm_compute; reflexivity|].
  split; [apply readable_onDisk; unfold readable; conjs; eval_prop|].
  assert (E : pageKeys (pageAt tree6 2) = [15; 0]) by (vm_compute; reflexivity).
  split; [exact E|]. rewrite E. intros S.
  inversion S as [|? ? _ F]; subst. inversion F as [|? ? H _]; subst. lia.
Qed.

(** C4 at a failing input.  After the nine inserts the root, page 2, is an
    internal page with the keys 15, 50, 50: the separator 30 was lost to
    the splice when 15 arrived, and its slot holds the next key.  The
    insert of 80 splits the last leaf and then the root, with the keys 15,
    50, 50, 70 and [s = 2]: the key 50 at index 2 goes up to the new root,
    page 7, the new page 6 receives the key 70, and page 2 keeps the keys
    15 and 50, so the key passed up is still in the left page. *)
Theorem internal_split_keeps_promoted_key :
  succeeded (build 8 4 [(10, 100); (20, 200); (30, 300); (40, 400);
                        (50, 500); (60, 600); (5, 50); (15, 150); (70, 700)])
  = true
  /\ rootPageID tree9 = 2
  /\ internalKeys (pageAt tree9 2) = [15; 50; 50]
  /\ internalPointers (pageAt tree9 2) = [0; 4; 1; 3]
  /\ fst (Insert 8 tree9 80 800) = Ok tt
  /\ rootPageID tree9split = 7
  /\ internalKeys (pageAt tree9split 7) = [50]
  /\ internalPointers (pageAt tree9split 7) = [2; 6]
  /\ internalKeys (pageAt tree9split 2) = [15; 50]
  /\ internalPointers (pageAt tree9split 2) = [0; 4; 1]
  /\ internalKeys (pageAt tree9split 6) = [70]
  /\ internalPointers (pageAt tree9split 6) = [3; 5].
Proof. conjs; vm_compute; reflexivity. Qed.

(** C8 at a failing input.  In [tree6] the leaves, from page 0 on, form
    the chain of the entries with keys 5, 10, 15, 20, 30, 40, in this
    order; the range [[15, 20]] holds the offsets 150 and 200, and
    [SearchRange 15 20] returns none. *)
Theorem range_scan_misses_keys :
  fst (Insert 8 tree5 15 150) = Ok tt
  /\ leafChain 8 tree6 0
     = Some [(5, 50); (10, 100); (15, 150); (20, 200); (30, 300); (40, 400)]
  /\ (rangeOf 15 20 <$> leafChain 8 tree6 0) = Some [150; 200]
  /\ fst (SearchRange 8 tree6 15 20) = Ok [].
Proof. conjs; vm_compute; reflexivity. Qed.

(** * The root after a re-open *)

(** C7 as stated fails once the root has split.  Degree 4 after 10, 20,
    30, 40: the root is page 2 and [Search 30] finds 300.  The tree
    constructed on the same file after [Close] starts from page 0, the
    left leaf, and does not find 30. *)
Lemma reopen_after_root_split_counterexample :
  build 8 4 [(10, 100); (20, 200); (30, 300); (40, 400)]
  = Some (Ok tt, tree4)
  /\ rootPageID tree4 = 2
  /\ NewBPlusTree (NewPager (snd (Close (pager tree4)))) 4 = Some reopened
  /\ rootPageID reopened = 0
  /\ fst (Search 8 tree4 30) = Ok (300, true)
  /\ fst (Search 8 reopened 30) = Ok (0, false)
  /\ ~ (forall key, fst (Search 8 reopened key) = fst (Search 8 tree4 key)).
Proof.
  assert (E1 : fst (Search 8 tree4 30) = Ok (300, true))
    by (vm_compute; reflexivity).
  assert (E2 : fst (Search 8 reopened 30) = Ok (0, false))
    by (vm_compute; reflexivity).
  split; [vm_compute; reflexivity|].
  split; [vm_compute; reflexivity|].
  split; [vm_compute; reflexivity|].
  split; [vm_compute; reflexivity|].
  split; [exact E1|]. split; [exact E2|].
  intros H. specialize (H 30). rewrite E1, E2 in H. discriminate.
Qed.

(** * Witnesses *)

Lemma pair_eta {A B} (p : A * B) a : fst p = a -> p = (a, snd p).
Proof. destruct p; cbn; intros ->; reflexivity. Qed.

Lemma read_eta {A B C} (p : (A * option B) * C) :
  snd (fst p) = None -> p = ((fst (fst p), None), snd p).
Proof. destruct p as [[a b] c]; cbn; intros ->; reflexivity. Qed.

(** C10 as stated fails at the end of [int64].  On a new, empty file the
    equation holds after [NewPager] and after each of [2 ^ 51 - 1] calls of
    [AllocatePage], which lead to the tracked size [2 ^ 63 - 4096]; the
    next call makes the page count [2 ^ 51] and wraps the tracked size to
    [- 2 ^ 63]. *)
Lemma pager_sizes_invariant_counterexample :
  let p := mkPager emptyFile (2 ^ 63 - 4096) (2 ^ 51 - 1) in
  Nat.iter (Z.to_nat (2 ^ 51 - 1)) (fun p => snd (AllocatePage p))
           (NewPager emptyFile) = p
  /\ sizes_agree (NewPager emptyFile)
  /\ sizes_agree p
  /\ numPages (snd (AllocatePage p)) = 2 ^ 51
  /\ fileSize (snd (AllocatePage p)) = - 2 ^ 63
  /\ ~ sizes_agree (snd (AllocatePage p)).
Proof.
  cbv zeta. conjs.
  - rewrite allocations by lia. rewrite Z2Nat.id by lia. reflexivity.
  - reflexivity.
  - reflexivity.
  - reflexivity.
  - reflexivity.
  - vm_compute. discriminate.
Qed.

(** C9 as stated fails on a file whose length is not a multiple of the
    page size (page 1 of a file of 5000 bytes is not past the tracked size,
    though the page count is 1), and on a page id whose offset overflows
    [int64] (page [2 ^ 52] of a one-page file: the offset wraps to 0). *)
Lemma ReadPage_past_end_counterexample :
  ~ (readPastEnd (ReadPage (NewPager oddFile) 1 new_Page)
     <-> 1 >= numPages (NewPager oddFile))
  /\ ~ (readPastEnd (ReadPage (NewPager onePageFile) (2 ^ 52) new_Page)
        <-> 2 ^ 52 * PageSize >= fileSize (NewPager onePageFile)).
Proof.
  assert (G : forall a b : Z, (a ?= b) = Lt -> ~ a >= b)
    by (intros a b E; unfold Z.ge; rewrite E; intros K; now apply K).
  split; rewrite ReadPage_error_kind; intros [_ H].
  - apply (G (wrap64 (1 * PageSize)) (fileSize (NewPager oddFile)));
      [vm_compute; reflexivity|].
    apply H. vm_compute. intro; discriminate.
  - apply (G (wrap64 (2 ^ 52 * PageSize)) (fileSize (NewPager onePageFile)));
      [vm_compute; reflexivity|].
    apply H. vm_compute. intro; discriminate.
Qed.

Lemma ReadPage_past_end_witness :
  0 <= 3 < 2 ^ 51
  /\ readPastEnd (ReadPage (pager tree5) 3 new_Page)
  /\ ReadPage (pager tree5) 3 new_Page
     = ((new_Page,
         Some (ErrReadPastEnd 3 (3 * PageSize) (fileSize (pager tree5)))),
        pager tree5).
Proof.
  assert (H : 0 <= 3 < 2 ^ 51) by lia.
  destruct (ReadPage_past_end (pager tree5) 3 new_Page H) as (A & B & C).
  assert (R : readPastEnd (ReadPage (pager tree5) 3 new_Page))
    by (apply A; vm_compute; intro; discriminate).
  split; [exact H|]. split; [exact R|]. exact (B R).
Defined.

Lemma pager_sizes_invariant_witness :
  sizes_agree (NewPager emptyFile)
  /\ sizes_agree (snd (WritePage (NewPager emptyFile) 0 new_Page))
  /\ sizes_agree (snd (AllocatePage (NewPager emptyFile))).
Proof.
  destruct pager_sizes_invariant as (A & B & C).
  assert (H : sizes_agree (NewPager emptyFile)) by (apply A; reflexivity).
  split; [exact H|]. split; [apply B; exact H|].
  apply C; [exact H|]. vm_compute. split; [intro; discriminate|reflexivity].
Defined.

Lemma Insert_duplicate_rejected_witness :
  Insert 8 treeDup 5 999
  = (Err (ErrDuplicateKey 5),
     snd (treeRead (snd (findLeafPage 8 treeDup 5)) 0))
  /\ only_reads treeDup (snd (treeRead (snd (findLeafPage 8 treeDup 5)) 0)).
Proof.
  apply (Insert_duplicate_rejected 8 treeDup 5 999 0
           (snd (findLeafPage 8 treeDup 5))).
  - apply pair_eta. vm_compute. reflexivity.
  - exists 0, 5. split; [split; [lia|vm_compute; reflexivity]|].
    split; vm_compute; reflexivity.
Defined.

Lemma leaf_split_witness :
  exists t' oldPage' newPage',
    fst (splitLeafStep treeFull 0 (pageAt treeFull 0) 40 400)
    = Ok (-1, 0, 30, 1)
    /\ onDisk t' 0 oldPage' /\ onDisk t' 1 newPage'
    /\ leafEntries oldPage' = [(10, 100); (20, 200)]
    /\ leafEntries newPage' = [(30, 300); (40, 400)]
    /\ getNextLeafPageID newPage' = -1
    /\ getNextLeafPageID oldPage' = 1.
Proof.
  pose proof (leaf_split treeFull 0 (pageAt treeFull 0) 40 400) as T.
  cbv zeta in T.
  destruct T as (k & t' & o & n & S & Do & Dn & _ & _ & _ & Eo & En & _ & _
                 & _ & Nn & No).
  - unfold pager_wf, sizes_agree. conjs; eval_prop.
  - conjs; eval_prop.
  - eval_prop.
  - eval_prop.
  - eval_prop.
  - eval_prop.
  - unfold is_int64. lia.
  - unfold is_int64. lia.
  - exists t', o, n. rewrite Eo, En, Nn, No.
    replace (numPages (pager treeFull)) with 1 in Dn
      by (vm_compute; reflexivity).
    split; [vm_compute; reflexivity|].
    split; [exact Do|]. split; [exact Dn|].
    conjs; vm_compute; reflexivity.
Defined.

Lemma Forall_forallb {A} (P : A -> Prop) (f : A -> bool) (l : list A) :
  (forall x, f x = true -> P x) -> forallb f l = true -> Forall P l.
Proof.
  intros H E. apply Forall_forall. intros x Hx.
  apply H. rewrite forallb_forall in E. apply E.
  now apply list_elem_of_In.
Qed.

Lemma internal_split_witness :
  exists t' parentPage' newPage' child3 child4,
    fst (splitInternalStep tree3split 2 (pageAt tree3split 2) 4 4)
    = Ok (-1, 2, 3, 5)
    /\ internalKeys (pageAt tree3split 2) = [2; 3]
    /\ internalPointers (pageAt tree3split 2) = [0; 1; 3]
    /\ onDisk t' 2 parentPage' /\ onDisk t' 5 newPage'
    /\ internalKeys parentPage' = [2]
    /\ internalPointers parentPage' = [0; 1]
    /\ internalKeys newPage' = [4]
    /\ internalPointers newPage' = [3; 4]
    /\ onDisk t' 3 child3 /\ getParentPageID child3 = 5
    /\ onDisk t' 4 child4 /\ getParentPageID child4 = 5.
Proof.
  pose proof (internal_split tree3split 2 (pageAt tree3split 2) 4 4) as T.
  cbv zeta in T.
  destruct T as (k & t' & p & n & S & _ & _ & _ & Dp & Dn & Kp & Pp & Kn & Pn
                 & Ch & _).
  - unfold pager_wf, sizes_agree. conjs; eval_prop.
  - conjs; eval_prop.
  - eval_prop.
  - eval_prop.
  - eval_prop.
  - eval_prop.
  - unfold is_int64. lia.
  - unfold is_int64. lia.
  - apply (Forall_forallb _ (fun c => (0 <=? c) && (c <? 5) && negb (c =? 2))).
    + intros c Hc. replace (numPages (pager tree3split)) with 5
        by (vm_compute; reflexivity). lia.
    + vm_compute. reflexivity.
  - replace (numPages (pager tree3split)) with 5 in Dn, Ch
      by (vm_compute; reflexivity).
    rewrite Forall_lookup in Ch.
    destruct (Ch 0%nat 3 ltac:(vm_compute; reflexivity)) as (c3 & D3 & G3).
    destruct (Ch 1%nat 4 ltac:(vm_compute; reflexivity)) as (c4 & D4 & G4).
    exists t', p, n, c3, c4. rewrite Kp, Pp, Kn, Pn.
    split; [vm_compute; reflexivity|].
    split; [vm_compute; reflexivity|].
    split; [vm_compute; reflexivity|].
    split; [exact Dp|]. split; [exact Dn|].
    split; [vm_compute; reflexivity|].
    split; [vm_compute; reflexivity|].
    split; [vm_compute; reflexivity|].
    split; [vm_compute; reflexivity|].
    split; [exact D3|]. split; [exact G3|]. split; [exact D4|exact G4].
Defined.

Lemma spliceIntoParent_spec_witness :
  exists page',
    spliceIntoParent (pageAt tree5 2) 15 3 = Some page'
    /\ getNumKeys page' = 2
    /\ internalKey page' 0 = 15
    /\ internalKey page' 1 = internalKey (pageAt tree5 2) 1
    /\ internalPointer page' 0 = 0
    /\ internalPointer page' 1 = 3
    /\ internalPointer page' 2 = 1.
Proof.
  pose proof (spliceIntoParent_spec (pageAt tree5 2) 15 3) as T.
  cbv zeta in T.
  assert (N : getNumKeys (pageAt tree5 2) = 1) by (vm_compute; reflexivity).
  assert (K0 : internalKey (pageAt tree5 2) 0 = 30)
    by (vm_compute; reflexivity).
  assert (P0 : internalPointer (pageAt tree5 2) 0 = 0)
    by (vm_compute; reflexivity).
  assert (P1 : internalPointer (pageAt tree5 2) 1 = 1)
    by (vm_compute; reflexivity).
  rewrite N in T.
  destruct T as (idx & page' & E & Hidx & Hlo & _ & Hn & Hk & Hp).
  - vm_compute. reflexivity.
  - vm_compute. intro; discriminate.
  - unfold is_int64. lia.
  - unfold is_int64. lia.
  - assert (I : idx = 0).
    { destruct (Z.eq_dec idx 0) as [|Ne]; [assumption|].
      specialize (Hlo 0 ltac:(lia)). rewrite K0 in Hlo. lia. }
    subst idx. exists page'.
    remember (pageAt tree5 2) as parentPage eqn:Epage.
    split; [exact E|]. split; [exact Hn|].
    split; [exact (Hk 0 ltac:(lia))|].
    split; [exact (Hk 1 ltac:(lia))|].
    split; [rewrite (Hp 0 ltac:(lia)); exact P0|].
    split; [exact (Hp 1 ltac:(lia))|].
    rewrite (Hp 2 ltac:(lia)). exact P1.
Defined.

Lemma reopen_before_root_split_witness :
  exists t',
    NewBPlusTree (NewPager (snd (Close (pager treeFull)))) 4 = Some t'
    /\ rootPageID t' = rootPageID treeFull
    /\ (forall fuel' key,
          fst (Search fuel' t' key) = fst (Search fuel' treeFull key))
    /\ (forall fuel' startKey endKey,
          fst (SearchRange fuel' t' startKey endKey)
          = fst (SearchRange fuel' treeFull startKey endKey)).
Proof.
  apply (reopen_before_root_split 8 4
           [(10, 100); (20, 200); (30, 300)] treeFull).
  - vm_compute. reflexivity.
  - cbn. lia.
Defined.

Lemma header_fields_round_trip_witness :
  getNumKeys (setNumKeys new_Page 3) = 3
  /\ getParentPageID (setParentPageID new_Page (-1)) = -1
  /\ getNextLeafPageID (setNextLeafPageID new_Page (-1)) = -1
  /\ isRoot (setIsRoot new_Page true) = true.
Proof.
  apply (header_fields_round_trip new_Page 3 (-1) true).
  - apply length_new_Page.
  - lia.
  - unfold is_int64. lia.
Defined.

Lemma WritePage_then_ReadPage_witness :
  exists p1,
    WritePage (pager tree4) 3 new_Page = (None, p1)
    /\ fst (ReadPage p1 3 new_Page) = (new_Page, None)
    /\ fileSize p1 = Z.max (fileSize (pager tree4)) ((3 + 1) * PageSize).
Proof.
  destruct (WritePage_then_ReadPage (pager tree4) 3 new_Page new_Page)
    as (p1 & A & B & C & _).
  - lia.
  - vm_compute. intro; discriminate.
  - apply length_new_Page.
  - apply length_new_Page.
  - exists p1. auto.
Defined.



Lemma NewBPlusTree_on_empty_file_witness :
  exists t,
    NewBPlusTree (NewPager emptyFile) 4 = Some t
    /\ rootPageID t = 0 /\ degree t = 4
    /\ numPages (pager t) = 1.
Proof.
  destruct (NewBPlusTree_on_empty_file 4) as (t & A & B & C & D & _);
    [lia|].
  exists t. auto.
Defined.

Lemma insertIntoLeaf_spec_witness :
  exists page',
    insertIntoLeaf (pageAt treeDup 0) 3 30 = Some page'
    /\ page_ok page'
    /\ getNumKeys page' = getNumKeys (pageAt treeDup 0) + 1
    /\ leafEntries page' = placeEntry 3 30 (leafEntries (pageAt treeDup 0)).
Proof.
  destruct (insertIntoLeaf_spec (pageAt treeDup 0) 3 30)
    as (page' & A & B & C & D & _).
  - vm_compute. reflexivity.
  - vm_compute. intro; discriminate.
  - unfold is_int64. lia.
  - unfold is_int64. lia.
  - exists page'. auto.
Defined.

Lemma Search_in_checked_tree_witness :
  fst (Search 8 tree10 7) = Ok (lookupEntry 7 (treeEntries 2 tree10))
  /\ StronglySorted Z.lt (treeEntries 2 tree10).*1.
Proof.
  destruct (Search_in_checked_tree 2 8 tree10 7) as (A & B & _).
  - vm_compute. reflexivity.
  - lia.
  - split; [exact A|exact B].
Defined.

Lemma SearchRange_in_checked_tree_witness :
  fst (SearchRange 8 tree10 3 8) = Ok (rangeOf 3 8 (treeEntries 2 tree10)).
Proof.
  apply (SearchRange_in_checked_tree 2 8 tree10 3 8).
  - vm_compute. reflexivity.
  - lia.
  - apply Nat.leb_le. vm_compute. reflexivity.
Defined.

Lemma Insert_then_Search_witness :
  exists t',
    Insert 8 tree4 25 250 = (Ok tt, t')
    /\ leafEntries (pageAt t' 0)
       = placeEntry 25 250 (leafEntries (pageAt tree4 0))
    /\ fst (Search 8 t' 25) = Ok (250, true).
Proof.
  destruct (Insert_then_Search 8 tree4 25 250 0
              (snd (findLeafPage 8 tree4 25)))
    as (t' & A & _ & B & C & _).
  - apply pair_eta. vm_compute. reflexivity.
  - unfold readable. conjs; eval_prop.
  - unfold covers. vm_compute. intro; discriminate.
  - vm_compute. reflexivity.
  - vm_compute. intro; discriminate.
  - replace (leafEntries (pageAt tree4 0)).*1 with [10; 20]
      by (vm_compute; reflexivity).
    intros H. apply elem_of_cons in H. destruct H as [H|H]; [lia|].
    apply elem_of_cons in H. destruct H as [H|H]; [lia|]. inversion H.
  - unfold is_int64. lia.
  - unfold is_int64. lia.
  - exists t'. auto.
Defined.

Lemma createRoot_spec_witness :
  exists t' rootPage,
    createRoot tree4 0 25 1 = (Ok tt, t')
    /\ rootPageID t' = numPages (pager tree4)
    /\ onDisk t' (numPages (pager tree4)) rootPage
    /\ internalKeys rootPage = [25]
    /\ internalPointers rootPage = [0; 1].
Proof.
  destruct (createRoot_spec tree4 0 25 1)
    as (t' & rootPage & lp & rp & A & B & _ & _ & _ & _ & C & _ & _ & _ & D
        & E & _).
  - unfold pager_wf, sizes_agree. conjs; eval_prop.
  - conjs; eval_prop.
  - conjs; eval_prop.
  - lia.
  - unfold is_int64. lia.
  - exists t', rootPage. auto.
Defined.

Lemma Insert_keeps_checked_tree_witness :
  exists t',
    Insert 8 tree4 25 250 = (Ok tt, t')
    /\ checkTree 1 t' = true
    /\ treeEntries 1 t' = insertBefore 25 250 (treeEntries 1 tree4).
Proof.
  destruct (Insert_keeps_checked_tree 1 8 tree4 25 250 0
              (snd (findLeafPage 8 tree4 25)))
    as (t' & A & B & _ & _ & C & _).
  - vm_compute. reflexivity.
  - replace (leavesSub 1 (content (file (pager tree4))) (rootPageID tree4))
      with [0; 1] by (vm_compute; reflexivity).
    repeat constructor; rewrite ?elem_of_cons, ?elem_of_nil; lia.
  - unfold covers. vm_compute. intro; discriminate.
  - lia.
  - apply pair_eta. vm_compute. reflexivity.
  - vm_compute. reflexivity.
  - vm_compute. intro; discriminate.
  - replace (leafEntries (pageAt tree4 0)).*1 with [10; 20]
      by (vm_compute; reflexivity).
    rewrite !elem_of_cons, elem_of_nil. lia.
  - unfold is_int64. lia.
  - unfold is_int64. lia.
  - exists t'. auto.
Defined.

Lemma Insert_splits_root_leaf_witness :
  exists t',
    Insert 8 treeFull 25 250 = (Ok tt, t')
    /\ rootPageID t' = numPages (pager treeFull) + 1
    /\ checkTree 1 t' = true
    /\ leavesSub 1 (content (file (pager t'))) (rootPageID t')
       = [rootPageID treeFull; numPages (pager treeFull)]
    /\ treeEntries 1 t'
       = insertBefore 25 250 (leafEntries (pageAt treeFull (rootPageID treeFull))).
Proof.
  destruct (Insert_splits_root_leaf 8 treeFull 25 250)
    as (t' & A & _ & B & _ & _ & C & D & E).
  - unfold pager_wf, sizes_agree. conjs; eval_prop.
  - vm_compute. reflexivity.
  - conjs; eval_prop.
  - vm_compute. reflexivity.
  - vm_compute. reflexivity.
  - vm_compute. reflexivity.
  - vm_compute. intro; discriminate.
  - vm_compute. reflexivity.
  - unfold fitsLeaf. vm_compute. intro; discriminate.
  - replace (leafEntries (pageAt treeFull (rootPageID treeFull))).*1
      with [10; 20; 30] by (vm_compute; reflexivity).
    repeat constructor; lia.
  - replace (leafEntries (pageAt treeFull (rootPageID treeFull))).*1
      with [10; 20; 30] by (vm_compute; reflexivity).
    rewrite !elem_of_cons, elem_of_nil. lia.
  - unfold is_int64. lia.
  - unfold is_int64. lia.
  - lia.
  - exists t'. auto.
Defined.

Lemma first_inserts_witness :
  exists t h,
    build 8 4 [(30, 300); (10, 100); (40, 400); (20, 200)] = Some (Ok tt, t)
    /\ checkTree h t = true
    /\ fst (Search 8 t 40) = Ok (400, true)
    /\ fst (Search 8 t 25) = Ok (0, false).
Proof.
  destruct (first_inserts 8 4 [(30, 300); (10, 100); (40, 400); (20, 200)])
    as (t & h & A & _ & B & _ & _ & C & D).
  - lia.
  - cbn. lia.
  - cbn. repeat constructor; rewrite ?elem_of_cons, ?elem_of_nil; lia.
  - repeat constructor; cbn; unfold is_int64; lia.
  - lia.
  - exists t, h. split; [exact A|]. split; [exact B|]. split.
    + apply C. rewrite !elem_of_cons. auto.
    + apply D. cbn. rewrite !elem_of_cons, elem_of_nil. lia.
Defined.

Lemma Insert_past_page_end_witness :
  exists t t',
    build 8 256 ((fun i => (Z.of_nat i, 10 * Z.of_nat i)) <$> seq 1 254)
    = Some (Ok tt, t)
    /\ Insert 8 t 255 2550 = (Panic, t').
Proof.
  apply (Insert_past_page_end 8 256 _ 255 2550).
  - lia.
  - vm_compute. reflexivity.
  - rewrite <- list_fmap_compose. apply NoDup_fmap_2; [|apply NoDup_seq].
    intros i j H. cbn in H. lia.
  - apply Forall_forall. intros [a b] Hin.
    apply list_elem_of_fmap in Hin. destruct Hin as (i & [= -> ->] & Hin).
    apply elem_of_seq in Hin. unfold pair_int64, is_int64. cbn. lia.
  - apply Forall_forall. intros [a b] Hin.
    apply list_elem_of_fmap in Hin. destruct Hin as (i & [= -> ->] & Hin).
    apply elem_of_seq in Hin. cbn. lia.
  - unfold is_int64. lia.
  - lia.
Defined.
